(** * Live pod-view broadcast of the Yatai API server

    A shallow embedding of the two websocket pod streams of
    [api-server/controllers/controllersv1]:

    - [deployment.go], [deploymentController.WsPods]: the deployment-scoped
      stream with its shared session table, manager flag and change
      detection;
    - [cluster.go], [clusterController.WsPods]: the cluster/selector stream,
      one private subscription per connection.

    Go pointers to [connWrapper] are addresses into a heap, the package-level
    tables are finite maps, sockets are identifiers whose writes are logged
    in a trace.  Every critical section of the group mutex [rw] is one
    function on the world, so that interleavings of handlers are sequences
    of those functions.  Inside the critical section of a sweep the
    goroutines that write to the sessions run concurrently; they are
    interleaved statement by statement, in an order the world carries.

    Beside the streams the file embeds the filter of the deployment
    listings ([fillListDeploymentOption] and the two handlers that call it),
    the handlers that create, update, terminate and delete a deployment
    ([doUpdate] among them) over services that answer from a state, with the
    log of their calls, and the [KubePodEvents] component of the dashboard as
    a machine over the events of its sockets. *)

From stdpp Require Import base gmap list strings pretty.
From Stdlib Require Import ZArith.

Local Open Scope string_scope.
Local Open Scope list_scope.

(** ** Values shared by both streams *)

(** A Go [error] by its message; the nil error is [None]. *)
Definition error : Type := string.

(** [errors.Wrap(err, msg)] *)
Definition Wrap (err : error) (msg : string) : error := msg +:+ ": " +:+ err.

(** [*apiv1.Pod], as far as the handlers look at it. *)
Record Pod : Type := {
  pod_name : string;
  pod_labels : gmap string string;
  pod_phase : string;
}.

(** The [interface{}] an informer callback receives. *)
Inductive obj : Type :=
| ObjPod (p : Pod)
| ObjOther.

(** [*schemasv1.KubePodSchema] *)
Record KubePodSchema : Type := {
  ps_name : string;
  ps_phase : string;
}.

#[global] Instance KubePodSchema_eq_dec : EqDecision KubePodSchema.
Proof. solve_decision. Defined.

Inductive WsRespType : Type := WsRespTypeSuccess | WsRespTypeError.

#[global] Instance WsRespType_eq_dec : EqDecision WsRespType.
Proof. solve_decision. Defined.

Record WsRespSchema : Type := {
  Type_ : WsRespType;
  Message : string;
  Payload : option (list KubePodSchema);
}.

#[global] Instance WsRespSchema_eq_dec : EqDecision WsRespSchema.
Proof. solve_decision. Defined.

Definition success_frame (v : list KubePodSchema) : WsRespSchema :=
  {| Type_ := WsRespTypeSuccess; Message := ""; Payload := Some v |}.

Definition error_frame (e : error) : WsRespSchema :=
  {| Type_ := WsRespTypeError; Message := e; Payload := None |}.

(** [*websocket.Conn] and [*connWrapper] *)
Definition sock : Type := nat.
Definition ptr : Type := nat.

Record connWrapper : Type := {
  Conn : sock;
  IsNew : bool;
  IsClosed : bool;
}.

Definition with_IsNew (b : bool) (c : connWrapper) : connWrapper :=
  {| Conn := Conn c; IsNew := b; IsClosed := IsClosed c |}.

Definition with_IsClosed (b : bool) (c : connWrapper) : connWrapper :=
  {| Conn := Conn c; IsNew := IsNew c; IsClosed := b |}.

(** [models.Deployment], by the two fields the stream reads. *)
Record Deployment : Type := {
  ID : nat;
  Name : string;
}.

(** What the outside can observe. *)
Inductive io_event : Type :=
| EvWrite (c : sock) (f : WsRespSchema) (ok : bool)
| EvClose (c : sock)
| EvGet (id : nat)
| EvSyncStatus (id : nat).

#[global] Instance io_event_eq_dec : EqDecision io_event.
Proof. solve_decision. Defined.

(** The detached goroutine of [send]: [context.WithTimeout(Background, 10s)]
    and the deployment it re-syncs. *)
Record sync_task : Type := {
  st_timeout_seconds : nat;
  st_deployment : nat;
  st_conn : sock;
}.

(** ** The world: package-level variables, heap, sockets

    [schedules] holds what the Go scheduler will choose where the order of
    goroutines is open inside one critical section: for each fan-out of
    [send] to come, the order in which its loop and the goroutines it hands
    to [eg.Go] take their steps (see [Deployment.fanout]). *)

Record world : Type := {
  heap : gmap ptr connWrapper;
  deploymentPodsWsConns : gmap string (list ptr);
  deploymentPodsWsHasManagers : gmap string bool;
  dead : gset sock;
  trace : list io_event;
  tasks : list sync_task;
  informer : list nat;
  schedules : list (list nat);
}.

Definition empty_world : world :=
  {| heap := ∅; deploymentPodsWsConns := ∅; deploymentPodsWsHasManagers := ∅;
     dead := ∅; trace := []; tasks := []; informer := []; schedules := [] |}.

Definition set_heap (h : gmap ptr connWrapper) (w : world) : world :=
  {| heap := h; deploymentPodsWsConns := deploymentPodsWsConns w;
     deploymentPodsWsHasManagers := deploymentPodsWsHasManagers w;
     dead := dead w; trace := trace w; tasks := tasks w; informer := informer w;
     schedules := schedules w |}.

Definition set_conns (m : gmap string (list ptr)) (w : world) : world :=
  {| heap := heap w; deploymentPodsWsConns := m;
     deploymentPodsWsHasManagers := deploymentPodsWsHasManagers w;
     dead := dead w; trace := trace w; tasks := tasks w; informer := informer w;
     schedules := schedules w |}.

Definition set_hasManagers (m : gmap string bool) (w : world) : world :=
  {| heap := heap w; deploymentPodsWsConns := deploymentPodsWsConns w;
     deploymentPodsWsHasManagers := m;
     dead := dead w; trace := trace w; tasks := tasks w; informer := informer w;
     schedules := schedules w |}.

Definition set_dead (d : gset sock) (w : world) : world :=
  {| heap := heap w; deploymentPodsWsConns := deploymentPodsWsConns w;
     deploymentPodsWsHasManagers := deploymentPodsWsHasManagers w;
     dead := d; trace := trace w; tasks := tasks w; informer := informer w;
     schedules := schedules w |}.

Definition log (e : io_event) (w : world) : world :=
  {| heap := heap w; deploymentPodsWsConns := deploymentPodsWsConns w;
     deploymentPodsWsHasManagers := deploymentPodsWsHasManagers w;
     dead := dead w; trace := trace w ++ [e]; tasks := tasks w;
     informer := informer w; schedules := schedules w |}.

Definition spawn (t : sync_task) (w : world) : world :=
  {| heap := heap w; deploymentPodsWsConns := deploymentPodsWsConns w;
     deploymentPodsWsHasManagers := deploymentPodsWsHasManagers w;
     dead := dead w; trace := trace w; tasks := tasks w ++ [t];
     informer := informer w; schedules := schedules w |}.

(** [informer.AddEventHandler(...)]: the registration is kept for the life
    of the informer; neither handler removes one. *)
Definition AddEventHandler (id : nat) (w : world) : world :=
  {| heap := heap w; deploymentPodsWsConns := deploymentPodsWsConns w;
     deploymentPodsWsHasManagers := deploymentPodsWsHasManagers w;
     dead := dead w; trace := trace w; tasks := tasks w;
     informer := informer w ++ [id]; schedules := schedules w |}.

Definition set_schedules (ss : list (list nat)) (w : world) : world :=
  {| heap := heap w; deploymentPodsWsConns := deploymentPodsWsConns w;
     deploymentPodsWsHasManagers := deploymentPodsWsHasManagers w;
     dead := dead w; trace := trace w; tasks := tasks w; informer := informer w;
     schedules := ss |}.

(** [conn.WriteJSON(f)]: fails on a socket that was closed or whose peer is
    gone ([dead]), succeeds otherwise. *)
Definition WriteJSON (c : sock) (f : WsRespSchema) (w : world)
  : option error * world :=
  if decide (c ∈ dead w)
  then (Some "write: connection closed", log (EvWrite c f false) w)
  else (None, log (EvWrite c f true) w).

(** [conn.Close()] *)
Definition Close (c : sock) (w : world) : world :=
  log (EvClose c) (set_dead ({[c]} ∪ dead w) w).

(** The peer goes away: later writes on the socket fail. *)
Definition peer_gone (c : sock) (w : world) : world :=
  set_dead ({[c]} ∪ dead w) w.

(** Modelled from the spec: [writeWsError] is defined outside the files at
    hand.  An error frame carries the error's message and a null payload;
    nothing is written for a nil error, as the inline twin of it in
    [clusterController.WsPods] does. *)
Definition writeWsError (c : sock) (err : option error) (w : world) : world :=
  match err with
  | None => w
  | Some e => (WriteJSON c (error_frame e) w).2
  end.

(** [go.uber.org/atomic] [Int64]: two's complement wrap-around. *)
Definition int64_wrap (z : Z) : Z := ((z + 2 ^ 63) `mod` 2 ^ 64 - 2 ^ 63)%Z.
Definition Inc (z : Z) : Z := int64_wrap (z + 1).

Definition maxFailed : Z := 10.

(** ** deployment.go: the deployment-scoped stream *)

Module Deployment.

(** The variables of one [WsPods] call that its closures ([send], [send_],
    [failed], the informer callbacks, the side task) capture and share. *)
Record activation : Type := {
  a_id : nat;
  conn : sock;
  connW : ptr;
  deployment : Deployment;
  clusterID : nat;
  podSchemas : list KubePodSchema;
  failedCount : Z;
  err : option error;
  pollingDone : bool;
}.

(** [cachedKey := fmt.Sprintf("%d", deployment.ID)] *)
Definition cachedKey (a : activation) : string := pretty (ID (deployment a)).

Definition set_podSchemas (v : list KubePodSchema) (a : activation) : activation :=
  {| a_id := a_id a; conn := conn a; connW := connW a; deployment := deployment a;
     clusterID := clusterID a; podSchemas := v; failedCount := failedCount a;
     err := err a; pollingDone := pollingDone a |}.

Definition set_failedCount (n : Z) (a : activation) : activation :=
  {| a_id := a_id a; conn := conn a; connW := connW a; deployment := deployment a;
     clusterID := clusterID a; podSchemas := podSchemas a; failedCount := n;
     err := err a; pollingDone := pollingDone a |}.

Definition set_err (e : option error) (a : activation) : activation :=
  {| a_id := a_id a; conn := conn a; connW := connW a; deployment := deployment a;
     clusterID := clusterID a; podSchemas := podSchemas a;
     failedCount := failedCount a; err := e; pollingDone := pollingDone a |}.

(** [cancel()] of [pollingCtx] *)
Definition cancel (a : activation) : activation :=
  {| a_id := a_id a; conn := conn a; connW := connW a; deployment := deployment a;
     clusterID := clusterID a; podSchemas := podSchemas a;
     failedCount := failedCount a; err := err a; pollingDone := true |}.

(** [failed := func() { failedCount.Inc() }] *)
Definition failed (a : activation) : activation :=
  set_failedCount (Inc (failedCount a)) a.

(** Modelled from the spec: the constant
    [commonconsts.KubeLabelYataiBentoDeployment] lives in another package;
    deployment mode matches on the label [yatai-deployment]. *)
Definition KubeLabelYataiBentoDeployment : string := "yatai-deployment".

(** [checkPod]: a missing label reads as the empty string. *)
Definition checkPod (a : activation) (o : obj) : bool :=
  match o with
  | ObjOther => false
  | ObjPod pod =>
      if decide (default "" (pod_labels pod !! KubeLabelYataiBentoDeployment)
                 ≠ Name (deployment a))
      then false else true
  end.

Section WithTransformer.

(** [transformersv1.ToKubePodSchemas(ctx, cluster.ID, pods)] *)
Variable ToKubePodSchemas : nat → list Pod → error + list KubePodSchema.

(** *** The loop over [conns] in [send] and its goroutines

    Lines 901-932.  The loop hands one closure per session to [eg.Go], which
    starts a goroutine for it at once; every closure assigns the result of
    its write to the one [err] of [send] (declared at line 873 and captured
    by reference) and then tests that variable.  Between the assignment and
    the test of one goroutine, others may assign.

    The package [errsgroup] is not among the files at hand; as the
    specification has it (section 5), the writes of a sweep are dispatched
    concurrently and joined before the lock is released: [eg.Go] starts a
    goroutine for the closure it is given, [eg.Wait()] waits for all of them
    and answers the error of a closure that failed.  Every closure here
    returns nil, so [eg.Wait()] answers nil and [send] goes on to store
    [newConns].

    The goroutines are interleaved statement by statement, each statement
    taking effect at once:
    - one iteration of the loop (lines 903-932), which appends to
      [newConns] without [mu] at line 911;
    - the assignment [err = conn.Conn.WriteJSON(...)] (line 916);
    - the test [if err != nil] (line 921);
    - the branch it selected: [Close] and [IsClosed = true] (lines 922-923),
      which only this goroutine and no later step of the sweep looks at, or
      the block under [mu] (lines 925-928). *)

(** What a goroutine given to [eg.Go] does next. *)
Inductive pc : Type := AtWrite | AtTest | AtClose | AtKeep | AtEnd.

#[global] Instance pc_eq_dec : EqDecision pc.
Proof. solve_decision. Defined.

(** The variables the loop and its goroutines share.  [fo_conns] is what
    [range conns] has not reached, [fo_eg] the goroutines in the order of
    their start, each with the [conn] it captured. *)
Record fanning : Type := {
  fo_conns : list ptr;
  fo_eg : list (ptr * pc);
  fo_newConns : list ptr;
  fo_err : option error;
  fo_world : world;
}.

(** One iteration of the loop. *)
Definition loop_step (viewChanged : bool) (s : fanning) : fanning :=
  match fo_conns s with
  | [] => s
  | p :: conns' =>
      let skip := {| fo_conns := conns'; fo_eg := fo_eg s;
                     fo_newConns := fo_newConns s; fo_err := fo_err s;
                     fo_world := fo_world s |} in
      match heap (fo_world s) !! p with
      | None => skip
      | Some c =>
          if IsClosed c then skip
          else if negb (IsNew c) && negb viewChanged then
            {| fo_conns := conns'; fo_eg := fo_eg s;
               fo_newConns := fo_newConns s ++ [p]; fo_err := fo_err s;
               fo_world := fo_world s |}
          else
            {| fo_conns := conns'; fo_eg := fo_eg s ++ [(p, AtWrite)];
               fo_newConns := fo_newConns s; fo_err := fo_err s;
               fo_world := fo_world s |}
      end
  end.

(** One statement of the [i]-th goroutine.  A goroutine is started only
    for a wrapper that is on the heap, and nothing leaves the heap; the
    [None] branches make the function total. *)
Definition task_step (newPodSchemas : list KubePodSchema) (i : nat) (s : fanning)
  : fanning :=
  match fo_eg s !! i with
  | None => s
  | Some (p, AtWrite) =>
      match heap (fo_world s) !! p with
      | None =>
          {| fo_conns := fo_conns s; fo_eg := <[i := (p, AtTest)]> (fo_eg s);
             fo_newConns := fo_newConns s; fo_err := fo_err s;
             fo_world := fo_world s |}
      | Some c =>
          let '(e, w1) := WriteJSON (Conn c) (success_frame newPodSchemas) (fo_world s) in
          {| fo_conns := fo_conns s; fo_eg := <[i := (p, AtTest)]> (fo_eg s);
             fo_newConns := fo_newConns s; fo_err := e; fo_world := w1 |}
      end
  | Some (p, AtTest) =>
      let branch := match fo_err s with Some _ => AtClose | None => AtKeep end in
      {| fo_conns := fo_conns s; fo_eg := <[i := (p, branch)]> (fo_eg s);
         fo_newConns := fo_newConns s; fo_err := fo_err s;
         fo_world := fo_world s |}
  | Some (p, AtClose) =>
      match heap (fo_world s) !! p with
      | None =>
          {| fo_conns := fo_conns s; fo_eg := <[i := (p, AtEnd)]> (fo_eg s);
             fo_newConns := fo_newConns s; fo_err := fo_err s;
             fo_world := fo_world s |}
      | Some c =>
          let w1 := Close (Conn c) (fo_world s) in
          {| fo_conns := fo_conns s; fo_eg := <[i := (p, AtEnd)]> (fo_eg s);
             fo_newConns := fo_newConns s; fo_err := fo_err s;
             fo_world := set_heap (<[p := with_IsClosed true c]> (heap w1)) w1 |}
      end
  | Some (p, AtKeep) =>
      {| fo_conns := fo_conns s; fo_eg := <[i := (p, AtEnd)]> (fo_eg s);
         fo_newConns := fo_newConns s ++ [p]; fo_err := fo_err s;
         fo_world := set_heap (alter (with_IsNew false) p (heap (fo_world s)))
                       (fo_world s) |}
  | Some (p, AtEnd) => s
  end.

(** The scheduler's choice: [0] lets the loop run one iteration, [S i] lets
    the [i]-th goroutine run one statement.  A choice that names a loop at
    its end or a goroutine that is not there, or is done, changes
    nothing. *)
Definition fan_step (viewChanged : bool) (newPodSchemas : list KubePodSchema)
    (s : fanning) (choice : nat) : fanning :=
  match choice with
  | 0 => loop_step viewChanged s
  | S i => task_step newPodSchemas i s
  end.

(** Modelled from the spec: [eg.Wait()] joins the goroutines.  Whatever the
    scheduler chose so far, the loop runs to its end and every goroutine
    runs to its end, here in the order of their start. *)
Definition fan_wait (viewChanged : bool) (newPodSchemas : list KubePodSchema)
    (s : fanning) : fanning :=
  let s1 := Nat.iter (length (fo_conns s)) (loop_step viewChanged) s in
  foldl (λ s i, task_step newPodSchemas i
                  (task_step newPodSchemas i (task_step newPodSchemas i s)))
        s1 (seq 0 (length (fo_eg s1))).

(** The loop and its goroutines from the first statement of the loop to
    the return of [eg.Wait()], under the first of the [schedules] of the
    world, which is used up; with none left the goroutines run one after the
    other.  [err] is nil when the loop is reached (lines 879-883). *)
Definition fan_start (conns : list ptr) (w : world) : fanning :=
  {| fo_conns := conns; fo_eg := []; fo_newConns := []; fo_err := None;
     fo_world := set_schedules (tail (schedules w)) w |}.

Definition fan_run (viewChanged : bool) (newPodSchemas : list KubePodSchema)
    (conns : list ptr) (w : world) : fanning :=
  fan_wait viewChanged newPodSchemas
    (foldl (fan_step viewChanged newPodSchemas) (fan_start conns w)
       (default [] (head (schedules w)))).

Definition fanout (viewChanged : bool) (newPodSchemas : list KubePodSchema)
    (conns : list ptr) (w : world) : list ptr * world :=
  let s := fan_run viewChanged newPodSchemas conns w in
  (fo_newConns s, fo_world s).

(** [send]: one sweep, the whole of it under [rw.Lock()].  [listed] is what
    [ListPodsByDeployment] answers at that moment; [reflect.DeepEqual] on
    the two schema slices is equality of the lists. *)
Definition send (listed : error + list Pod) (a : activation) (w : world)
  : option error * activation * world :=
  if pollingDone a then (None, a, w) else
  let conns := default [] (deploymentPodsWsConns w !! cachedKey a) in
  match listed with
  | inl e => (Some (Wrap e "list pods by deployment"), a, w)
  | inr pods =>
      match ToKubePodSchemas (clusterID a) pods with
      | inl e => (Some (Wrap e "to kube pod schemas"), a, w)
      | inr newPodSchemas =>
          let viewChanged := negb (bool_decide (podSchemas a = newPodSchemas)) in
          let w1 :=
            if viewChanged
            then spawn {| st_timeout_seconds := 10;
                          st_deployment := ID (deployment a);
                          st_conn := conn a |} w
            else w in
          let a1 := set_podSchemas newPodSchemas a in
          let '(newConns, w2) := fanout viewChanged newPodSchemas conns w1 in
          let w3 := set_conns (<[cachedKey a := newConns]> (deploymentPodsWsConns w2)) w2 in
          (None, set_failedCount 0 a1, w3)
      end
  end.

(** [send_] *)
Definition send_ (listed : error + list Pod) (a : activation) (w : world)
  : activation * world :=
  let '(e, a1, w1) := send listed a w in
  let a2 := set_err e a1 in
  let w2 := writeWsError (conn a2) e w1 in
  match e with
  | Some _ => (failed a2, w2)
  | None => (a2, w2)
  end.

(** The three callbacks given to [informer.AddEventHandler]. *)
Definition AddFunc (o : obj) (listed : error + list Pod) (a : activation) (w : world)
  : activation * world :=
  if negb (checkPod a o) then (a, w) else send_ listed a w.

Definition UpdateFunc (oldObj newObj : obj) (listed : error + list Pod)
    (a : activation) (w : world) : activation * world :=
  if negb (checkPod a newObj) then (a, w) else send_ listed a w.

Definition DeleteFunc (o : obj) (listed : error + list Pod) (a : activation) (w : world)
  : activation * world :=
  if negb (checkPod a o) then (a, w) else send_ listed a w.

(** The goroutine started by [send] when the view changed: [got] is the
    answer of [DeploymentService.Get], [synced] the error of
    [DeploymentService.SyncStatus], dropped by [_, _ =]. *)
Definition run_sync_task (t : sync_task) (got : error + Deployment)
    (synced : option error) (a : activation) (w : world) : activation * world :=
  let w1 := log (EvGet (st_deployment t)) w in
  match got with
  | inl e => (failed a, writeWsError (st_conn t) (Some e) w1)
  | inr deployment_ => (a, log (EvSyncStatus (ID deployment_)) w1)
  end.

(** *** The handler, phase by phase

    [WsPods] blocks on the ticker between its phases; each phase below runs
    from one blocking point to the next.  The answers of the services are
    part of the request. *)

Record request : Type := {
  rq_id : nat;
  rq_Upgrade : error + sock;
  rq_GetDeployment : error + Deployment;
  rq_canView : option error;
  rq_GetCluster : error + nat;
  rq_GetPodInformer : option error;
  rq_ListPods : error + list Pod;
}.

Inductive admission : Type :=
| Returned (e : option error)
| Accepted (a : activation).

(** The two deferred calls every return after the upgrade runs, last
    registered first: [writeWsError(conn, err)], then [conn.Close()]. *)
Definition deferred (c : sock) (e : option error) (w : world) : world :=
  Close c (writeWsError c e w).

(** Lines 753-766: the wrapper is allocated and published in the table
    under [rw.Lock()]. *)
Definition attach (key : string) (c : sock) (w : world) : ptr * world :=
  let conns := default [] (deploymentPodsWsConns w !! key) in
  let p := fresh (dom (heap w)) in
  let connW := {| Conn := c; IsNew := false; IsClosed := false |} in
  let w1 := set_heap (<[p := connW]> (heap w)) w in
  (p, set_conns (<[key := conns ++ [p]]> (deploymentPodsWsConns w1)) w1).

(** From the upgrade to the first snapshot. *)
Definition WsPods_open (rq : request) (w : world) : admission * world :=
  match rq_Upgrade rq with
  | inl e => (Returned (Some e), w)
  | inr c =>
  match rq_GetDeployment rq with
  | inl e => (Returned (Some e), deferred c (Some e) w)
  | inr d =>
  match rq_canView rq with
  | Some e => (Returned (Some e), deferred c (Some e) w)
  | None =>
  let '(p, w1) := attach (pretty (ID d)) c w in
  match rq_GetCluster rq with
  | inl e => (Returned (Some e), deferred c (Some e) w1)
  | inr cid =>
  match rq_GetPodInformer rq with
  | Some e => (Returned (Some e), deferred c (Some e) w1)
  | None =>
  match rq_ListPods rq with
  | inl e => (Returned (Some e), deferred c (Some e) w1)
  | inr pods =>
  match ToKubePodSchemas cid pods with
  | inl e =>
      let e' := Wrap e "get app all components with pods" in
      (Returned (Some e'), deferred c (Some e') w1)
  | inr v =>
  match WriteJSON c (success_frame v) w1 with
  | (Some e, w2) =>
      let e' := Wrap e "ws write json failed" in
      (Returned (Some e'), deferred c (Some e') w2)
  | (None, w2) =>
      let w3 := set_heap (alter (with_IsNew false) p (heap w2)) w2 in
      (Accepted {| a_id := rq_id rq; conn := c; connW := p; deployment := d;
                   clusterID := cid; podSchemas := v; failedCount := 0;
                   err := None; pollingDone := false |}, w3)
  end end end end end end end end.

(** One turn of the waiting loop (lines 821-837): the flag is read under
    [rw.RLock()], which is released before the handler acts on it. *)
Inductive wait_step : Type := WaitReturn | WaitTick | WaitBreak.

Definition wait_iter (a : activation) (w : world) : wait_step :=
  if pollingDone a then WaitReturn
  else if default false (deploymentPodsWsHasManagers w !! cachedKey a)
       then WaitTick else WaitBreak.

(** [return nil] out of the waiting loop: [cancel()], [writeWsError] on a
    nil error, [conn.Close()]. *)
Definition WsPods_return_waiting (a : activation) (w : world) : activation * world :=
  let a1 := cancel (set_err None a) in
  (a1, deferred (conn a1) (err a1) w).

(** Lines 839-846: the flag is set in a second critical section. *)
Definition claim_manager (a : activation) (w : world) : world :=
  set_hasManagers (<[cachedKey a := true]> (deploymentPodsWsHasManagers w)) w.

(** Lines 950-983 *)
Definition register (a : activation) (w : world) : world :=
  AddEventHandler (a_id a) w.

(** One turn of the manager's loop (lines 989-1002): [Some a'] when the
    loop returns, [None] when it blocks on the ticker. *)
Definition manager_iter (a : activation) : option activation :=
  if pollingDone a then Some a
  else if bool_decide (failedCount a > maxFailed)%Z
       then Some (set_err (Some "ws pods failed too frequently!") a)
       else None.

(** [return nil] after the loop: the deferred calls, last registered first,
    clear the flag, cancel [pollingCtx], then [writeWsError] and [Close]. *)
Definition WsPods_return_manager (a : activation) (w : world) : activation * world :=
  let a1 := set_err None a in
  let w1 := set_hasManagers (<[cachedKey a1 := false]> (deploymentPodsWsHasManagers w)) w in
  let a2 := cancel a1 in
  (a2, deferred (conn a2) (err a2) w1).

(** The manager from its loop on: a turn that returns runs the deferred
    calls. *)
Definition manager_turn (a : activation) (w : world) : option (activation * world) :=
  match manager_iter a with
  | Some a' => Some (WsPods_return_manager a' w)
  | None => None
  end.

End WithTransformer.

End Deployment.

(** ** cluster.go: the cluster/selector stream *)

Module Cluster.

(** [labels.Selector], by its [Matches]. *)
Definition Selector : Type := gmap string string → bool.

Record activation : Type := {
  a_id : nat;
  conn : sock;
  selector : Selector;
  failedCount : Z;
  pollingDone : bool;
}.

Definition fail (a : activation) : activation :=
  {| a_id := a_id a; conn := conn a; selector := selector a;
     failedCount := Inc (failedCount a); pollingDone := pollingDone a |}.

Definition cancel (a : activation) : activation :=
  {| a_id := a_id a; conn := conn a; selector := selector a;
     failedCount := failedCount a; pollingDone := true |}.

Definition checkPod (a : activation) (o : obj) : bool :=
  match o with
  | ObjOther => false
  | ObjPod pod => selector a (pod_labels pod)
  end.

Section WithTransformer.

(** [transformersv1.ToKubePodSchemas(ctx, pods)] *)
Variable ToKubePodSchemas : list Pod → error + list KubePodSchema.

(** [send]: the deferred function counts any error of the three calls. *)
Definition send (listed : error + list Pod) (a : activation) (w : world)
  : activation * world :=
  match listed with
  | inl _ => (fail a, w)
  | inr pods =>
      match ToKubePodSchemas pods with
      | inl _ => (fail a, w)
      | inr podSchemas =>
          match WriteJSON (conn a) (success_frame podSchemas) w with
          | (Some _, w1) => (fail a, w1)
          | (None, w1) => (a, w1)
          end
      end
  end.

Definition AddFunc (o : obj) (listed : error + list Pod) (a : activation) (w : world)
  : activation * world :=
  if negb (checkPod a o) then (a, w) else send listed a w.

Definition UpdateFunc (oldObj newObj : obj) (listed : error + list Pod)
    (a : activation) (w : world) : activation * world :=
  if negb (checkPod a newObj) then (a, w) else send listed a w.

Definition DeleteFunc (o : obj) (listed : error + list Pod) (a : activation) (w : world)
  : activation * world :=
  if negb (checkPod a o) then (a, w) else send listed a w.

Record request : Type := {
  rq_id : nat;
  rq_Upgrade : error + sock;
  rq_GetCluster : option error;
  rq_canView : option error;
  rq_Parse : error + Selector;
  rq_GetPodInformer : option error;
  rq_ListPods : error + list Pod;
}.

Inductive admission : Type :=
| Returned (e : option error)
| Accepted (a : activation).

(** The deferred error frame of lines 195-204. *)
Definition error_defer (c : sock) (e : option error) (w : world) : world :=
  match e with
  | Some msg => (WriteJSON c (error_frame msg) w).2
  | None => w
  end.

(** From the upgrade to the registration of the callbacks.  [conn.Close()]
    is deferred right after the upgrade, the error frame only after
    [GetCluster] and [canView]. *)
Definition WsPods_open (rq : request) (w : world) : admission * world :=
  match rq_Upgrade rq with
  | inl e => (Returned (Some e), w)
  | inr c =>
  match rq_GetCluster rq with
  | Some e => (Returned (Some e), Close c w)
  | None =>
  match rq_canView rq with
  | Some e => (Returned (Some e), Close c w)
  | None =>
  match rq_Parse rq with
  | inl e => (Returned (Some e), Close c (error_defer c (Some e) w))
  | inr sel =>
  match rq_GetPodInformer rq with
  | Some e => (Returned (Some e), Close c (error_defer c (Some e) w))
  | None =>
      let a := {| a_id := rq_id rq; conn := c; selector := sel;
                  failedCount := 0; pollingDone := false |} in
      let '(a1, w1) := send (rq_ListPods rq) a w in
      (Accepted a1, AddEventHandler (a_id a1) w1)
  end end end end end.

(** One turn of the loop of lines 297-310: [true] when it is left. *)
Definition manager_iter (a : activation) : bool :=
  if pollingDone a then true
  else bool_decide (failedCount a > maxFailed)%Z.

(** [return] after the loop: [err] is nil there, so the deferred error
    frame writes nothing; [conn.Close()] runs.  [pollingCtx] is not
    cancelled by the handler. *)
Definition WsPods_return (a : activation) (w : world) : activation * world :=
  (a, Close (conn a) (error_defer (conn a) None w)).

Definition manager_turn (a : activation) (w : world) : option (activation * world) :=
  if manager_iter a then Some (WsPods_return a w) else None.

End WithTransformer.

End Cluster.

(** ** What one sweep does to each session *)

Module Sweep.

Import Deployment.

(** The session is written to: it is open, and it is new or the view
    changed. *)
Definition due (viewChanged : bool) (c : connWrapper) : bool :=
  negb (IsClosed c) && (IsNew c || viewChanged).

(** The sessions of a table are distinct wrappers on distinct sockets. *)
Definition sock_at (w : world) (p : ptr) : option sock := Conn <$> heap w !! p.

Definition sessions_distinct (w : world) (conns : list ptr) : Prop :=
  NoDup conns ∧ NoDup (omap (sock_at w) conns).

(** The events logged since the world [w0]. *)
Definition since (w0 w : world) : list io_event :=
  drop (length (trace w0)) (trace w).

(** The statements a goroutine at [st] has still to run. *)
Definition rank (st : pc) : nat :=
  match st with
  | AtWrite => 3
  | AtTest => 2
  | AtClose | AtKeep => 1
  | AtEnd => 0
  end.

Definition rank_at (s : fanning) (j : nat) : nat :=
  default 0 (rank ∘ snd <$> fo_eg s !! j).

(** An event of the fan-out of the view [v] on the session whose wrapper
    is [c]: the write of the frame, which fails on a socket that was dead
    when the fan-out began, or the close. *)
Definition event_of (v : list KubePodSchema) (w0 : world) (c : connWrapper)
    (e : io_event) : Prop :=
  (∃ ok, e = EvWrite (Conn c) (success_frame v) ok ∧
         (Conn c ∈ dead w0 → ok = false)) ∨
  e = EvClose (Conn c).

(** What no statement of the loop or of a goroutine touches. *)
Record fan_frame (w0 w : world) : Prop := {
  ff_table : deploymentPodsWsConns w = deploymentPodsWsConns w0;
  ff_flags : deploymentPodsWsHasManagers w = deploymentPodsWsHasManagers w0;
  ff_tasks : tasks w = tasks w0;
  ff_informer : informer w = informer w0;
  ff_schedules : schedules w = schedules w0;
}.

(** What holds of the loop and its goroutines at every step, whatever the
    scheduler chose: [w0] is the world the fan-out began in, [seen] the part
    of [conns] the loop has gone through. *)
Record fan_inv (viewChanged : bool) (v : list KubePodSchema) (conns : list ptr)
    (w0 : world) (seen : list ptr) (s : fanning) : Prop := {
  fi_split : conns = seen ++ fo_conns s;
  fi_dead : dead w0 ⊆ dead (fo_world s);
  fi_trace : trace (fo_world s) = trace w0 ++ since w0 (fo_world s);
  fi_events : ∀ e, e ∈ since w0 (fo_world s) →
    ∃ q st c, (q, st) ∈ fo_eg s ∧ st ≠ AtWrite ∧ heap w0 !! q = Some c ∧
              event_of v w0 c e;
  fi_written : ∀ q st c, (q, st) ∈ fo_eg s → st ≠ AtWrite → heap w0 !! q = Some c →
    ∃ ok, EvWrite (Conn c) (success_frame v) ok ∈ since w0 (fo_world s);
  fi_eg_nodup : NoDup (fo_eg s).*1;
  fi_eg_seen : ∀ q st, (q, st) ∈ fo_eg s →
    q ∈ seen ∧ ∃ c, heap w0 !! q = Some c ∧ due viewChanged c = true;
  fi_seen_eg : ∀ q c, q ∈ seen → heap w0 !! q = Some c → due viewChanged c = true →
    ∃ st, (q, st) ∈ fo_eg s;
  fi_heap : ∀ q, (q, AtEnd) ∉ fo_eg s → heap (fo_world s) !! q = heap w0 !! q;
  fi_end : ∀ q, (q, AtEnd) ∈ fo_eg s → ∃ c, heap w0 !! q = Some c ∧
    ((heap (fo_world s) !! q = Some (with_IsNew false c) ∧ q ∈ fo_newConns s) ∨
     (heap (fo_world s) !! q = Some (with_IsClosed true c) ∧ q ∉ fo_newConns s));
  fi_new_nodup : NoDup (fo_newConns s);
  fi_new : ∀ q, q ∈ fo_newConns s →
    q ∈ seen ∧
    ((q, AtEnd) ∈ fo_eg s ∨
     ∃ c, heap w0 !! q = Some c ∧ IsClosed c = false ∧ due viewChanged c = false);
  fi_quiet : ∀ q c, q ∈ seen → heap w0 !! q = Some c → IsClosed c = false →
    due viewChanged c = false → q ∈ fo_newConns s;
}.

(** What holds in addition when every socket the fan-out writes to was
    dead when it began: once a goroutine has written, [err] is not nil, and
    no goroutine takes the branch that keeps its session. *)
Record fan_inv_dead (s : fanning) : Prop := {
  fd_err : fo_err s = None → ∀ q st, (q, st) ∈ fo_eg s → st = AtWrite;
  fd_keep : ∀ q, (q, AtKeep) ∉ fo_eg s;
  fd_end : ∀ q, (q, AtEnd) ∈ fo_eg s →
    IsClosed <$> heap (fo_world s) !! q = Some true;
}.

(** What the fan-out of the view [v] over [conns] leaves behind, whatever
    the scheduler chose: [r] is its result from the world [w]. *)
Record fanout_post (viewChanged : bool) (v : list KubePodSchema)
    (conns : list ptr) (w : world) (r : list ptr * world) : Prop := {
  fp_dead : dead w ⊆ dead r.2;
  fp_trace : trace r.2 = trace w ++ since w r.2;
  fp_events : ∀ e, e ∈ since w r.2 →
    ∃ q c, q ∈ conns ∧ heap w !! q = Some c ∧ due viewChanged c = true ∧
           event_of v w c e;
  fp_written : ∀ q c, q ∈ conns → heap w !! q = Some c → due viewChanged c = true →
    ∃ ok, EvWrite (Conn c) (success_frame v) ok ∈ since w r.2;
  fp_nodup : NoDup r.1;
  fp_sub : ∀ q, q ∈ r.1 → q ∈ conns;
  fp_outside : ∀ q, q ∉ conns → heap r.2 !! q = heap w !! q;
  fp_absent : ∀ q, heap w !! q = None → heap r.2 !! q = None ∧ q ∉ r.1;
  fp_quiet : ∀ q c, heap w !! q = Some c → due viewChanged c = false →
    heap r.2 !! q = Some c ∧ (q ∈ r.1 ↔ q ∈ conns ∧ IsClosed c = false);
  fp_due : ∀ q c, q ∈ conns → heap w !! q = Some c → due viewChanged c = true →
    (heap r.2 !! q = Some (with_IsNew false c) ∧ q ∈ r.1) ∨
    (heap r.2 !! q = Some (with_IsClosed true c) ∧ q ∉ r.1);
  fp_all_dead :
    (∀ q c, q ∈ conns → heap w !! q = Some c → due viewChanged c = true →
            Conn c ∈ dead w) →
    ∀ q c, q ∈ conns → heap w !! q = Some c → due viewChanged c = true →
      heap r.2 !! q = Some (with_IsClosed true c) ∧ q ∉ r.1;
}.

(** The session table of the activation's deployment. *)
Definition table (a : activation) (w : world) : list ptr :=
  default [] (deploymentPodsWsConns w !! cachedKey a).

Definition view_changed (a : activation) (v : list KubePodSchema) : bool :=
  negb (bool_decide (podSchemas a = v)).

Definition resync_of (a : activation) : sync_task :=
  {| st_timeout_seconds := 10; st_deployment := ID (deployment a);
     st_conn := conn a |}.

(** A frame carrying the view [v] was handed to the socket [c]. *)
Definition written_to (c : sock) (v : list KubePodSchema) (evs : list io_event)
  : Prop :=
  ∃ ok, EvWrite c (success_frame v) ok ∈ evs.

(** What a sweep that built the view [v] leaves behind, whatever the
    scheduler chose. *)
Record sweep_post (a : activation) (w : world) (v : list KubePodSchema)
    (r : option error * activation * world) : Prop := {
  sp_err : r.1.1 = None;
  sp_act : r.1.2 = set_failedCount 0 (set_podSchemas v a);
  sp_flags : deploymentPodsWsHasManagers r.2 = deploymentPodsWsHasManagers w;
  sp_informer : informer r.2 = informer w;
  sp_schedules : schedules r.2 = tail (schedules w);
  sp_tasks : tasks r.2 =
    tasks w ++ (if view_changed a v then [resync_of a] else []);
  sp_tables : deploymentPodsWsConns r.2 =
    <[cachedKey a := table a r.2]> (deploymentPodsWsConns w);
  sp_fanout : fanout_post (view_changed a v) v (table a w) w (table a r.2, r.2);
}.

(** No wrapper on the heap is marked new. *)
Definition none_new (w : world) : Prop :=
  map_Forall (λ _ c, IsNew c = false) (heap w).

Section WithTransformer.

Variable ToKubePodSchemas : nat → list Pod → error + list KubePodSchema.

(** The view a sweep builds from what the lister answers, when both
    [ListPodsByDeployment] and [ToKubePodSchemas] succeed. *)
Definition built (a : activation) (listed : error + list Pod)
  : option (list KubePodSchema) :=
  match listed with
  | inl _ => None
  | inr pods =>
      match ToKubePodSchemas (clusterID a) pods with
      | inl _ => None
      | inr v => Some v
      end
  end.

(** The informer calls [send_] once per answer of the lister. *)
Definition sweeps (ls : list (error + list Pod)) (a : activation) (w : world)
  : activation * world :=
  foldl (λ aw l, send_ ToKubePodSchemas l aw.1 aw.2) (a, w) ls.

End WithTransformer.

End Sweep.

(** ** Handlers of one process, interleaved

    Between two blocking points a handler runs one of its phases; the
    scheduler picks which handler moves next.  The waiting loop reads the
    manager flag in one critical section ([Poll]) and sets it in another
    ([Claim]).  [Schedule order] settles the order in which the goroutines
    of a fan-out to come take their steps. *)

Module Group.

Import Deployment.

Inductive phase : Type := Waiting | Claiming | Managing | Gone.

#[global] Instance phase_eq_dec : EqDecision phase.
Proof. solve_decision. Defined.

Record handler : Type := {
  h_act : activation;
  h_phase : phase;
}.

Record system : Type := {
  sys_world : world;
  sys_handlers : list handler;
}.

Inductive move : Type :=
| Arrive (rq : request)
| Poll (i : nat)
| Claim (i : nat)
| Turn (i : nat)
| PodEvent (i : nat) (o : obj) (listed : error + list Pod)
| Disconnect (i : nat)
| Schedule (order : list nat).

Section WithTransformer.

Variable ToKubePodSchemas : nat → list Pod → error + list KubePodSchema.

Definition put (i : nat) (a : activation) (ph : phase) (w : world) (s : system)
  : system :=
  {| sys_world := w;
     sys_handlers := <[i := {| h_act := a; h_phase := ph |}]> (sys_handlers s) |}.

Definition run (m : move) (s : system) : system :=
  let w := sys_world s in
  match m with
  | Arrive rq =>
      match WsPods_open ToKubePodSchemas rq w with
      | (Accepted a, w') =>
          {| sys_world := w';
             sys_handlers := sys_handlers s ++ [{| h_act := a; h_phase := Waiting |}] |}
      | (Returned _, w') =>
          {| sys_world := w'; sys_handlers := sys_handlers s |}
      end
  | Poll i =>
      match sys_handlers s !! i with
      | Some {| h_act := a; h_phase := Waiting |} =>
          match wait_iter a w with
          | WaitReturn =>
              let '(a', w') := WsPods_return_waiting a w in put i a' Gone w' s
          | WaitTick => s
          | WaitBreak => put i a Claiming w s
          end
      | _ => s
      end
  | Claim i =>
      match sys_handlers s !! i with
      | Some {| h_act := a; h_phase := Claiming |} =>
          put i a Managing (register a (claim_manager a w)) s
      | _ => s
      end
  | Turn i =>
      match sys_handlers s !! i with
      | Some {| h_act := a; h_phase := Managing |} =>
          match manager_turn a w with
          | Some (a', w') => put i a' Gone w' s
          | None => s
          end
      | _ => s
      end
  | PodEvent i o listed =>
      match sys_handlers s !! i with
      | Some {| h_act := a; h_phase := ph |} =>
          if bool_decide (a_id a ∈ informer w) then
            let '(a', w') := AddFunc ToKubePodSchemas o listed a w in
            put i a' ph w' s
          else s
      | None => s
      end
  | Disconnect i =>
      match sys_handlers s !! i with
      | Some {| h_act := a; h_phase := ph |} =>
          put i (cancel a) ph (peer_gone (conn a) w) s
      | None => s
      end
  | Schedule order =>
      {| sys_world := set_schedules (schedules w ++ [order]) w;
         sys_handlers := sys_handlers s |}
  end.

Definition run_all (ms : list move) (s : system) : system :=
  foldl (λ s m, run m s) s ms.

End WithTransformer.

(** The handlers that hold the manager role of a deployment. *)
Definition managers (key : string) (s : system) : list handler :=
  filter (λ h, h_phase h = Managing ∧ cachedKey (h_act h) = key) (sys_handlers s).

Definition start : system := {| sys_world := empty_world; sys_handlers := [] |}.

End Group.

(** ** Sample data for the runs below *)

Module Sample.

Definition transform (pods : list Pod) : error + list KubePodSchema :=
  inr ((λ p, {| ps_name := pod_name p; ps_phase := pod_phase p |}) <$> pods).

Definition transform_in (cluster : nat) (pods : list Pod)
  : error + list KubePodSchema := transform pods.

Definition bento : Deployment := {| ID := 7; Name := "bento" |}.

Definition pod (name phase : string) : Pod :=
  {| pod_name := name;
     pod_labels := {[ Deployment.KubeLabelYataiBentoDeployment := "bento" ]};
     pod_phase := phase |}.

Definition schema (name phase : string) : KubePodSchema :=
  {| ps_name := name; ps_phase := phase |}.

(** A deployment-stream request that passes every check. *)
Definition request (id : nat) (c : sock) (pods : list Pod) : Deployment.request :=
  {| Deployment.rq_id := id; Deployment.rq_Upgrade := inr c;
     Deployment.rq_GetDeployment := inr bento; Deployment.rq_canView := None;
     Deployment.rq_GetCluster := inr 1; Deployment.rq_GetPodInformer := None;
     Deployment.rq_ListPods := inr pods |}.

(** The activation of a handler of [bento] on the socket [c]. *)
Definition activation (id : nat) (c : sock) (p : ptr) (v : list KubePodSchema)
  : Deployment.activation :=
  {| Deployment.a_id := id; Deployment.conn := c; Deployment.connW := p;
     Deployment.deployment := bento; Deployment.clusterID := 1;
     Deployment.podSchemas := v; Deployment.failedCount := 0;
     Deployment.err := None; Deployment.pollingDone := false |}.

(** A cluster-stream request; the selector matches every pod. *)
Definition cluster_request (id : nat) (c : sock) (pods : list Pod) : Cluster.request :=
  {| Cluster.rq_id := id; Cluster.rq_Upgrade := inr c;
     Cluster.rq_GetCluster := None; Cluster.rq_canView := None;
     Cluster.rq_Parse := inr (λ _, true); Cluster.rq_GetPodInformer := None;
     Cluster.rq_ListPods := inr pods |}.

Definition cluster_activation (id : nat) (c : sock) (n : Z) : Cluster.activation :=
  {| Cluster.a_id := id; Cluster.conn := c; Cluster.selector := λ _, true;
     Cluster.failedCount := n; Cluster.pollingDone := false |}.

(** Two sessions of [bento] admitted one after the other while it has
    the single pod [p1], pending. *)
Definition two_sessions : world :=
  let pods := [pod "p1" "Pending"] in
  let w1 := (Deployment.WsPods_open transform_in (request 0 100 pods) empty_world).2 in
  (Deployment.WsPods_open transform_in (request 1 101 pods) w1).2.

End Sample.

(** ** Tables and handlers over whole runs *)

Module Tables.

(** Every table lists each of its wrappers once, and every pointer of a
    table has its wrapper on the heap. *)
Definition tables_wf (w : world) : Prop :=
  ∀ key l, deploymentPodsWsConns w !! key = Some l →
    NoDup l ∧ ∀ p, p ∈ l → is_Some (heap w !! p).

(** A handler that has returned has cancelled its [pollingCtx]. *)
Definition gone_cancelled (s : Group.system) : Prop :=
  ∀ i h, Group.sys_handlers s !! i = Some h → Group.h_phase h = Group.Gone →
    Deployment.pollingDone (Group.h_act h) = true.

End Tables.

(** ** The cluster stream over many sweeps *)

Module ClusterRuns.

Section WithTransformer.

Variable ToKubePodSchemas : list Pod → error + list KubePodSchema.

(** The informer calls [send] once per answer of the lister. *)
Definition sweeps (ls : list (error + list Pod)) (a : Cluster.activation)
    (w : world) : Cluster.activation * world :=
  foldl (λ aw l, Cluster.send ToKubePodSchemas l aw.1 aw.2) (a, w) ls.

(** The sweep over the answer [l] ends in an error: the listing, the
    transformation or the write fails. *)
Definition fails (a : Cluster.activation) (w : world) (l : error + list Pod)
  : bool :=
  match l with
  | inl _ => true
  | inr pods =>
      match ToKubePodSchemas pods with
      | inl _ => true
      | inr _ => bool_decide (Cluster.conn a ∈ dead w)
      end
  end.

End WithTransformer.

End ClusterRuns.

(** ** deployment.go: the filter of a deployment listing *)

Module ListQuery.

(** What a call can end in: a value, a Go error, or a run-time panic. *)
Inductive outcome (A : Type) : Type :=
| Ok (x : A)
| Err (e : error)
| Panic.

Arguments Ok {A} x.
Arguments Err {A} e.
Arguments Panic {A}.

Definition bind {A B} (m : outcome A) (f : A → outcome B) : outcome B :=
  match m with
  | Ok x => f x
  | Err e => Err e
  | Panic => Panic
  end.

Definition of_sum {A} (r : error + A) : outcome A :=
  match r with
  | inl e => Err e
  | inr x => Ok x
  end.

(** [services.ListDeploymentOption], by the fields the controller reads or
    writes; a nil pointer is [None]. *)
Record ListDeploymentOption : Type := {
  Start : option nat;
  Count : option nat;
  Search : option string;
  ClusterId : option nat;
  OrganizationId : option nat;
  KeywordFieldNames : option (list string);
  Keywords : option (list string);
  BentoIds : option (list nat);
  ClusterIds : option (list nat);
  CreatorIds : option (list nat);
  LastUpdaterIds : option (list nat);
  Statuses : option (list string);
  Order : option string;
}.

Definition set_KeywordFieldNames (x : list string) (o : ListDeploymentOption) :=
  {| Start := Start o; Count := Count o; Search := Search o;
     ClusterId := ClusterId o; OrganizationId := OrganizationId o;
     KeywordFieldNames := Some x; Keywords := Keywords o; BentoIds := BentoIds o;
     ClusterIds := ClusterIds o; CreatorIds := CreatorIds o;
     LastUpdaterIds := LastUpdaterIds o; Statuses := Statuses o; Order := Order o |}.

Definition set_Keywords (x : list string) (o : ListDeploymentOption) :=
  {| Start := Start o; Count := Count o; Search := Search o;
     ClusterId := ClusterId o; OrganizationId := OrganizationId o;
     KeywordFieldNames := KeywordFieldNames o; Keywords := Some x;
     BentoIds := BentoIds o; ClusterIds := ClusterIds o; CreatorIds := CreatorIds o;
     LastUpdaterIds := LastUpdaterIds o; Statuses := Statuses o; Order := Order o |}.

Definition set_BentoIds (x : list nat) (o : ListDeploymentOption) :=
  {| Start := Start o; Count := Count o; Search := Search o;
     ClusterId := ClusterId o; OrganizationId := OrganizationId o;
     KeywordFieldNames := KeywordFieldNames o; Keywords := Keywords o;
     BentoIds := Some x; ClusterIds := ClusterIds o; CreatorIds := CreatorIds o;
     LastUpdaterIds := LastUpdaterIds o; Statuses := Statuses o; Order := Order o |}.

Definition set_ClusterIds (x : list nat) (o : ListDeploymentOption) :=
  {| Start := Start o; Count := Count o; Search := Search o;
     ClusterId := ClusterId o; OrganizationId := OrganizationId o;
     KeywordFieldNames := KeywordFieldNames o; Keywords := Keywords o;
     BentoIds := BentoIds o; ClusterIds := Some x; CreatorIds := CreatorIds o;
     LastUpdaterIds := LastUpdaterIds o; Statuses := Statuses o; Order := Order o |}.

Definition set_CreatorIds (x : list nat) (o : ListDeploymentOption) :=
  {| Start := Start o; Count := Count o; Search := Search o;
     ClusterId := ClusterId o; OrganizationId := OrganizationId o;
     KeywordFieldNames := KeywordFieldNames o; Keywords := Keywords o;
     BentoIds := BentoIds o; ClusterIds := ClusterIds o; CreatorIds := Some x;
     LastUpdaterIds := LastUpdaterIds o; Statuses := Statuses o; Order := Order o |}.

Definition set_LastUpdaterIds (x : list nat) (o : ListDeploymentOption) :=
  {| Start := Start o; Count := Count o; Search := Search o;
     ClusterId := ClusterId o; OrganizationId := OrganizationId o;
     KeywordFieldNames := KeywordFieldNames o; Keywords := Keywords o;
     BentoIds := BentoIds o; ClusterIds := ClusterIds o; CreatorIds := CreatorIds o;
     LastUpdaterIds := Some x; Statuses := Statuses o; Order := Order o |}.

Definition set_Statuses (x : list string) (o : ListDeploymentOption) :=
  {| Start := Start o; Count := Count o; Search := Search o;
     ClusterId := ClusterId o; OrganizationId := OrganizationId o;
     KeywordFieldNames := KeywordFieldNames o; Keywords := Keywords o;
     BentoIds := BentoIds o; ClusterIds := ClusterIds o; CreatorIds := CreatorIds o;
     LastUpdaterIds := LastUpdaterIds o; Statuses := Some x; Order := Order o |}.

Definition set_Order (x : string) (o : ListDeploymentOption) :=
  {| Start := Start o; Count := Count o; Search := Search o;
     ClusterId := ClusterId o; OrganizationId := OrganizationId o;
     KeywordFieldNames := KeywordFieldNames o; Keywords := Keywords o;
     BentoIds := BentoIds o; ClusterIds := ClusterIds o; CreatorIds := CreatorIds o;
     LastUpdaterIds := LastUpdaterIds o; Statuses := Statuses o; Order := Some x |}.

(** [strings.ToUpper], on the ASCII letters; it is applied to ["desc"] and
    ["asc"] only. *)
Definition upper_ascii (c : Ascii.ascii) : Ascii.ascii :=
  let n := Ascii.nat_of_ascii c in
  if bool_decide (97 ≤ n ≤ 122)%nat then Ascii.ascii_of_nat (n - 32) else c.

Fixpoint ToUpper (s : string) : string :=
  match s with
  | EmptyString => EmptyString
  | String c s' => String (upper_ascii c) (ToUpper s')
  end.

(** [errors.Wrapf(err, format, name)] with the name filled in. *)
Definition Wrapf (e : error) (msg name : string) : error := Wrap e (msg +:+ name).

(** A loop that calls [f] on each element, returns at the first error and
    appends what the calls answer. *)
Fixpoint gather {A} (f : A → error + list nat) (l : list A) : error + list nat :=
  match l with
  | [] => inr []
  | x :: l' =>
      match f x with
      | inl e => inl e
      | inr ids =>
          match gather f l' with
          | inl e => inl e
          | inr rest => inr (ids ++ rest)
          end
      end
  end.

Section WithServices.

(** [schemasv1.KeyQIn] and [schemasv1.KeyQKeywords], constants of another
    package. *)
Variable KeyQIn KeyQKeywords : string.

(** [xstrings.Partition] and [xstrings.LastPartition]: head, match, tail. *)
Variable Partition LastPartition : string → string → string * string * string.

(** The order in which [range] walks the map of tags. *)
Variable range_tags : gmap string (list string) → list (string * list string).

(** The services, for the organization and the database the request sees:
    [BentoRepositoryService.GetByName] answers the repository's ID,
    [BentoService.List] the IDs of the bentos of a repository (of the given
    versions, when some are asked for), [ClusterService.List] the IDs of the
    clusters of the given names, [UserService.ListByNames] those of the
    users; [processUserNamesFromQ] is a function of another file. *)
Variable GetByName : string → error + nat.
Variable ListBentos : nat → option (list string) → error + list nat.
Variable ListClusters : list string → error + list nat.
Variable processUserNamesFromQ : list string → error + list string.
Variable ListByNames : list string → error + list nat.

(** Lines 461-473 and 488-502: one repository, all its bentos or those of
    the versions asked for. *)
Definition bentos_of (versions : option (list string)) (bentoRepositoryName : string)
  : error + list nat :=
  match GetByName bentoRepositoryName with
  | inl e => inl (Wrapf e "get bento repository: " bentoRepositoryName)
  | inr repository =>
      match ListBentos repository versions with
      | inl e => inl (Wrapf e "list bentos: " bentoRepositoryName)
      | inr bentos_ => inr bentos_
      end
  end.

(** Lines 482-486 *)
Definition bentoVersionGroup (bentoTags : list string) : gmap string (list string) :=
  foldl (λ group bentoTag,
           let '(bentoRepositoryName, _, version) := Partition bentoTag ":" in
           <[bentoRepositoryName :=
               default [] (group !! bentoRepositoryName) ++ [version]]> group)
        ∅ bentoTags.

(** Lines 522-536 and 537-551 *)
Definition user_ids (v : list string) : error + list nat :=
  match processUserNamesFromQ v with
  | inl e => inl e
  | inr userNames => ListByNames userNames
  end.

(** Lines 559-577: the [ORDER BY] of the listing; [None] where the loop
    [continue]s. *)
Definition sort_order (v : list string) : outcome (option string) :=
  match v with
  | [] => Panic
  | first :: _ =>
      let '(fieldName, _, order) := LastPartition first "-" in
      if negb (bool_decide (fieldName ∈ ["created_at"; "updated_at"])) then Ok None
      else if negb (bool_decide (order ∈ ["desc"; "asc"])) then Ok None
      else
        let fieldName :=
          if decide (fieldName = "updated_at")
          then "deployment_revision.created_at" else fieldName in
        Ok (Some (fieldName +:+ " " +:+ ToUpper order))
  end.

(** The body of the loop of [fillListDeploymentOption] for one entry of
    the query: nine tests on the key, one after the other. *)
Definition fill_entry (k : string) (v : list string) (listOpt : ListDeploymentOption)
  : outcome ListDeploymentOption :=
  bind (if decide (k = KeyQIn)
        then Ok (set_KeywordFieldNames
                   (filter (λ fieldName, fieldName ∈ ["name"; "description"]) v) listOpt)
        else Ok listOpt) (λ listOpt,
  bind (if decide (k = KeyQKeywords)
        then Ok (set_Keywords v listOpt) else Ok listOpt) (λ listOpt,
  bind (if decide (k = "bento_repository")
        then bind (of_sum (gather (bentos_of None) v))
                  (λ bentoIds, Ok (set_BentoIds bentoIds listOpt))
        else Ok listOpt) (λ listOpt,
  bind (if decide (k = "bento")
        then bind (of_sum (gather (λ g, bentos_of (Some g.2) g.1)
                                  (range_tags (bentoVersionGroup v))))
                  (λ bentoIds, Ok (set_BentoIds bentoIds listOpt))
        else Ok listOpt) (λ listOpt,
  bind (if decide (k = "cluster")
        then bind (of_sum (ListClusters v))
                  (λ clusterIds, Ok (set_ClusterIds clusterIds listOpt))
        else Ok listOpt) (λ listOpt,
  bind (if decide (k = "creator")
        then bind (of_sum (user_ids v))
                  (λ userIds, Ok (set_CreatorIds userIds listOpt))
        else Ok listOpt) (λ listOpt,
  bind (if decide (k = "last_updater")
        then bind (of_sum (user_ids v))
                  (λ userIds, Ok (set_LastUpdaterIds userIds listOpt))
        else Ok listOpt) (λ listOpt,
  bind (if decide (k = "status")
        then Ok (set_Statuses v listOpt) else Ok listOpt) (λ listOpt,
  if decide (k = "sort")
  then bind (sort_order v)
            (λ o, match o with
                  | Some order => Ok (set_Order order listOpt)
                  | None => Ok listOpt
                  end)
  else Ok listOpt)))))))).

(** [fillListDeploymentOption]: [queryMap] comes as the list of its
    entries in the order [range] happens to walk them; its values are the
    string slices the type assertions expect. *)
Fixpoint fillListDeploymentOption (queryMap : list (string * list string))
    (listOpt : ListDeploymentOption) : outcome ListDeploymentOption :=
  match queryMap with
  | [] => Ok listOpt
  | (k, v) :: rest =>
      bind (fill_entry k v listOpt) (fillListDeploymentOption rest)
  end.

End WithServices.

(** An option with every pointer nil. *)
Definition blank : ListDeploymentOption :=
  {| Start := None; Count := None; Search := None; ClusterId := None;
     OrganizationId := None; KeywordFieldNames := None; Keywords := None;
     BentoIds := None; ClusterIds := None; CreatorIds := None;
     LastUpdaterIds := None; Statuses := None; Order := None |}.

(** [u] laid over [o]: the pointers [u] has set, and those of [o] where
    [u] has none. *)
Definition over (u o : ListDeploymentOption) : ListDeploymentOption :=
  {| Start := Start u ∪ Start o; Count := Count u ∪ Count o;
     Search := Search u ∪ Search o; ClusterId := ClusterId u ∪ ClusterId o;
     OrganizationId := OrganizationId u ∪ OrganizationId o;
     KeywordFieldNames := KeywordFieldNames u ∪ KeywordFieldNames o;
     Keywords := Keywords u ∪ Keywords o; BentoIds := BentoIds u ∪ BentoIds o;
     ClusterIds := ClusterIds u ∪ ClusterIds o;
     CreatorIds := CreatorIds u ∪ CreatorIds o;
     LastUpdaterIds := LastUpdaterIds u ∪ LastUpdaterIds o;
     Statuses := Statuses u ∪ Statuses o; Order := Order u ∪ Order o |}.

Definition via (o : ListDeploymentOption) (r : outcome ListDeploymentOption)
  : outcome ListDeploymentOption :=
  match r with
  | Ok u => Ok (over u o)
  | Err e => Err e
  | Panic => Panic
  end.

(** What a step does to an option is what it does to the blank one, laid
    over the option. *)
Definition uniform (b : ListDeploymentOption → outcome ListDeploymentOption) : Prop :=
  ∀ o, b o = via o (b blank).

(** The four [ORDER BY] clauses the listing can ask for. *)
Definition orders : list string :=
  ["created_at DESC"; "created_at ASC";
   "deployment_revision.created_at DESC"; "deployment_revision.created_at ASC"].

(** What a query whose keys satisfy [has] may have done to an option: the
    paging and the scope are as they were, and each of the other pointers is
    as it was unless the query has the key that sets it. *)
Definition changes_only (KeyQIn KeyQKeywords : string) (has : string → Prop)
    (o o' : ListDeploymentOption) : Prop :=
  (Start o' = Start o ∧ Count o' = Count o ∧ Search o' = Search o ∧
   ClusterId o' = ClusterId o ∧ OrganizationId o' = OrganizationId o) ∧
  (KeywordFieldNames o' = KeywordFieldNames o ∨
   has KeyQIn ∧ ∃ l, KeywordFieldNames o' = Some l ∧
                     Forall (λ f, f ∈ ["name"; "description"]) l) ∧
  (Keywords o' = Keywords o ∨ has KeyQKeywords ∧ is_Some (Keywords o')) ∧
  (BentoIds o' = BentoIds o ∨
   (has "bento_repository" ∨ has "bento") ∧ is_Some (BentoIds o')) ∧
  (ClusterIds o' = ClusterIds o ∨ has "cluster" ∧ is_Some (ClusterIds o')) ∧
  (CreatorIds o' = CreatorIds o ∨ has "creator" ∧ is_Some (CreatorIds o')) ∧
  (LastUpdaterIds o' = LastUpdaterIds o ∨
   has "last_updater" ∧ is_Some (LastUpdaterIds o')) ∧
  (Statuses o' = Statuses o ∨ has "status" ∧ is_Some (Statuses o')) ∧
  (Order o' = Order o ∨ has "sort" ∧ ∃ s, Order o' = Some s ∧ s ∈ orders).

(** An implementation of the two partitions for a separator of one
    character: [Partition] cuts at its first occurrence and answers the
    whole string as head when there is none, [LastPartition] cuts at its
    last occurrence and answers the whole string as tail when there is
    none. *)
Fixpoint cut_first (c : Ascii.ascii) (s : string) : option (string * string) :=
  match s with
  | EmptyString => None
  | String x s' =>
      if decide (x = c) then Some (EmptyString, s')
      else match cut_first c s' with
           | Some (h, t) => Some (String x h, t)
           | None => None
           end
  end.

Fixpoint cut_last (c : Ascii.ascii) (s : string) : option (string * string) :=
  match s with
  | EmptyString => None
  | String x s' =>
      match cut_last c s' with
      | Some (h, t) => Some (String x h, t)
      | None => if decide (x = c) then Some (EmptyString, s') else None
      end
  end.

Definition sep_char (sep : string) : Ascii.ascii :=
  match sep with
  | String c _ => c
  | EmptyString => Ascii.zero
  end.

Definition sample_Partition (str sep : string) : string * string * string :=
  match cut_first (sep_char sep) str with
  | Some (h, t) => (h, sep, t)
  | None => (str, "", "")
  end.

Definition sample_LastPartition (str sep : string) : string * string * string :=
  match cut_last (sep_char sep) str with
  | Some (h, t) => (h, sep, t)
  | None => ("", "", str)
  end.

(** A small database for the runs below: two bento repositories with two
    versions each; clusters and users are numbered by the length of their
    names. *)
Definition sample_GetByName (name : string) : error + nat :=
  if decide (name = "iris") then inr 1
  else if decide (name = "mnist") then inr 2
  else inl "record not found".

Definition sample_ListBentos (repository : nat) (versions : option (list string))
  : error + list nat :=
  match versions with
  | None => inr [10 * repository + 1; 10 * repository + 2]
  | Some vs =>
      inr ((λ v, if decide (v = "1.0") then 10 * repository + 1
                 else 10 * repository + 2) <$> vs)
  end.

Definition sample_ids (names : list string) : error + list nat :=
  inr (String.length <$> names).

Definition sample_fill :=
  fillListDeploymentOption "in" "keywords" sample_Partition sample_LastPartition
    map_to_list sample_GetByName sample_ListBentos sample_ids inr sample_ids.

Definition sample_entry :=
  fill_entry "in" "keywords" sample_Partition sample_LastPartition
    map_to_list sample_GetByName sample_ListBentos sample_ids inr sample_ids.

(** A query and the filter of a caller scoped to cluster 3. *)
Definition sample_query : list (string * list string) :=
  [("sort", ["updated_at-desc"]); ("in", ["name"; "id"]);
   ("bento", ["iris:1.0"; "mnist:2.0"]); ("status", ["running"])].

Definition sample_option : ListDeploymentOption :=
  {| Start := Some 0; Count := Some 20; Search := None; ClusterId := Some 3;
     OrganizationId := None; KeywordFieldNames := None; Keywords := None;
     BentoIds := None; ClusterIds := None; CreatorIds := None;
     LastUpdaterIds := None; Statuses := None; Order := None |}.

End ListQuery.

(** ** deployment.go and cluster.go: the request handlers *)

Module Handlers.

(** Models, schemas and options, by the fields the controllers read or
    set; a nil pointer is [None]. *)
Record User : Type := {
  UserID : nat;
  ApiToken : option string;
}.

Record Organization : Type := { OrganizationID : nat }.

Record Cluster : Type := { ClusterID : nat }.

Record BentoRepository : Type := {
  RepositoryID : nat;
  RepositoryName : string;
}.

Record Bento : Type := {
  BentoID : nat;
  Version : string;
}.

Record DeploymentRevision : Type := { RevisionID : nat }.

(** [modelschemas.DeploymentTargetConfig]: the two fields the controller
    touches, and the rest of it, which it passes on. *)
Record DeploymentTargetConfig : Type := {
  KubeResourceUid : string;
  KubeResourceVersion : string;
  Resources : string;
}.

(** [&modelschemas.DeploymentTargetConfig{}] *)
Definition empty_config : DeploymentTargetConfig :=
  {| KubeResourceUid := ""; KubeResourceVersion := ""; Resources := "" |}.

Record DeploymentTarget : Type := {
  TargetID : nat;
  BentoId : nat;
  Config : option DeploymentTargetConfig;
}.

Definition with_Config (c : DeploymentTargetConfig) (t : DeploymentTarget)
  : DeploymentTarget :=
  {| TargetID := TargetID t; BentoId := BentoId t; Config := Some c |}.

(** [schemasv1.CreateDeploymentTargetSchema] *)
Record CreateDeploymentTargetSchema : Type := {
  Target_BentoRepository : string;
  Target_Bento : string;
  Target_Type : string;
  Target_CanaryRules : option string;
  Target_Config : option DeploymentTargetConfig;
}.

Record UpdateDeploymentSchema : Type := {
  Targets : list CreateDeploymentTargetSchema;
  DoNotDeploy : bool;
  Description : option string;
  Labels : option (list (string * string));
}.

Record GetClusterSchema : Type := {
  OrgName : string;
  ClusterName : string;
}.

Record GetDeploymentSchema : Type := {
  Deployment_Cluster : GetClusterSchema;
  DeploymentName : string;
  KubeNamespace : string;
}.

(** [CreateDeploymentSchema] of the controller: the request body and the
    path of the cluster. *)
Record CreateDeploymentSchema : Type := {
  Create_Name : string;
  Create_KubeNamespace : string;
  Create_Update : UpdateDeploymentSchema;
  Create_Cluster : GetClusterSchema;
}.

(** [UpdateDeploymentSchema] of the controller *)
Record UpdateSchema : Type := {
  Update_Update : UpdateDeploymentSchema;
  Update_Deployment : GetDeploymentSchema;
}.

Record CreateDeploymentOption : Type := {
  Deployment_CreatorId : nat;
  Deployment_ClusterId : nat;
  Deployment_Name : string;
  Deployment_Description : string;
  Deployment_Labels : list (string * string);
  Deployment_KubeNamespace : string;
}.

Inductive EventStatus : Type := EventStatusSuccess | EventStatusFailed.

(** [services.CreateEventOption]; the resource type is that of a
    deployment throughout. *)
Record CreateEventOption : Type := {
  Event_CreatorId : nat;
  Event_ApiTokenName : string;
  Event_OrganizationId : nat;
  Event_ResourceId : nat;
  Event_Status : EventStatus;
  Event_OperationName : string;
}.

Record CreateDeploymentTargetOption : Type := {
  New_CreatorId : nat;
  New_DeploymentId : nat;
  New_DeploymentRevisionId : nat;
  New_BentoId : nat;
  New_Type : string;
  New_CanaryRules : option string;
  New_Config : option DeploymentTargetConfig;
}.

(** [*schemasv1.DeploymentSchema], which the controller only passes on. *)
Definition DeploymentSchema : Type := string.

(** The event types of [tracking] the controller uses. *)
Inductive YataiDeploymentEvent : Type :=
| YataiDeploymentCreate
| YataiDeploymentUpdate
| YataiDeploymentTerminate
| YataiDeploymentDelete.

(** The calls a handler makes into [services], [transformersv1] and
    [tracking], with the arguments that vary.  [df] is the function
    [StartTransaction] hands back; the listing of revisions asks for the
    active ones, the update of a revision makes it inactive. *)
Inductive request : Type :=
| GetCurrentUser
| GetOrganization (orgName : string)
| ClusterService_GetByName (organizationId : nat) (name : string)
| ClusterService_GetAssociatedCluster (deployment : Deployment)
| MemberService_CanView (userId clusterId : nat)
| MemberService_CanUpdate (userId clusterId : nat)
| MemberService_CanOperate (userId clusterId : nat)
| DeploymentService_GetByName (clusterId : nat) (kubeNamespace name : string)
| StartTransaction
| df (err : option error)
| DeploymentService_Create (opt : CreateDeploymentOption)
| DeploymentService_Update (deployment : Deployment) (description : option string)
    (labels : option (list (string * string)))
| DeploymentService_Terminate (deployment : Deployment)
| DeploymentService_Delete (deployment : Deployment)
| EventService_Create (opt : CreateEventOption)
| BentoRepositoryService_List (organizationId : nat) (names : list string)
| BentoService_List (bentoRepositoryId : nat) (versions : list string)
| DeploymentRevisionService_List (deploymentId : nat)
| DeploymentRevisionService_Create (creatorId deploymentId : nat)
| DeploymentRevisionService_Deploy (deploymentRevision : DeploymentRevision)
    (deploymentTargets : list DeploymentTarget)
| DeploymentRevisionService_Update (deploymentRevision : DeploymentRevision)
| DeploymentTargetService_List (deploymentRevisionId : nat)
| DeploymentTargetService_Update (deploymentTarget : DeploymentTarget)
    (config : DeploymentTargetConfig)
| DeploymentTargetService_Create (opt : CreateDeploymentTargetOption)
| ToDeploymentSchema (deployment : Deployment)
| TrackDeploymentEvent (deploymentSchema : option DeploymentSchema)
    (kind : YataiDeploymentEvent).

(** What a call answers when it does not fail. *)
Definition answer (c : request) : Type :=
  match c with
  | GetCurrentUser => User
  | GetOrganization _ => Organization
  | ClusterService_GetByName _ _ => Cluster
  | ClusterService_GetAssociatedCluster _ => Cluster
  | DeploymentService_GetByName _ _ _ => Deployment
  | DeploymentService_Create _ => Deployment
  | DeploymentService_Update _ _ _ => Deployment
  | DeploymentService_Terminate _ => Deployment
  | DeploymentService_Delete _ => Deployment
  | BentoRepositoryService_List _ _ => list BentoRepository
  | BentoService_List _ _ => list Bento
  | DeploymentRevisionService_List _ => list DeploymentRevision
  | DeploymentRevisionService_Create _ _ => DeploymentRevision
  | DeploymentTargetService_List _ => list DeploymentTarget
  | DeploymentTargetService_Update _ _ => DeploymentTarget
  | DeploymentTargetService_Create _ => DeploymentTarget
  | ToDeploymentSchema _ => DeploymentSchema
  | _ => unit
  end.

(** One entry of the log of a request: the call and whether it succeeded. *)
Inductive entry : Type := Did (c : request) (ok : bool).

Definition is_ok {A} (r : error + A) : bool :=
  match r with
  | inl _ => false
  | inr _ => true
  end.

(** Lines 230-246 of [doUpdate]: the names of the repositories in the
    order of their first target, the set of the names seen, and the versions
    asked of each repository. *)
Definition group_targets (targets : list CreateDeploymentTargetSchema)
  : list string * gset string * gmap string (list string) :=
  foldl (λ acc createDeploymentTargetSchema,
           let '(bentoRepositoryNames, bentoRepositoryNamesSeen,
                 bentoVersionsMapping) := acc in
           let name := Target_BentoRepository createDeploymentTargetSchema in
           let '(bentoRepositoryNames, bentoRepositoryNamesSeen) :=
             if decide (name ∈ bentoRepositoryNamesSeen)
             then (bentoRepositoryNames, bentoRepositoryNamesSeen)
             else (bentoRepositoryNames ++ [name],
                   {[name]} ∪ bentoRepositoryNamesSeen) in
           let bentoVersions := default [] (bentoVersionsMapping !! name) in
           (bentoRepositoryNames, bentoRepositoryNamesSeen,
            <[name := bentoVersions ++ [Target_Bento createDeploymentTargetSchema]]>
              bentoVersionsMapping))
        ([], ∅, ∅) targets.

(** [fmt.Sprintf("%s:%s", repository, version)] *)
Definition bento_key (repository version : string) : string :=
  repository +:+ ":" +:+ version.

(** Lines 329-334 *)
Definition clear_kube (t : CreateDeploymentTargetSchema)
  : CreateDeploymentTargetSchema :=
  {| Target_BentoRepository := Target_BentoRepository t;
     Target_Bento := Target_Bento t;
     Target_Type := Target_Type t;
     Target_CanaryRules := Target_CanaryRules t;
     Target_Config :=
       (λ c, {| KubeResourceUid := ""; KubeResourceVersion := "";
                Resources := Resources c |}) <$> Target_Config t |}.

Section WithServices.

(** The database and whatever else the services keep. *)
Context {db : Type}.

(** The services: what a call answers in a state, and the state after it. *)
Variable serve : ∀ c : request, db → (error + answer c) * db.

(** [strings.TrimSpace] and [ClusterService.GetDeploymentKubeNamespace] *)
Variable TrimSpace : string → string.
Variable GetDeploymentKubeNamespace : Cluster → string.

(** A piece of a handler: from a state to a result or an error, the state
    after it, and the calls made. *)
Definition M (A : Type) : Type := db → (error + A) * db * list entry.

Definition ret {A} (x : A) : M A := λ d, (inr x, d, []).

Definition throw {A} (e : error) : M A := λ d, (inl e, d, []).

(** [x, err := m; if err != nil { return nil, err }; k x] *)
Definition bind {A B} (m : M A) (k : A → M B) : M B :=
  λ d,
    match m d with
    | (inl e, d', l) => (inl e, d', l)
    | (inr x, d', l) =>
        let '(r, d'', l') := k x d' in (r, d'', l ++ l')
    end.

(** [if err != nil { return nil, errors.Wrap(err, msg) }] *)
Definition wrapped {A} (msg : string) (m : M A) : M A :=
  λ d,
    match m d with
    | (inl e, d', l) => (inl (Wrap e msg), d', l)
    | r => r
    end.

Definition ask (c : request) : M (answer c) :=
  λ d, let '(r, d') := serve c d in (r, d', [Did c (is_ok r)]).

(** A call whose outcome is dropped or only logged. *)
Definition tell (c : request) (d : db) : db * list entry :=
  let '(r, d') := serve c d in (d', [Did c (is_ok r)]).

Notation "x ← m ; k" := (bind m (λ x, k))
  (at level 20, m at level 100, k at level 200, only parsing).

(** cluster.go, [GetClusterSchema.GetCluster] *)
Definition GetCluster (s : GetClusterSchema) : M Cluster :=
  org ← wrapped ("get organization " +:+ OrgName s) (ask (GetOrganization (OrgName s)));
  wrapped ("get cluster " +:+ ClusterName s)
    (ask (ClusterService_GetByName (OrganizationID org) (ClusterName s))).

(** cluster.go, [clusterController.canView], [canUpdate], [canOperate] *)
Definition Cluster_canView (cluster : Cluster) : M unit :=
  user ← ask GetCurrentUser;
  ask (MemberService_CanView (UserID user) (ClusterID cluster)).

Definition Cluster_canUpdate (cluster : Cluster) : M unit :=
  user ← ask GetCurrentUser;
  ask (MemberService_CanUpdate (UserID user) (ClusterID cluster)).

Definition Cluster_canOperate (cluster : Cluster) : M unit :=
  user ← ask GetCurrentUser;
  ask (MemberService_CanOperate (UserID user) (ClusterID cluster)).

(** deployment.go, [GetDeploymentSchema.GetDeployment] *)
Definition GetDeployment (s : GetDeploymentSchema) : M Deployment :=
  cluster ← wrapped "get cluster" (GetCluster (Deployment_Cluster s));
  wrapped ("get deployment " +:+ DeploymentName s)
    (ask (DeploymentService_GetByName (ClusterID cluster) (KubeNamespace s)
            (DeploymentName s))).

(** deployment.go, [deploymentController.canView], [canUpdate], [canOperate] *)
Definition canView (deployment : Deployment) : M unit :=
  cluster ← wrapped "get associated cluster"
              (ask (ClusterService_GetAssociatedCluster deployment));
  Cluster_canView cluster.

Definition canUpdate (deployment : Deployment) : M unit :=
  cluster ← wrapped "get associated cluster"
              (ask (ClusterService_GetAssociatedCluster deployment));
  Cluster_canUpdate cluster.

Definition canOperate (deployment : Deployment) : M unit :=
  cluster ← wrapped "get associated cluster"
              (ask (ClusterService_GetAssociatedCluster deployment));
  Cluster_canOperate cluster.

(** Lines 260-273 of [doUpdate]: the bentos of the listed repositories
    under the key [repository:version]. *)
Fixpoint list_bentos (bentoVersionsMapping : gmap string (list string))
    (bentoRepositories : list BentoRepository) (bentosMapping : gmap string Bento)
  : M (gmap string Bento) :=
  match bentoRepositories with
  | [] => ret bentosMapping
  | bentoRepository :: rest =>
      let versions :=
        default [] (bentoVersionsMapping !! RepositoryName bentoRepository) in
      bentos ← ask (BentoService_List (RepositoryID bentoRepository) versions);
      list_bentos bentoVersionsMapping rest
        (foldl (λ m bento,
                  <[bento_key (RepositoryName bentoRepository) (Version bento) := bento]> m)
               bentosMapping bentos)
  end.

(** The bento a target of the request names, or the error of lines 295-297
    and 349-351. *)
Definition find_bento (bentosMapping : gmap string Bento)
    (t : CreateDeploymentTargetSchema) : M Bento :=
  match bentosMapping !! bento_key (Target_BentoRepository t) (Target_Bento t) with
  | None =>
      throw ("can't find bento: "
             +:+ bento_key (Target_BentoRepository t) (Target_Bento t))
  | Some bento => ret bento
  end.

(** Lines 293-325: one target of an active revision against the targets of
    the request.  [Some r] is [return r] out of [doUpdate]; [None] is the
    end of the loop. *)
Fixpoint adopt_target (deployment : Deployment) (bentosMapping : gmap string Bento)
    (deploymentTarget : DeploymentTarget)
    (targets : list CreateDeploymentTargetSchema) : M (option DeploymentSchema) :=
  match targets with
  | [] => ret None
  | createDeploymentTargetSchema :: rest =>
      bento ← find_bento bentosMapping createDeploymentTargetSchema;
      if negb (bool_decide (BentoId deploymentTarget = BentoID bento))
      then adopt_target deployment bentosMapping deploymentTarget rest
      else
        let config := default empty_config (Config deploymentTarget) in
        let deploymentTarget := with_Config config deploymentTarget in
        match Target_Config createDeploymentTargetSchema with
        | None => adopt_target deployment bentosMapping deploymentTarget rest
        | Some asked =>
            if bool_decide (KubeResourceVersion asked = "")
            then adopt_target deployment bentosMapping deploymentTarget rest
            else if negb (bool_decide (KubeResourceVersion config = ""))
                    && negb (bool_decide (KubeResourceVersion config
                                          = KubeResourceVersion asked))
            then adopt_target deployment bentosMapping deploymentTarget rest
            else
              let config :=
                {| KubeResourceUid := KubeResourceUid asked;
                   KubeResourceVersion := KubeResourceVersion asked;
                   Resources := Resources config |} in
              _ ← wrapped "update deployment target"
                    (ask (DeploymentTargetService_Update
                            (with_Config config deploymentTarget) config));
              r ← ask (ToDeploymentSchema deployment);
              ret (Some r)
        end
  end.

(** Lines 292-326 *)
Fixpoint adopt_targets (deployment : Deployment) (bentosMapping : gmap string Bento)
    (deploymentTargets : list DeploymentTarget)
    (targets : list CreateDeploymentTargetSchema) : M (option DeploymentSchema) :=
  match deploymentTargets with
  | [] => ret None
  | deploymentTarget :: rest =>
      r ← adopt_target deployment bentosMapping deploymentTarget targets;
      match r with
      | Some s => ret (Some s)
      | None => adopt_targets deployment bentosMapping rest targets
      end
  end.

(** Lines 285-327 *)
Fixpoint adopt_revisions (deployment : Deployment) (bentosMapping : gmap string Bento)
    (deploymentRevisions : list DeploymentRevision)
    (targets : list CreateDeploymentTargetSchema) : M (option DeploymentSchema) :=
  match deploymentRevisions with
  | [] => ret None
  | deploymentRevision :: rest =>
      deploymentTargets ←
        wrapped "list deployment targets"
          (ask (DeploymentTargetService_List (RevisionID deploymentRevision)));
      r ← adopt_targets deployment bentosMapping deploymentTargets targets;
      match r with
      | Some s => ret (Some s)
      | None => adopt_revisions deployment bentosMapping rest targets
      end
  end.

(** Lines 346-366 *)
Fixpoint create_targets (user : User) (deployment : Deployment)
    (deploymentRevision : DeploymentRevision) (bentosMapping : gmap string Bento)
    (targets : list CreateDeploymentTargetSchema) : M (list DeploymentTarget) :=
  match targets with
  | [] => ret []
  | createDeploymentTargetSchema :: rest =>
      bento ← find_bento bentosMapping createDeploymentTargetSchema;
      deploymentTarget ←
        wrapped "create deployment target"
          (ask (DeploymentTargetService_Create
                  {| New_CreatorId := UserID user;
                     New_DeploymentId := ID deployment;
                     New_DeploymentRevisionId := RevisionID deploymentRevision;
                     New_BentoId := BentoID bento;
                     New_Type := Target_Type createDeploymentTargetSchema;
                     New_CanaryRules := Target_CanaryRules createDeploymentTargetSchema;
                     New_Config := Target_Config createDeploymentTargetSchema |})
           : M DeploymentTarget);
      deploymentTargets ←
        create_targets user deployment deploymentRevision bentosMapping rest;
      ret (deploymentTarget :: deploymentTargets)
  end.

(** Lines 374-384 *)
Fixpoint deactivate (deploymentRevision : DeploymentRevision)
    (deploymentRevisions : list DeploymentRevision) : M unit :=
  match deploymentRevisions with
  | [] => ret tt
  | oldDeploymentRevision :: rest =>
      if bool_decide (RevisionID oldDeploymentRevision = RevisionID deploymentRevision)
      then deactivate deploymentRevision rest
      else
        _ ← wrapped "update deployment revision"
              (ask (DeploymentRevisionService_Update oldDeploymentRevision));
        deactivate deploymentRevision rest
  end.

(** Lines 337-387 of [doUpdate]: the new revision with its targets,
    deployed or put in the place of the active ones. *)
Definition new_revision (doNotDeploy : bool) (user : User) (deployment : Deployment)
    (bentosMapping : gmap string Bento)
    (deploymentRevisions : list DeploymentRevision)
    (targets : list CreateDeploymentTargetSchema) : M DeploymentSchema :=
  deploymentRevision ←
    wrapped "create deployment revision"
      (ask (DeploymentRevisionService_Create (UserID user) (ID deployment))
       : M DeploymentRevision);
  deploymentTargets ←
    create_targets user deployment deploymentRevision bentosMapping targets;
  _ ← (if negb doNotDeploy
       then wrapped "deploy deployment revision"
              (ask (DeploymentRevisionService_Deploy deploymentRevision
                      deploymentTargets))
       else deactivate deploymentRevision deploymentRevisions);
  ask (ToDeploymentSchema deployment).

(** [deploymentController.doUpdate].  The map [bentoRepositoriesMapping]
    of lines 255-258 is filled and never read. *)
Definition doUpdate (schema : UpdateDeploymentSchema) (org : Organization)
    (deployment : Deployment) : M DeploymentSchema :=
  user ← ask GetCurrentUser;
  let '(bentoRepositoryNames, _, bentoVersionsMapping) :=
    group_targets (Targets schema) in
  bentoRepositories ←
    ask (BentoRepositoryService_List (OrganizationID org) bentoRepositoryNames);
  bentosMapping ← list_bentos bentoVersionsMapping bentoRepositories ∅;
  deploymentRevisions ←
    wrapped "list deployment revisions"
      (ask (DeploymentRevisionService_List (ID deployment)));
  if DoNotDeploy schema
  then
    returned ← adopt_revisions deployment bentosMapping deploymentRevisions
                 (Targets schema);
    match returned with
    | Some r => ret r
    | None =>
        new_revision true user deployment bentosMapping deploymentRevisions
          (Targets schema)
    end
  else
    new_revision false user deployment bentosMapping deploymentRevisions
      (clear_kube <$> Targets schema).

(** The value of [err] a deferred function sees when the handler returns
    what [r] holds. *)
Definition err_of {A} (r : error + A) : option error :=
  match r with
  | inl e => Some e
  | inr _ => None
  end.

Definition schema_of {A} (r : error + A) : option A :=
  match r with
  | inl _ => None
  | inr s => Some s
  end.

(** Lines 139-160 of [Create]: the deferred recording of the event. *)
Definition created_event (user : User) (org : Organization) (deployment : Deployment)
    (err : option error) : CreateEventOption :=
  {| Event_CreatorId := UserID user;
     Event_ApiTokenName := default "" (ApiToken user);
     Event_OrganizationId := OrganizationID org;
     Event_ResourceId := ID deployment;
     Event_Status :=
       match err with
       | Some _ => EventStatusFailed
       | None => EventStatusSuccess
       end;
     Event_OperationName := "created" |}.

(** Lines 127-165 of [Create]: what runs between [StartTransaction] and
    the deferred [df(err)].  The deferred functions run last, the later one
    first; the tracking goroutine is started before them. *)
Definition Create_transaction (schema : CreateDeploymentSchema) (user : User)
    (org : Organization) (opt : CreateDeploymentOption) : M DeploymentSchema :=
  λ d0,
    let '(created, d1, l1) := ask (DeploymentService_Create opt) d0 in
    match created with
    | inl err =>
        let '(d2, l2) := tell (df (Some err)) d1 in
        (inl (Wrap err "create deployment"), d2, l1 ++ l2)
    | inr deployment =>
        let '(r, d2, l2) := doUpdate (Create_Update schema) org deployment d1 in
        let '(d3, l3) :=
          tell (TrackDeploymentEvent (schema_of r) YataiDeploymentCreate) d2 in
        let '(d4, l4) :=
          tell (EventService_Create (created_event user org deployment (err_of r))) d3 in
        let '(d5, l5) := tell (df (err_of r)) d4 in
        (r, d5, l1 ++ l2 ++ l3 ++ l4 ++ l5)
    end.

(** [deploymentController.Create] *)
Definition Create (schema : CreateDeploymentSchema) : M DeploymentSchema :=
  user ← ask GetCurrentUser;
  cluster ← GetCluster (Create_Cluster schema);
  _ ← Cluster_canUpdate cluster;
  org ← ask (GetOrganization (OrgName (Create_Cluster schema)));
  let labels := default [] (Labels (Create_Update schema)) in
  let kubeNamespace :=
    if decide (TrimSpace (Create_KubeNamespace schema) = "")
    then GetDeploymentKubeNamespace cluster
    else TrimSpace (Create_KubeNamespace schema) in
  let description := default "" (Description (Create_Update schema)) in
  _ ← ask StartTransaction;
  Create_transaction schema user org
    {| Deployment_CreatorId := UserID user;
       Deployment_ClusterId := ClusterID cluster;
       Deployment_Name := Create_Name schema;
       Deployment_Description := description;
       Deployment_Labels := labels;
       Deployment_KubeNamespace := kubeNamespace |}.

(** Lines 212-222 of [Update], between [StartTransaction] and the deferred
    [df(err)]. *)
Definition Update_transaction (schema : UpdateSchema) (org : Organization)
    (deployment : Deployment) : M DeploymentSchema :=
  λ d0,
    let '(updated, d1, l1) :=
      ask (DeploymentService_Update deployment
             (Description (Update_Update schema))
             (Labels (Update_Update schema))) d0 in
    match updated with
    | inl err =>
        let '(d2, l2) := tell (df (Some err)) d1 in
        (inl err, d2, l1 ++ l2)
    | inr deployment =>
        let '(r, d2, l2) := doUpdate (Update_Update schema) org deployment d1 in
        let '(d3, l3) :=
          tell (TrackDeploymentEvent (schema_of r) YataiDeploymentUpdate) d2 in
        let '(d4, l4) := tell (df (err_of r)) d3 in
        (r, d4, l1 ++ l2 ++ l3 ++ l4)
    end.

(** [deploymentController.Update] *)
Definition Update (schema : UpdateSchema) : M DeploymentSchema :=
  deployment ← GetDeployment (Update_Deployment schema);
  _ ← canUpdate deployment;
  org ← ask (GetOrganization (OrgName (Deployment_Cluster (Update_Deployment schema))));
  _ ← ask StartTransaction;
  Update_transaction schema org deployment.

(** [deploymentController.Get] *)
Definition Get (schema : GetDeploymentSchema) : M DeploymentSchema :=
  deployment ← GetDeployment schema;
  _ ← canView deployment;
  ask (ToDeploymentSchema deployment).

(** [deploymentController.Terminate] and [Delete]: the event is tracked
    whatever the transformer answers. *)
Definition Terminate (schema : GetDeploymentSchema) : M DeploymentSchema :=
  deployment ← GetDeployment schema;
  _ ← canOperate deployment;
  deployment ← ask (DeploymentService_Terminate deployment);
  λ d0,
    let '(r, d1, l1) := ask (ToDeploymentSchema deployment) d0 in
    let '(d2, l2) := tell (TrackDeploymentEvent (schema_of r) YataiDeploymentTerminate) d1 in
    (r, d2, l1 ++ l2).

Definition Delete (schema : GetDeploymentSchema) : M DeploymentSchema :=
  deployment ← GetDeployment schema;
  _ ← canOperate deployment;
  deployment ← ask (DeploymentService_Delete deployment);
  λ d0,
    let '(r, d1, l1) := ask (ToDeploymentSchema deployment) d0 in
    let '(d2, l2) := tell (TrackDeploymentEvent (schema_of r) YataiDeploymentDelete) d1 in
    (r, d2, l1 ++ l2).

End WithServices.

(** The calls that change the database or the cluster. *)
Definition is_write (e : entry) : bool :=
  match e with
  | Did (DeploymentService_Create _) _
  | Did (DeploymentService_Update _ _ _) _
  | Did (DeploymentService_Terminate _) _
  | Did (DeploymentService_Delete _) _
  | Did (EventService_Create _) _
  | Did (DeploymentRevisionService_Create _ _) _
  | Did (DeploymentRevisionService_Deploy _ _) _
  | Did (DeploymentRevisionService_Update _) _
  | Did (DeploymentTargetService_Update _ _) _
  | Did (DeploymentTargetService_Create _) _ => true
  | _ => false
  end.

(** The deployment of a revision, and the calls that look at or change
    the revisions that are already there. *)
Definition deploys (e : entry) : bool :=
  match e with
  | Did (DeploymentRevisionService_Deploy _ _) _ => true
  | _ => false
  end.

Definition touches_old (e : entry) : bool :=
  match e with
  | Did (DeploymentTargetService_List _) _
  | Did (DeploymentTargetService_Update _ _) _
  | Did (DeploymentRevisionService_Update _) _ => true
  | _ => false
  end.

(** The calls lines 337-387 can make, with and without [DoNotDeploy]. *)
Definition new_revision_calls (doNotDeploy : bool) (e : entry) : bool :=
  match e with
  | Did (DeploymentRevisionService_Create _ _) _
  | Did (DeploymentTargetService_Create _) _
  | Did (ToDeploymentSchema _) _ => true
  | Did (DeploymentRevisionService_Deploy _ _) _ => negb doNotDeploy
  | Did (DeploymentRevisionService_Update _) _ => doNotDeploy
  | _ => false
  end.

(** The calls [doUpdate] can make, with and without [DoNotDeploy]. *)
Definition doUpdate_calls (doNotDeploy : bool) (e : entry) : bool :=
  match e with
  | Did GetCurrentUser _
  | Did (BentoRepositoryService_List _ _) _
  | Did (BentoService_List _ _) _
  | Did (DeploymentRevisionService_List _) _
  | Did (DeploymentRevisionService_Create _ _) _
  | Did (DeploymentTargetService_Create _) _
  | Did (ToDeploymentSchema _) _ => true
  | Did (DeploymentRevisionService_Deploy _ _) _ => negb doNotDeploy
  | Did (DeploymentTargetService_List _) _
  | Did (DeploymentTargetService_Update _ _) _
  | Did (DeploymentRevisionService_Update _) _ => doNotDeploy
  | _ => false
  end.

(** What lines 293-325 ask of [DeploymentTargetService.Update] for the
    target [t] of an active revision: [t'] is [t] as the update receives it
    and [c] the configuration it is to get. *)
Definition adopts (bentosMapping : gmap string Bento) (t : DeploymentTarget)
    (targets : list CreateDeploymentTargetSchema)
    (t' : DeploymentTarget) (c : DeploymentTargetConfig) : Prop :=
  Config t' = Some c ∧ TargetID t' = TargetID t ∧ BentoId t' = BentoId t ∧
  KubeResourceVersion c ≠ "" ∧
  (KubeResourceVersion (default empty_config (Config t)) = "" ∨
   KubeResourceVersion (default empty_config (Config t)) = KubeResourceVersion c) ∧
  Resources c = Resources (default empty_config (Config t)) ∧
  ∃ s asked bento,
    s ∈ targets ∧ Target_Config s = Some asked ∧
    KubeResourceUid c = KubeResourceUid asked ∧
    KubeResourceVersion c = KubeResourceVersion asked ∧
    bentosMapping !! bento_key (Target_BentoRepository s) (Target_Bento s)
      = Some bento ∧
    BentoID bento = BentoId t.

(** The two ends of a transaction. *)
Definition bracket (e : entry) : bool :=
  match e with
  | Did StartTransaction _ | Did (df _) _ => true
  | _ => false
  end.

(** What a handler may do before its transaction is open: read, and fail
    to open it. *)
Definition before_transaction (e : entry) : bool :=
  match e with
  | Did StartTransaction ok => negb ok
  | Did (df _) _ => false
  | _ => negb (is_write e)
  end.

(** The log [l] of a request that ended in [r] is that of one transaction:
    either the request failed before a transaction was open and wrote
    nothing, or the log is a prefix without writes, the opening, a body, and
    [df] as the last call, which is told of an error exactly when the request
    fails. *)
Definition transacted {A} (r : error + A) (l : list entry) : Prop :=
  (is_ok r = false ∧ Forall (λ e, before_transaction e = true) l) ∨
  ∃ pre body err ok,
    l = pre ++ Did StartTransaction true :: body ++ [Did (df err) ok] ∧
    Forall (λ e, before_transaction e = true) pre ∧
    Forall (λ e, bracket e = false) body ∧
    (err = None ↔ is_ok r = true).

Definition records_event (e : entry) : bool :=
  match e with
  | Did (EventService_Create _) _ => true
  | _ => false
  end.

(** Every write in [l] comes after a membership check of the kind [check]
    that succeeded. *)
Definition guarded (check : nat → nat → request) (l : list entry) : Prop :=
  ∀ l1 e l2, l = l1 ++ e :: l2 → is_write e = true →
    ∃ userId clusterId, Did (check userId clusterId) true ∈ l1.

(** The calls that find the user, the resource of the path and the
    membership. *)
Definition lookup_calls (e : entry) : bool :=
  match e with
  | Did GetCurrentUser _
  | Did (GetOrganization _) _
  | Did (ClusterService_GetByName _ _) _
  | Did (ClusterService_GetAssociatedCluster _) _
  | Did (MemberService_CanView _ _) _
  | Did (MemberService_CanUpdate _ _) _
  | Did (MemberService_CanOperate _ _) _
  | Did (DeploymentService_GetByName _ _ _) _ => true
  | _ => false
  end.

(** The calls [Create] and [Update] make around [doUpdate]. *)
Definition frame_calls (e : entry) : bool :=
  lookup_calls e ||
  match e with
  | Did StartTransaction _
  | Did (df _) _
  | Did (DeploymentService_Create _) _
  | Did (DeploymentService_Update _ _ _) _
  | Did (EventService_Create _) _
  | Did (TrackDeploymentEvent _ _) _ => true
  | _ => false
  end.

(** Every call [m] makes, from whatever state, satisfies [P]. *)
Definition emits {db A} (P : entry → Prop) (m : M (db := db) A) : Prop :=
  ∀ d, Forall P (m d).2.

(** A small database for the runs below: the active revisions of the one
    deployment with their targets, and a counter for fresh IDs.  Two bento
    repositories, [iris] and [mnist], hold the versions [1.0] and [2.0];
    user 1 is a member of every cluster. *)
Record sample_db : Type := {
  fresh : nat;
  active : list (DeploymentRevision * list DeploymentTarget);
}.

Definition sample_repository (name : string) : option BentoRepository :=
  if decide (name = "iris") then Some {| RepositoryID := 1; RepositoryName := name |}
  else if decide (name = "mnist") then Some {| RepositoryID := 2; RepositoryName := name |}
  else None.

Definition sample_bento (repository : nat) (version : string) : option Bento :=
  if decide (version = "1.0")
  then Some {| BentoID := 10 * repository + 1; Version := version |}
  else if decide (version = "2.0")
  then Some {| BentoID := 10 * repository + 2; Version := version |}
  else None.

Definition sample_member (userId : nat) : error + unit :=
  if decide (userId = 1) then inr tt else inl "permission denied".

Definition sample_repositories (names : list string) : list BentoRepository :=
  omap sample_repository names.

Definition sample_bentos (repository : nat) (versions : list string) : list Bento :=
  omap (sample_bento repository) versions.

Definition sample_revisions (d : sample_db) : list DeploymentRevision := (active d).*1.

Definition sample_targets (deploymentRevisionId : nat) (d : sample_db)
  : list DeploymentTarget :=
  r ← filter (λ r, RevisionID r.1 = deploymentRevisionId) (active d); r.2.

Definition sample_new_revision (d : sample_db) : DeploymentRevision * sample_db :=
  ({| RevisionID := fresh d |},
   {| fresh := S (fresh d);
      active := active d ++ [({| RevisionID := fresh d |}, [])] |}).

Definition sample_retire (deploymentRevision : DeploymentRevision) (d : sample_db)
  : sample_db :=
  {| fresh := fresh d;
     active := filter (λ r, RevisionID r.1 ≠ RevisionID deploymentRevision) (active d) |}.

Definition sample_store (t : DeploymentTarget) (d : sample_db) : sample_db :=
  {| fresh := fresh d;
     active :=
       (λ r : DeploymentRevision * list DeploymentTarget,
          (r.1, (λ t', if decide (TargetID t' = TargetID t) then t else t') <$> r.2))
         <$> active d |}.

Definition sample_new_target (opt : CreateDeploymentTargetOption) (d : sample_db)
  : DeploymentTarget * sample_db :=
  let t := {| TargetID := fresh d; BentoId := New_BentoId opt;
              Config := New_Config opt |} in
  (t,
   {| fresh := S (fresh d);
      active :=
        (λ r : DeploymentRevision * list DeploymentTarget,
           if decide (RevisionID r.1 = New_DeploymentRevisionId opt)
           then (r.1, r.2 ++ [t]) else r) <$> active d |}).

Definition sample_serve (c : request) : sample_db → (error + answer c) * sample_db :=
  match c as c0 return sample_db → (error + answer c0) * sample_db with
  | GetCurrentUser => λ d, (inr {| UserID := 1; ApiToken := Some "cli" |}, d)
  | GetOrganization _ => λ d, (inr {| OrganizationID := 1 |}, d)
  | ClusterService_GetByName _ name =>
      λ d, (if decide (name = "default") then inr {| ClusterID := 3 |}
            else inl "record not found", d)
  | ClusterService_GetAssociatedCluster _ => λ d, (inr {| ClusterID := 3 |}, d)
  | MemberService_CanView userId _ => λ d, (sample_member userId, d)
  | MemberService_CanUpdate userId _ => λ d, (sample_member userId, d)
  | MemberService_CanOperate userId _ => λ d, (sample_member userId, d)
  | DeploymentService_GetByName _ _ name => λ d, (inr {| ID := 7; Name := name |}, d)
  | StartTransaction => λ d, (inr tt, d)
  | df _ => λ d, (inr tt, d)
  | DeploymentService_Create opt =>
      λ d, (if decide (Deployment_Name opt = "") then inl "name is empty"
            else inr {| ID := 7; Name := Deployment_Name opt |}, d)
  | DeploymentService_Update deployment _ _ => λ d, (inr deployment, d)
  | DeploymentService_Terminate deployment => λ d, (inr deployment, d)
  | DeploymentService_Delete deployment => λ d, (inr deployment, d)
  | EventService_Create _ => λ d, (inr tt, d)
  | BentoRepositoryService_List _ names => λ d, (inr (sample_repositories names), d)
  | BentoService_List repository versions =>
      λ d, (inr (sample_bentos repository versions), d)
  | DeploymentRevisionService_List _ => λ d, (inr (sample_revisions d), d)
  | DeploymentRevisionService_Create _ _ =>
      λ d, (inr (sample_new_revision d).1, (sample_new_revision d).2)
  | DeploymentRevisionService_Deploy _ _ => λ d, (inr tt, d)
  | DeploymentRevisionService_Update deploymentRevision =>
      λ d, (inr tt, sample_retire deploymentRevision d)
  | DeploymentTargetService_List deploymentRevisionId =>
      λ d, (inr (sample_targets deploymentRevisionId d), d)
  | DeploymentTargetService_Update deploymentTarget config =>
      λ d, (inr deploymentTarget, sample_store deploymentTarget d)
  | DeploymentTargetService_Create opt =>
      λ d, (inr (sample_new_target opt d).1, (sample_new_target opt d).2)
  | ToDeploymentSchema deployment => λ d, (inr (Name deployment), d)
  | TrackDeploymentEvent _ _ => λ d, (inr tt, d)
  end.

(** One active revision whose target runs [iris:1.0] and has no
    configuration yet. *)
Definition sample_start : sample_db :=
  {| fresh := 100;
     active := [({| RevisionID := 50 |},
                 [{| TargetID := 60; BentoId := 11; Config := None |}])] |}.

Definition sample_target (version kube : string) : CreateDeploymentTargetSchema :=
  {| Target_BentoRepository := "iris"; Target_Bento := version;
     Target_Type := "stable"; Target_CanaryRules := None;
     Target_Config :=
       Some {| KubeResourceUid := "uid-" +:+ kube; KubeResourceVersion := kube;
               Resources := "cpu: 1" |} |}.

Definition sample_update (doNotDeploy : bool) (version kube : string)
  : UpdateDeploymentSchema :=
  {| Targets := [sample_target version kube]; DoNotDeploy := doNotDeploy;
     Description := None; Labels := None |}.

Definition sample_path : GetDeploymentSchema :=
  {| Deployment_Cluster := {| OrgName := "acme"; ClusterName := "default" |};
     DeploymentName := "fraud"; KubeNamespace := "yatai" |}.

Definition sample_create (doNotDeploy : bool) (name : string) : CreateDeploymentSchema :=
  {| Create_Name := name; Create_KubeNamespace := " ";
     Create_Update := sample_update doNotDeploy "1.0" "41";
     Create_Cluster := Deployment_Cluster sample_path |}.

Definition sample_TrimSpace (s : string) : string :=
  if decide (s = " ") then "" else s.

Definition sample_namespace (cluster : Cluster) : string := "yatai".

End Handlers.

(** ** deployment.go: the two listings of deployments *)

Module Listing.

Import ListQuery.

(** [schemasv1.ListQuerySchema] with the path of the request; [Q] is given
    by the map [schema.Q.ToMap()] answers, as the list of its entries in
    the order [range] visits them. *)
Record ListDeploymentSchema : Type := {
  Schema_Start : nat;
  Schema_Count : nat;
  Schema_Search : option string;
  Schema_Q : list (string * list string);
}.

(** [schemasv1.DeploymentListSchema], with the error returned beside it. *)
Record DeploymentListSchema : Type := {
  Total : nat;
  List_Start : nat;
  List_Count : nat;
  Items : list string;
  List_Err : option error;
}.

Section WithServices.

Variable KeyQIn KeyQKeywords : string.
Variable Partition LastPartition : string → string → string * string * string.
Variable range_tags : gmap string (list string) → list (string * list string).

(** The services of [fillListDeploymentOption], for the organization whose
    ID is given. *)
Variable GetByName : nat → string → error + nat.
Variable ListBentos : nat → option (list string) → error + list nat.
Variable ListClusters : list string → error + list nat.
Variable processUserNamesFromQ : list string → error + list string.
Variable ListByNames : list string → error + list nat.

(** [schema.GetCluster], [schema.GetOrganization]: the IDs of the cluster
    and of the organization of the path; the two [canView]; and
    [DeploymentService.List] and [ToDeploymentSchemas]. *)
Variable GetCluster : error + nat.
Variable GetOrganization : error + nat.
Variable Cluster_canView : nat → option error.
Variable Organization_canView : nat → option error.
Variable DeploymentService_List : ListDeploymentOption → error + list nat * nat.
Variable ToDeploymentSchemas : list nat → list string * option error.

Definition check (e : option error) : outcome unit :=
  match e with
  | Some err => Err err
  | None => Ok tt
  end.

(** Lines 611-624 and 656-669 *)
Definition list_with (schema : ListDeploymentSchema) (listOpt : ListDeploymentOption)
  : outcome DeploymentListSchema :=
  match DeploymentService_List listOpt with
  | inl err => Err (Wrap err "list deployments")
  | inr (deployments, total) =>
      Ok {| Total := total; List_Start := Schema_Start schema;
            List_Count := Schema_Count schema;
            Items := (ToDeploymentSchemas deployments).1;
            List_Err := (ToDeploymentSchemas deployments).2 |}
  end.

(** [deploymentController.ListClusterDeployments] *)
Definition ListClusterDeployments (schema : ListDeploymentSchema)
  : outcome DeploymentListSchema :=
  bind (of_sum GetCluster) (λ cluster,
  bind (of_sum GetOrganization) (λ org,
  bind (check (Cluster_canView cluster)) (λ _,
  let listOpt :=
    {| Start := Some (Schema_Start schema); Count := Some (Schema_Count schema);
       Search := Schema_Search schema; ClusterId := Some cluster;
       OrganizationId := None; KeywordFieldNames := None; Keywords := None;
       BentoIds := None; ClusterIds := None; CreatorIds := None;
       LastUpdaterIds := None; Statuses := None; Order := None |} in
  bind (fillListDeploymentOption KeyQIn KeyQKeywords Partition LastPartition
          range_tags (GetByName org) ListBentos ListClusters processUserNamesFromQ
          ListByNames (Schema_Q schema) listOpt)
       (list_with schema)))).

(** [deploymentController.ListOrganizationDeployments] *)
Definition ListOrganizationDeployments (schema : ListDeploymentSchema)
  : outcome DeploymentListSchema :=
  bind (of_sum GetOrganization) (λ organization,
  bind (check (Organization_canView organization)) (λ _,
  let listOpt :=
    {| Start := Some (Schema_Start schema); Count := Some (Schema_Count schema);
       Search := Schema_Search schema; ClusterId := None;
       OrganizationId := Some organization; KeywordFieldNames := None;
       Keywords := None; BentoIds := None; ClusterIds := None; CreatorIds := None;
       LastUpdaterIds := None; Statuses := None; Order := None |} in
  bind (fillListDeploymentOption KeyQIn KeyQKeywords Partition LastPartition
          range_tags (GetByName organization) ListBentos ListClusters
          processUserNamesFromQ ListByNames (Schema_Q schema) listOpt)
       (list_with schema))).

End WithServices.

End Listing.

(** ** The [KubePodEvents] component of the dashboard *)

Module KubePodEvents.

(** [event.involvedObject]: both fields may be missing. *)
Record InvolvedObject : Type := {
  kind : option string;
  name : option string;
}.

(** [IKubeEventSchema], by the fields the component prints. *)
Record IKubeEventSchema : Type := {
  reason : string;
  message : string;
  involvedObject : option InvolvedObject;
}.

(** What [JSON.parse(e.data)] gives: a response with its type, message and
    payload ([None] for [null]), or nothing the handler can read, in which
    case it throws. *)
Inductive data : Type :=
| Unreadable
| Resp (type : string) (message : string) (payload : option (list IKubeEventSchema)).

(** The variables of one run of the effect ([ws], [selfClose]), the sockets
    it has created and closed, the reconnections it has scheduled with their
    delays, and the state of the component ([items], the two refs) with the
    toasts it has raised. *)
Record effect : Type := {
  ws : option nat;
  selfClose : bool;
  created : nat;
  closed : list nat;
  timers : list nat;
  wsRef : option nat;
  wsOpenRef : bool;
  items : list string;
  toasts : list string;
}.

Inductive event : Type :=
| OnMessage (e : data)
| OnOpen
| OnClose
| Timeout
| Cleanup.

(** A JavaScript string used as a condition. *)
Definition truthy (s : option string) : bool :=
  match s with
  | Some s => negb (bool_decide (s = ""))
  | None => false
  end.

Definition newline : string := String (Ascii.ascii_of_nat 10) EmptyString.

(** [items.length > 0 ? items.join('\n') : ' '] *)
Definition text (items : list string) : string :=
  match items with
  | [] => " "
  | _ => String.concat newline items
  end.

Section WithProps.

(** The property [podName], the translator of [useTranslation], and
    [getEventTime] and [formatMoment] of other modules. *)
Variable podName : option string.
Variable t : string → string.
Variable getEventTime : IKubeEventSchema → option string.
Variable formatMoment : string → string.

(** Lines 85-94: the line of one event. *)
Definition line (event : IKubeEventSchema) : string :=
  let eventTime := getEventTime event in
  let eventTimeStr :=
    if truthy eventTime then formatMoment (default "" eventTime) else "-" in
  if truthy podName
  then "[" +:+ eventTimeStr +:+ "] [" +:+ reason event +:+ "] " +:+ message event
  else "[" +:+ eventTimeStr +:+ "] ["
       +:+ default "-" (involvedObject event ≫= kind) +:+ "] ["
       +:+ default "-" (involvedObject event ≫= name) +:+ "] ["
       +:+ reason event +:+ "] " +:+ message event.

(** Lines 80-95: the list a payload is shown as. *)
Definition shown (events : list IKubeEventSchema) : list string :=
  match events with
  | [] => [t "no event"]
  | _ => line <$> events
  end.

(** [ws.onmessage] *)
Definition onmessage (e : data) (s : effect) : effect :=
  match e with
  | Unreadable => s
  | Resp type msg payload =>
      if negb (bool_decide (type = "success"))
      then {| ws := ws s; selfClose := selfClose s; created := created s;
              closed := closed s; timers := timers s; wsRef := wsRef s;
              wsOpenRef := wsOpenRef s; items := items s;
              toasts := toasts s ++ [msg] |}
      else
        match payload with
        | None => s
        | Some events =>
            {| ws := ws s; selfClose := selfClose s; created := created s;
               closed := closed s; timers := timers s; wsRef := wsRef s;
               wsOpenRef := wsOpenRef s;
               items := shown events;
               toasts := toasts s |}
        end
  end.

(** [connect]: a new socket, which becomes [ws]. *)
Definition connect (s : effect) : effect :=
  {| ws := Some (created s); selfClose := false; created := S (created s);
     closed := closed s; timers := timers s; wsRef := wsRef s;
     wsOpenRef := wsOpenRef s; items := items s; toasts := toasts s |}.

(** [ws.onopen] *)
Definition onopen (s : effect) : effect :=
  {| ws := ws s; selfClose := selfClose s; created := created s;
     closed := closed s; timers := timers s;
     wsRef := match ws s with Some w => Some w | None => wsRef s end;
     wsOpenRef := true; items := items s; toasts := toasts s |}.

(** [ws.onclose] *)
Definition onclose (s : effect) : effect :=
  {| ws := ws s; selfClose := selfClose s; created := created s;
     closed := closed s;
     timers := if selfClose s then timers s else timers s ++ [3000];
     wsRef := wsRef s; wsOpenRef := false; items := items s; toasts := toasts s |}.

(** The function the effect returns. *)
Definition cleanup (s : effect) : effect :=
  {| ws := ws s; selfClose := true; created := created s;
     closed := match ws s with Some w => closed s ++ [w] | None => closed s end;
     timers := timers s; wsRef := None; wsOpenRef := wsOpenRef s;
     items := items s; toasts := toasts s |}.

(** A scheduled [connect] comes due; nothing happens when none is
    scheduled. *)
Definition timeout (s : effect) : effect :=
  match timers s with
  | [] => s
  | _ :: rest =>
      connect {| ws := ws s; selfClose := selfClose s; created := created s;
                 closed := closed s; timers := rest; wsRef := wsRef s;
                 wsOpenRef := wsOpenRef s; items := items s; toasts := toasts s |}
  end.

Definition step (s : effect) (e : event) : effect :=
  match e with
  | OnMessage d => onmessage d s
  | OnOpen => onopen s
  | OnClose => onclose s
  | Timeout => timeout s
  | Cleanup => cleanup s
  end.

Definition run (s : effect) (es : list event) : effect := foldl step s es.

(** The effect with [open] set: the state of a fresh component after the
    first [connect]. *)
Definition mounted : effect :=
  connect {| ws := None; selfClose := false; created := 0; closed := [];
             timers := []; wsRef := None; wsOpenRef := false; items := [];
             toasts := [] |}.

(** The list the last readable success frame of [es] puts on display, if
    there is one. *)
Definition payload_of (e : event) : option (list IKubeEventSchema) :=
  match e with
  | OnMessage (Resp type _ (Some events)) =>
      if bool_decide (type = "success") then Some events else None
  | _ => None
  end.

Definition last_list (es : list event) : option (list IKubeEventSchema) :=
  last (omap payload_of es).

End WithProps.

Definition sample_event (r m : string) : IKubeEventSchema :=
  {| reason := r; message := m;
     involvedObject := Some {| kind := Some "Pod"; name := None |} |}.

Definition sample_time (e : IKubeEventSchema) : option string :=
  if decide (reason e = "") then None else Some "12:00".

End KubePodEvents.

(** * Properties *)

(** A decidable fact about closed terms, by evaluation. *)
Ltac by_evaluation := apply (bool_decide_unpack _); vm_compute; exact I.

Lemma filter_ext_elem {A} (f g : A → bool) (l : list A) :
  (∀ x, x ∈ l → f x = g x) → filter (λ x, f x) l = filter (λ x, g x) l.
Proof.
  induction l as [|x l IH]; intros H; [done|].
  rewrite !filter_cons, (H x), IH; [done| |].
  - intros y Hy. apply H. by right.
  - by left.
Qed.

(** ** The fan-out of a sweep under every schedule

    The world a sweep starts from carries the order in which the loop of
    [send] and its goroutines take their steps, so a statement about
    [send] from any world is a statement about every such order. *)

Section FanoutFacts.

Import Deployment Sweep.

Variable ToKubePodSchemas : nat → list Pod → error + list KubePodSchema.

(** A property every choice of the scheduler preserves holds when the
    fan-out is over. *)
Lemma fan_steps_ind (P : fanning → Prop) vc v :
  (∀ s i, P s → P (fan_step vc v s i)) →
  ∀ order s, P s → P (foldl (fan_step vc v) s order).
Proof.
  intros Hstep order. induction order as [|i order IH]; intros s Hs; [done|].
  simpl. apply IH, Hstep, Hs.
Qed.

Lemma fan_wait_ind (P : fanning → Prop) vc v :
  (∀ s i, P s → P (fan_step vc v s i)) → ∀ s, P s → P (fan_wait vc v s).
Proof.
  intros Hstep s Hs. unfold fan_wait.
  assert (H1 : ∀ n, P (Nat.iter n (loop_step vc) s)).
  { induction n as [|n IH]; [done|]. simpl. apply (Hstep _ 0), IH. }
  set (s1 := Nat.iter _ _ s). pose proof (H1 (length (fo_conns s))) as Hs1.
  fold s1 in Hs1. generalize (seq 0 (length (fo_eg s1))). intros l.
  clearbody s1. clear H1 Hs. revert s1 Hs1.
  induction l as [|i l IH]; intros s1 Hs1; [done|]. simpl. apply IH.
  apply (Hstep _ (S i)), (Hstep _ (S i)), (Hstep _ (S i)), Hs1.
Qed.

Lemma fan_run_ind (P : fanning → Prop) vc v conns w :
  (∀ s i, P s → P (fan_step vc v s i)) →
  P (fan_start conns w) → P (fan_run vc v conns w).
Proof.
  intros Hstep H0. unfold fan_run. apply fan_wait_ind; [done|].
  by apply fan_steps_ind.
Qed.

(** *** The loop and the goroutines come to their end *)

Ltac fan_cases :=
  repeat match goal with
  | |- context [match heap ?w !! ?p with _ => _ end] => destruct (heap w !! p)
  | |- context [WriteJSON ?c ?f ?w] => destruct (WriteJSON c f w)
  end.

Lemma task_step_conns v i s : fo_conns (task_step v i s) = fo_conns s.
Proof.
  unfold task_step. destruct (fo_eg s !! i) as [[p []]|]; fan_cases; done.
Qed.

Lemma loop_step_conns vc s : fo_conns (loop_step vc s) = tail (fo_conns s).
Proof.
  unfold loop_step. destruct (fo_conns s) as [|p l] eqn:Hs; [by rewrite Hs|].
  destruct (heap (fo_world s) !! p) as [c|]; [|done].
  destruct (IsClosed c); [done|]. by destruct (negb (IsNew c) && negb vc).
Qed.

Lemma loop_runs_out vc n : ∀ s,
  (length (fo_conns s) ≤ n)%nat → fo_conns (Nat.iter n (loop_step vc) s) = [].
Proof.
  induction n as [|n IH]; intros s Hn.
  - simpl. destruct (fo_conns s); [done|simpl in Hn; lia].
  - rewrite Nat.iter_succ_r. apply IH. rewrite loop_step_conns.
    destruct (fo_conns s); simpl in *; lia.
Qed.

(** A statement of the goroutine [i] takes one from its rank and leaves
    the others where they are. *)
Lemma task_step_rank v i s j :
  rank_at (task_step v i s) j =
  if decide (j = i) then pred (rank_at s i) else rank_at s j.
Proof.
  unfold rank_at, task_step.
  destruct (fo_eg s !! i) as [[p st]|] eqn:Hi.
  2: { case_decide; [subst; by rewrite Hi|done]. }
  assert (Hlt : (i < length (fo_eg s))%nat) by (by eapply lookup_lt_Some).
  destruct st; simpl; fan_cases; simpl;
    case_decide; subst;
    rewrite ?list_lookup_insert_eq, ?list_lookup_insert_ne, ?Hi by done;
    try done.
  all: by destruct (fo_err s).
Qed.

Lemma task_step_length v i s : length (fo_eg (task_step v i s)) = length (fo_eg s).
Proof.
  unfold task_step. destruct (fo_eg s !! i) as [[p []]|]; fan_cases; simpl;
    by rewrite ?length_insert.
Qed.

Lemma rank_at_le s j : (rank_at s j ≤ 3)%nat.
Proof.
  unfold rank_at. destruct (fo_eg s !! j) as [[p []]|]; simpl; lia.
Qed.

Lemma tasks_run_out v l : ∀ s j,
  j ∈ l →
  rank_at (foldl (λ s i, task_step v i (task_step v i (task_step v i s))) s l) j = 0.
Proof.
  assert (Hmono : ∀ l s j, rank_at s j = 0 →
    rank_at (foldl (λ s i, task_step v i (task_step v i (task_step v i s))) s l) j = 0).
  { clear l. induction l as [|i l IH]; intros s j H0; [done|]. simpl. apply IH.
    rewrite !task_step_rank. case_decide; subst; [|done].
    rewrite !decide_True by done. lia. }
  induction l as [|i l IH]; intros s j Hj; [by apply elem_of_nil in Hj|].
  simpl. apply elem_of_cons in Hj as [->|Hj]; [|by apply IH].
  apply Hmono. rewrite !task_step_rank, !decide_True by done.
  pose proof (rank_at_le s i). lia.
Qed.

Lemma tasks_keep_conns v l : ∀ s,
  fo_conns (foldl (λ s i, task_step v i (task_step v i (task_step v i s))) s l)
  = fo_conns s.
Proof.
  induction l as [|i l IH]; intros s; [done|]. simpl.
  by rewrite IH, !task_step_conns.
Qed.

Lemma tasks_keep_length v l : ∀ s,
  length (fo_eg (foldl (λ s i, task_step v i (task_step v i (task_step v i s))) s l))
  = length (fo_eg s).
Proof.
  induction l as [|i l IH]; intros s; [done|]. simpl.
  by rewrite IH, !task_step_length.
Qed.

(** After [eg.Wait()] the loop has gone through the table and every
    goroutine has run its last statement. *)
Lemma fan_wait_ends vc v s :
  fo_conns (fan_wait vc v s) = [] ∧
  ∀ q st, (q, st) ∈ fo_eg (fan_wait vc v s) → st = AtEnd.
Proof.
  unfold fan_wait. set (s1 := Nat.iter _ _ s).
  set (F := λ s i, task_step v i (task_step v i (task_step v i s))).
  split.
  - unfold F. rewrite tasks_keep_conns. by apply loop_runs_out.
  - intros q st [j Hj]%list_elem_of_lookup.
    assert (Hlt : (j < length (fo_eg s1))%nat).
    { apply lookup_lt_Some in Hj. unfold F in Hj.
      by rewrite tasks_keep_length in Hj. }
    pose proof (tasks_run_out v (seq 0 (length (fo_eg s1))) s1 j) as H0.
    fold F in H0. unfold rank_at in H0. rewrite Hj in H0. simpl in H0.
    specialize (H0 ltac:(apply elem_of_seq; lia)). by destruct st.
Qed.

(** *** What every step preserves *)

Lemma eg_stage_unique (l : list (ptr * pc)) i p st x :
  NoDup l.*1 → l !! i = Some (p, st) → (p, x) ∈ l → x = st.
Proof.
  intros Hnd Hi [j Hj]%list_elem_of_lookup.
  assert (i = j) as ->; [|congruence].
  apply (NoDup_lookup l.*1 i j p); [done| |]; by rewrite list_lookup_fmap, ?Hi, ?Hj.
Qed.

Lemma eg_insert_elem (l : list (ptr * pc)) i p st st' q x :
  NoDup l.*1 → l !! i = Some (p, st) →
  (q, x) ∈ <[i := (p, st')]> l ↔ (q = p ∧ x = st') ∨ (q ≠ p ∧ (q, x) ∈ l).
Proof.
  intros Hnd Hi. rewrite !list_elem_of_lookup. split.
  - intros [j Hj]. apply list_lookup_insert_Some in Hj as [(-> & [= -> ->] & _)|[Hne Hj]].
    + by left.
    + right. split; [|by exists j]. intros ->. apply Hne.
      apply (NoDup_lookup l.*1 i j p); [done| |]; by rewrite list_lookup_fmap, ?Hi, ?Hj.
  - intros [[-> ->]|[Hne [j Hj]]].
    + exists i. apply list_lookup_insert_eq. by eapply lookup_lt_Some.
    + exists j. rewrite list_lookup_insert_ne; [done|]. intros ->. congruence.
Qed.

Lemma eg_insert_fst (l : list (ptr * pc)) i p st st' :
  l !! i = Some (p, st) → (<[i := (p, st')]> l).*1 = l.*1.
Proof.
  intros Hi. rewrite list_fmap_insert. simpl. apply list_insert_id.
  by rewrite list_lookup_fmap, Hi.
Qed.

Lemma fan_inv_loop vc v conns w0 seen s :
  NoDup conns → fan_inv vc v conns w0 seen s →
  ∃ seen', fan_inv vc v conns w0 seen' (loop_step vc s).
Proof.
  intros Hnd Hinv. unfold loop_step.
  destruct (fo_conns s) as [|p conns'] eqn:Hrest; [by exists seen|].
  pose proof (fi_split _ _ _ _ _ _ Hinv) as Hsplit. rewrite Hrest in Hsplit.
  assert (Hp : p ∉ seen).
  { rewrite Hsplit in Hnd. apply NoDup_app in Hnd as (_ & Hd & _).
    intros Hin. apply (Hd p Hin). by left. }
  assert (Hpe : ∀ st, (p, st) ∉ fo_eg s).
  { intros st Hin. by destruct (fi_eg_seen _ _ _ _ _ _ Hinv p st Hin). }
  rewrite (fi_heap _ _ _ _ _ _ Hinv p (Hpe AtEnd)).
  exists (seen ++ [p]).
  assert (Hsplit' : conns = (seen ++ [p]) ++ conns').
  { by rewrite <- (assoc_L (++)). }
  destruct Hinv.
  assert (Hdue : ∀ c, heap w0 !! p = Some c →
            due vc c = negb (IsClosed c) && negb (negb (IsNew c) && negb vc)).
  { intros c _. unfold due. by destruct (IsClosed c), (IsNew c), vc. }
  assert (Hold : ∀ q, q ∈ seen → q ∈ seen ++ [p]).
  { intros q Hq. apply elem_of_app. by left. }
  assert (Hnew : ∀ q, q ∈ seen ++ [p] → q ∈ seen ∨ q = p).
  { intros q [Hq|Hq%list_elem_of_singleton]%elem_of_app; [by left|by right]. }
  destruct (heap w0 !! p) as [c|] eqn:Hc.
  2: { split; simpl; try done.
       - intros q st Hq. destruct (fi_eg_seen0 q st Hq). split; [by apply Hold|done].
       - intros q c [Hq| ->]%Hnew; [eauto|congruence].
       - intros q Hq. destruct (fi_new0 q Hq). split; [by apply Hold|done].
       - intros q c [Hq| ->]%Hnew; [eauto|congruence]. }
  specialize (Hdue c eq_refl).
  destruct (IsClosed c) eqn:Hclosed.
  { simpl in Hdue. split; simpl; try done.
    - intros q st Hq. destruct (fi_eg_seen0 q st Hq). split; [by apply Hold|done].
    - intros q c' [Hq| ->]%Hnew Hc' Hd; [eauto|]. simplify_eq. congruence.
    - intros q Hq. destruct (fi_new0 q Hq). split; [by apply Hold|done].
    - intros q c' [Hq| ->]%Hnew Hc' Hopen Hd; [eauto|]. simplify_eq. congruence. }
  destruct (negb (IsNew c) && negb vc) eqn:Hquiet; simpl in Hdue.
  - assert (Hpn : p ∉ fo_newConns s).
    { intros Hin. by destruct (fi_new0 p Hin). }
    split; simpl; try done.
    + intros q st Hq. destruct (fi_eg_seen0 q st Hq). split; [by apply Hold|done].
    + intros q c' [Hq| ->]%Hnew; [eauto|congruence].
    + intros q Hq. destruct (fi_end0 q Hq) as (c' & Hc' & [[Hh Hin]|[Hh Hout]]);
        exists c'; (split; [done|]).
      * left. split; [done|]. apply elem_of_app. by left.
      * right. split; [done|].
        intros [Hin| ->%list_elem_of_singleton]%elem_of_app; [done|].
        by apply (Hpe AtEnd).
    + apply NoDup_app. split; [done|]. split; [|apply NoDup_singleton].
      by intros q Hq ->%list_elem_of_singleton.
    + intros q [Hq| ->%list_elem_of_singleton]%elem_of_app.
      * destruct (fi_new0 q Hq). split; [by apply Hold|done].
      * split; [apply elem_of_app; right; by left|]. right. by exists c.
    + intros q c' [Hq| ->]%Hnew Hc' Hopen Hnot; apply elem_of_app.
      * left. by apply (fi_quiet0 q c').
      * right. by left.
  - assert (Hin : ∀ q st, (q, st) ∈ fo_eg s ++ [(p, AtWrite)] →
                   (q, st) ∈ fo_eg s ∨ (q = p ∧ st = AtWrite)).
    { intros q st [Hq|Hq%list_elem_of_singleton]%elem_of_app; [by left|].
      right. by simplify_eq. }
    assert (Hkeep : ∀ q st, (q, st) ∈ fo_eg s → (q, st) ∈ fo_eg s ++ [(p, AtWrite)]).
    { intros q st Hq. apply elem_of_app. by left. }
    split; simpl; try done.
    + intros e He. destruct (fi_events0 e He) as (q & st & c' & Hq & ?).
      exists q, st, c'. split; [by apply Hkeep|done].
    + intros q st c' [Hq|[-> ->]]%Hin Hst Hc'; [|done]. by apply (fi_written0 q st c').
    + rewrite fmap_app. simpl. apply NoDup_app. split; [done|].
      split; [|apply NoDup_singleton].
      intros q Hq ->%list_elem_of_singleton.
      apply list_elem_of_fmap in Hq as ([q st] & -> & Hq). by apply (Hpe st).
    + intros q st [Hq|[-> ->]]%Hin.
      * destruct (fi_eg_seen0 q st Hq). split; [by apply Hold|done].
      * split; [apply elem_of_app; right; by left|]. by exists c.
    + intros q c' [Hq| ->]%Hnew Hc' Hd.
      * destruct (fi_seen_eg0 q c' Hq Hc' Hd) as [st Hst]. exists st. by apply Hkeep.
      * exists AtWrite. apply elem_of_app. right. by left.
    + intros q Hq. apply fi_heap0. intros Hin'. by apply Hq, Hkeep.
    + intros q [Hq|[_ [=]]]%Hin. by apply fi_end0.
    + intros q Hq. destruct (fi_new0 q Hq) as [Hs [Hend|Hx]].
      * split; [by apply Hold|]. left. by apply Hkeep.
      * split; [by apply Hold|]. by right.
    + intros q c' [Hq| ->]%Hnew Hc' Hopen Hnot; [by apply (fi_quiet0 q c')|].
      congruence.
Qed.

Lemma since_app w0 w w' evs :
  trace w = trace w0 ++ since w0 w → trace w' = trace w ++ evs →
  since w0 w' = since w0 w ++ evs.
Proof.
  unfold since. generalize (drop (length (trace w0)) (trace w)).
  intros l -> ->. by rewrite <- (assoc_L (++)), drop_app_length.
Qed.

(** A goroutine moves from [st] to [st']: what its statement may do to the
    shared variables without breaking [fan_inv]. *)
Lemma fan_inv_advance vc v conns w0 seen s i p st st' c s' evs :
  fan_inv vc v conns w0 seen s →
  fo_eg s !! i = Some (p, st) → heap w0 !! p = Some c →
  st ≠ AtEnd → st' ≠ AtWrite →
  fo_conns s' = fo_conns s →
  fo_eg s' = <[i := (p, st')]> (fo_eg s) →
  dead (fo_world s) ⊆ dead (fo_world s') →
  trace (fo_world s') = trace (fo_world s) ++ evs →
  (∀ e, e ∈ evs → event_of v w0 c e) →
  (st = AtWrite → ∃ ok, EvWrite (Conn c) (success_frame v) ok ∈ evs) →
  (∀ q, q ≠ p → heap (fo_world s') !! q = heap (fo_world s) !! q) →
  (if decide (st' = AtEnd) then
     (heap (fo_world s') !! p = Some (with_IsNew false c) ∧
      fo_newConns s' = fo_newConns s ++ [p]) ∨
     (heap (fo_world s') !! p = Some (with_IsClosed true c) ∧
      fo_newConns s' = fo_newConns s)
   else heap (fo_world s') !! p = heap (fo_world s) !! p ∧
        fo_newConns s' = fo_newConns s) →
  fan_inv vc v conns w0 seen s'.
Proof.
  intros [] Hi Hc Hst Hst' Hconns Heg Hdead Htrace Hevs Hwrite Hheap Hp.
  assert (Hin : ∀ q x, (q, x) ∈ fo_eg s' ↔
                  (q = p ∧ x = st') ∨ (q ≠ p ∧ (q, x) ∈ fo_eg s)).
  { intros q x. rewrite Heg. by apply (eg_insert_elem _ i p st). }
  assert (Huniq : ∀ x, (p, x) ∈ fo_eg s → x = st).
  { intros x. by apply (eg_stage_unique _ i). }
  assert (Hpin : (p, st) ∈ fo_eg s) by (by eapply list_elem_of_lookup_2).
  assert (Hsince : since w0 (fo_world s') = since w0 (fo_world s) ++ evs).
  { by apply since_app. }
  assert (Hpn : p ∉ fo_newConns s).
  { intros Hin'. destruct (fi_new0 p Hin') as [_ [Hend|(c' & Hc' & _ & Hd)]].
    - by apply Huniq in Hend.
    - destruct (fi_eg_seen0 p st Hpin) as [_ (c2 & Hc2 & Hd2)]. congruence. }
  assert (Hnew : ∀ q, q ∈ fo_newConns s → q ∈ fo_newConns s').
  { intros q Hq. destruct (decide (st' = AtEnd)).
    - destruct Hp as [[_ ->]|[_ ->]]; [|done]. apply elem_of_app. by left.
    - by destruct Hp as [_ ->]. }
  assert (Hnew' : ∀ q, q ∈ fo_newConns s' → q ∈ fo_newConns s ∨ (q = p ∧ st' = AtEnd)).
  { intros q Hq. destruct (decide (st' = AtEnd)).
    - destruct Hp as [[_ Hn]|[_ Hn]]; rewrite Hn in Hq; [|by left].
      apply elem_of_app in Hq as [Hq| ->%list_elem_of_singleton]; [by left|by right].
    - destruct Hp as [_ Hn]. rewrite Hn in Hq. by left. }
  split.
  - by rewrite Hconns.
  - by etrans.
  - rewrite Hsince, Htrace, fi_trace0 at 1. by rewrite (assoc_L (++)).
  - intros e. rewrite Hsince. intros [He|He]%elem_of_app.
    + destruct (fi_events0 e He) as (q & x & c' & Hq & Hx & Hc' & Hev).
      destruct (decide (q = p)) as [->|Hne].
      * exists p, st', c'. split; [apply Hin; by left|done].
      * exists q, x, c'. split; [apply Hin; by right|done].
    + exists p, st', c. split; [apply Hin; by left|]. split; [done|]. split; [done|].
      by apply Hevs.
  - intros q x c' [[-> ->]|[Hne Hq]]%Hin Hx Hc'; rewrite Hsince.
    + simplify_eq. destruct (decide (st = AtWrite)) as [Hw|Hw].
      * destruct (Hwrite Hw) as [ok Hok]. exists ok. apply elem_of_app. by right.
      * destruct (fi_written0 p st c Hpin Hw Hc) as [ok Hok].
        exists ok. apply elem_of_app. by left.
    + destruct (fi_written0 q x c' Hq Hx Hc') as [ok Hok].
      exists ok. apply elem_of_app. by left.
  - by rewrite Heg, (eg_insert_fst _ i p st).
  - intros q x [[-> ->]|[Hne Hq]]%Hin; [|by apply (fi_eg_seen0 q x)].
    by apply (fi_eg_seen0 p st).
  - intros q c' Hq Hc' Hd. destruct (decide (q = p)) as [->|Hne].
    + exists st'. apply Hin. by left.
    + destruct (fi_seen_eg0 q c' Hq Hc' Hd) as [x Hx]. exists x. apply Hin. by right.
  - intros q Hq. destruct (decide (q = p)) as [->|Hne].
    + destruct (decide (st' = AtEnd)) as [Hend|Hne'].
      * exfalso. apply Hq, Hin. left. by rewrite Hend.
      * destruct Hp as [-> _]. apply fi_heap0. by intros ?%Huniq.
    + rewrite Hheap by done. apply fi_heap0. intros Hend. apply Hq, Hin. by right.
  - intros q [[-> Hend]|[Hne Hq]]%Hin.
    + exists c. split; [done|]. rewrite decide_True in Hp by done.
      destruct Hp as [[Hh Hn]|[Hh Hn]]; rewrite Hn.
      * left. split; [done|]. apply elem_of_app. right. by left.
      * by right.
    + destruct (fi_end0 q Hq) as (c' & Hc' & Hcase). exists c'. split; [done|].
      rewrite Hheap by done. destruct Hcase as [[Hh Hn]|[Hh Hn]].
      * left. split; [done|]. by apply Hnew.
      * right. split; [done|]. by intros [?|[? _]]%Hnew'.
  - destruct (decide (st' = AtEnd)).
    + destruct Hp as [[_ ->]|[_ ->]]; [|done].
      apply NoDup_app. split; [done|]. split; [|apply NoDup_singleton].
      by intros q Hq ->%list_elem_of_singleton.
    + by destruct Hp as [_ ->].
  - intros q [Hq|[-> ->]]%Hnew'.
    + destruct (fi_new0 q Hq) as [Hs [Hend|Hx]]; (split; [done|]); [|by right].
      left. apply Hin. right. split; [|done]. by intros ->; apply Huniq in Hend.
    + split; [by apply (fi_eg_seen0 p st)|]. left. apply Hin. by left.
  - intros q c' Hq Hc' Hopen Hd. by apply Hnew, (fi_quiet0 q c').
Qed.

Lemma fan_inv_task vc v conns w0 seen s i :
  fan_inv vc v conns w0 seen s → fan_inv vc v conns w0 seen (task_step v i s).
Proof.
  intros Hinv. unfold task_step.
  destruct (fo_eg s !! i) as [[p st]|] eqn:Hi; [|done].
  assert (Hpin : (p, st) ∈ fo_eg s) by (by eapply list_elem_of_lookup_2).
  destruct (fi_eg_seen _ _ _ _ _ _ Hinv p st Hpin) as [_ (c & Hc & Hd)].
  assert (Hnow : st ≠ AtEnd → heap (fo_world s) !! p = Some c).
  { intros Hst. rewrite (fi_heap _ _ _ _ _ _ Hinv); [done|].
    intros Hend. apply Hst. symmetry.
    by apply (eg_stage_unique _ i p st AtEnd (fi_eg_nodup _ _ _ _ _ _ Hinv)). }
  destruct st; [| | | |done]; rewrite ?Hnow by done.
  - unfold WriteJSON. case_decide as Hdead.
    + eapply (fan_inv_advance _ _ _ _ _ s i p AtWrite AtTest c _
                [EvWrite (Conn c) (success_frame v) false]);
        try done; simpl.
      * intros e ->%list_elem_of_singleton. left. by exists false.
      * intros _. exists false. by left.
    + eapply (fan_inv_advance _ _ _ _ _ s i p AtWrite AtTest c _
                [EvWrite (Conn c) (success_frame v) true]);
        try done; simpl.
      * intros e ->%list_elem_of_singleton. left. exists true. split; [done|].
        intros Hin. exfalso. by apply Hdead, (fi_dead _ _ _ _ _ _ Hinv).
      * intros _. exists true. by left.
  - eapply (fan_inv_advance _ _ _ _ _ s i p AtTest _ c _ []); try done; simpl.
    + by destruct (fo_err s).
    + by rewrite app_nil_r.
    + by intros e ?%elem_of_nil.
    + by destruct (fo_err s).
  - eapply (fan_inv_advance _ _ _ _ _ s i p AtClose AtEnd c _ [EvClose (Conn c)]);
      try done; simpl.
    + apply union_subseteq_r.
    + intros e ->%list_elem_of_singleton. by right.
    + intros q Hq. by rewrite lookup_insert_ne.
    + right. by rewrite lookup_insert_eq.
  - eapply (fan_inv_advance _ _ _ _ _ s i p AtKeep AtEnd c _ []); try done; simpl.
    + by rewrite app_nil_r.
    + by intros e ?%elem_of_nil.
    + intros q Hq. by rewrite lookup_alter_ne.
    + left. by rewrite lookup_alter_eq, Hnow.
Qed.

Lemma fan_inv_step vc v conns w0 seen s i :
  NoDup conns → fan_inv vc v conns w0 seen s →
  ∃ seen', fan_inv vc v conns w0 seen' (fan_step vc v s i).
Proof.
  intros Hnd Hinv. destruct i as [|i]; simpl.
  - by apply (fan_inv_loop _ _ _ _ seen).
  - exists seen. by apply fan_inv_task.
Qed.

Lemma fan_inv_start vc v conns w :
  fan_inv vc v conns (set_schedules (tail (schedules w)) w) [] (fan_start conns w).
Proof.
  split; simpl; try done;
    try (unfold since; rewrite drop_all);
    try (by rewrite ?app_nil_r);
    try constructor;
    try (by intros; match goal with H : _ ∈ [] |- _ => apply elem_of_nil in H end).
Qed.

(** *** When every socket written to is dead *)

Lemma fan_dead_step vc v conns w0 seen s i :
  (∀ q c, q ∈ conns → heap w0 !! q = Some c → due vc c = true → Conn c ∈ dead w0) →
  fan_inv vc v conns w0 seen s → fan_inv_dead s →
  fan_inv_dead (fan_step vc v s i).
Proof.
  intros Hall Hinv [Herr Hkeep Hend]. destruct i as [|i]; simpl.
  - unfold loop_step. destruct (fo_conns s) as [|p conns']; [done|].
    destruct (heap (fo_world s) !! p) as [c|]; [|done].
    destruct (IsClosed c); [done|].
    destruct (negb (IsNew c) && negb vc); [done|].
    assert (Hin : ∀ q st, (q, st) ∈ fo_eg s ++ [(p, AtWrite)] →
                   (q, st) ∈ fo_eg s ∨ st = AtWrite).
    { intros q st [Hq|Hq%list_elem_of_singleton]%elem_of_app; [by left|].
      right. by simplify_eq. }
    split; simpl.
    + intros He q st [Hq| ->]%Hin; [by apply (Herr He q)|done].
    + intros q [Hq|[=]]%Hin. by apply (Hkeep q).
    + intros q [Hq|[=]]%Hin. by apply Hend.
  - unfold task_step.
    destruct (fo_eg s !! i) as [[p st]|] eqn:Hi; [|done].
    assert (Hpin : (p, st) ∈ fo_eg s) by (by eapply list_elem_of_lookup_2).
    destruct (fi_eg_seen _ _ _ _ _ _ Hinv p st Hpin) as [Hseen (c & Hc & Hd)].
    assert (Hnow : st ≠ AtEnd → heap (fo_world s) !! p = Some c).
    { intros Hst. rewrite (fi_heap _ _ _ _ _ _ Hinv); [done|].
      intros Hend'. apply Hst. symmetry.
      by apply (eg_stage_unique _ i p st AtEnd (fi_eg_nodup _ _ _ _ _ _ Hinv)). }
    assert (Hin : ∀ st' q x, (q, x) ∈ <[i := (p, st')]> (fo_eg s) →
                    (q = p ∧ x = st') ∨ (q ≠ p ∧ (q, x) ∈ fo_eg s)).
    { intros st' q x Hq.
      by apply (eg_insert_elem _ i p st st' q x
                  (fi_eg_nodup _ _ _ _ _ _ Hinv) Hi) in Hq. }
    assert (Hsome : st ≠ AtWrite → is_Some (fo_err s)).
    { intros Hst. destruct (fo_err s) eqn:He; [by eexists|].
      by specialize (Herr eq_refl p st Hpin). }
    destruct st; [| | | |done]; rewrite ?Hnow by done.
    + assert (Hdead : Conn c ∈ dead (fo_world s)).
      { apply (fi_dead _ _ _ _ _ _ Hinv), (Hall p c); [|done..].
        rewrite (fi_split _ _ _ _ _ _ Hinv). apply elem_of_app. by left. }
      unfold WriteJSON. rewrite decide_True by done.
      split; simpl.
      * done.
      * intros q [[_ [=]]|[_ Hq]]%Hin. by apply (Hkeep q).
      * intros q [[_ [=]]|[_ Hq]]%Hin. by apply Hend.
    + destruct Hsome as [e He]; [done|]. rewrite He.
      split; simpl.
      * done.
      * intros q [[_ [=]]|[_ Hq]]%Hin. by apply (Hkeep q).
      * intros q [[_ [=]]|[_ Hq]]%Hin. by apply Hend.
    + destruct Hsome as [e He]; [done|].
      split; simpl.
      * by rewrite He.
      * intros q [[_ [=]]|[_ Hq]]%Hin. by apply (Hkeep q).
      * intros q [[-> _]|[Hne Hq]]%Hin.
        -- by rewrite lookup_insert_eq.
        -- rewrite lookup_insert_ne by done. by apply Hend.
    + by destruct (Hkeep p).
Qed.

Lemma fan_dead_start conns w : fan_inv_dead (fan_start conns w).
Proof.
  split; simpl.
  - by intros _ q st ?%elem_of_nil.
  - by intros q ?%elem_of_nil.
  - by intros q ?%elem_of_nil.
Qed.

(** *** The fan-out as a whole *)

Lemma fan_frame_step vc v w0 s i :
  fan_frame w0 (fo_world s) → fan_frame w0 (fo_world (fan_step vc v s i)).
Proof.
  intros Hf. destruct i as [|i]; simpl.
  - unfold loop_step. destruct (fo_conns s) as [|p conns']; [done|].
    destruct (heap (fo_world s) !! p) as [c|]; [|done].
    destruct (IsClosed c); [done|]. by destruct (negb (IsNew c) && negb vc).
  - unfold task_step. destruct (fo_eg s !! i) as [[p []]|]; try done;
      destruct (heap (fo_world s) !! p) as [c|]; try done;
      unfold WriteJSON; try case_decide; by destruct Hf.
Qed.

(** The tables, the manager flags, the pending tasks and the informer are
    as before the fan-out, and one schedule is used up. *)
Lemma fanout_frame vc v conns w :
  fan_frame (set_schedules (tail (schedules w)) w) (fanout vc v conns w).2.
Proof.
  unfold fanout. simpl.
  apply (fan_run_ind (λ s, fan_frame (set_schedules (tail (schedules w)) w)
                             (fo_world s))).
  - intros s i. apply fan_frame_step.
  - done.
Qed.

(** The loop of [send] and its goroutines, against the world they started
    from. *)
Lemma fanout_spec vc v conns w :
  NoDup conns → fanout_post vc v conns w (fanout vc v conns w).
Proof.
  intros Hnd. set (w0 := set_schedules (tail (schedules w)) w).
  assert (Hboth : ∃ seen, fan_inv vc v conns w0 seen (fan_run vc v conns w) ∧
            ((∀ q c, q ∈ conns → heap w0 !! q = Some c → due vc c = true →
                     Conn c ∈ dead w0) →
             fan_inv_dead (fan_run vc v conns w))).
  { apply (fan_run_ind (λ s, ∃ seen, fan_inv vc v conns w0 seen s ∧
             ((∀ q c, q ∈ conns → heap w0 !! q = Some c → due vc c = true →
                      Conn c ∈ dead w0) → fan_inv_dead s))).
    - intros s i (seen & Hs & Hdead).
      destruct (fan_inv_step vc v conns w0 seen s i Hnd Hs) as [seen' Hs'].
      exists seen'. split; [done|]. intros Hall.
      by apply (fan_dead_step vc v conns w0 seen), Hdead.
    - exists []. split; [apply fan_inv_start|]. intros _. apply fan_dead_start. }
  destruct Hboth as (seen & Hinv & Hdead).
  destruct (fan_wait_ends vc v
              (foldl (fan_step vc v) (fan_start conns w)
                 (default [] (head (schedules w))))) as [Hrest Hends].
  fold (fan_run vc v conns w) in Hrest, Hends.
  unfold fanout. set (s := fan_run vc v conns w) in *. simpl.
  destruct Hinv. rewrite Hrest, app_nil_r in fi_split0. subst seen.
  assert (Hout : ∀ q c, heap w !! q = Some c → due vc c = false →
                   (q, AtEnd) ∉ fo_eg s).
  { intros q c Hc Hd Hin. destruct (fi_eg_seen0 q _ Hin) as [_ (c' & Hc' & Hd')].
    change (heap w0 !! q) with (heap w !! q) in Hc'. congruence. }
  assert (Hdone : ∀ q c, q ∈ conns → heap w !! q = Some c → due vc c = true →
                    (q, AtEnd) ∈ fo_eg s).
  { intros q c Hq Hc Hd. destruct (fi_seen_eg0 q c Hq Hc Hd) as [st Hst].
    by rewrite <- (Hends q st Hst). }
  split; simpl.
  - done.
  - done.
  - intros e He. destruct (fi_events0 e He) as (q & st & c & Hq & _ & Hc & Hev).
    destruct (fi_eg_seen0 q st Hq) as [Hs (c' & Hc' & Hd)].
    exists q, c. split; [done|]. split; [done|]. split; [congruence|done].
  - intros q c Hq Hc Hd. apply (fi_written0 q AtEnd c); [|done..].
    by apply (Hdone q c).
  - done.
  - intros q Hq. by destruct (fi_new0 q Hq).
  - intros q Hq. apply fi_heap0. intros Hin. apply Hq.
    by destruct (fi_eg_seen0 q _ Hin).
  - intros q Hq.
    assert (Hne : (q, AtEnd) ∉ fo_eg s).
    { intros Hin. destruct (fi_eg_seen0 q _ Hin) as [_ (c' & Hc' & _)].
      change (heap w0 !! q) with (heap w !! q) in Hc'. congruence. }
    split; [by rewrite fi_heap0|].
    intros Hin. destruct (fi_new0 q Hin) as [_ [Hend|(c & Hc & _)]]; [done|].
    change (heap w0 !! q) with (heap w !! q) in Hc. congruence.
  - intros q c Hc Hd. split; [rewrite fi_heap0; [done|by apply (Hout q c)]|].
    split.
    + intros Hin. destruct (fi_new0 q Hin) as [Hs [Hend|(c' & Hc' & Hopen & _)]].
      * by destruct (Hout q c Hc Hd).
      * change (heap w0 !! q) with (heap w !! q) in Hc'. split; [done|congruence].
    + intros [Hq Hopen]. by apply (fi_quiet0 q c).
  - intros q c Hq Hc Hd.
    destruct (fi_end0 q (Hdone q c Hq Hc Hd)) as (c' & Hc' & Hcase).
    change (heap w0 !! q) with (heap w !! q) in Hc'. by simplify_eq.
  - intros Hall q c Hq Hc Hd.
    destruct (Hdead Hall) as [_ _ Hclosed].
    pose proof (Hclosed q (Hdone q c Hq Hc Hd)) as Hcl.
    destruct (fi_end0 q (Hdone q c Hq Hc Hd)) as (c' & Hc' & Hcase).
    change (heap w0 !! q) with (heap w !! q) in Hc'. simplify_eq.
    destruct Hcase as [[Hh _]|Hcase]; [|done].
    rewrite Hh in Hcl. simpl in Hcl. unfold due in Hd.
    destruct (IsClosed c); [done|congruence].
Qed.

(** A sweep that is not cancelled and gets its pods listed and transformed
    runs the loop on the table and stores what the loop and its goroutines
    kept. *)
Lemma send_built a w pods v :
  pollingDone a = false →
  ToKubePodSchemas (clusterID a) pods = inr v →
  NoDup (table a w) →
  sweep_post a w v (send ToKubePodSchemas (inr pods) a w).
Proof.
  intros Hdone Hv Hnd. unfold send. rewrite Hdone, Hv.
  fold (table a w). fold (view_changed a v). fold (resync_of a).
  set (w1 := if view_changed a v then spawn (resync_of a) w else w).
  assert (Hh : heap w1 = heap w) by (unfold w1; by destruct (view_changed a v)).
  assert (Hd : dead w1 = dead w) by (unfold w1; by destruct (view_changed a v)).
  assert (Ht : trace w1 = trace w) by (unfold w1; by destruct (view_changed a v)).
  pose proof (fanout_spec (view_changed a v) v (table a w) w1 Hnd) as Hpost.
  pose proof (fanout_frame (view_changed a v) v (table a w) w1) as Hframe.
  destruct (fanout (view_changed a v) v (table a w) w1) as [newConns w2].
  destruct Hframe as [Hft Hff Hfk Hfi Hfs]. simpl in *.
  assert (Htab : table a (set_conns (<[cachedKey a := newConns]>
                                       (deploymentPodsWsConns w2)) w2) = newConns).
  { unfold table. simpl. by rewrite lookup_insert_eq. }
  split; simpl.
  - done.
  - done.
  - rewrite Hff. unfold w1. by destruct (view_changed a v).
  - rewrite Hfi. unfold w1. by destruct (view_changed a v).
  - rewrite Hfs. unfold w1. by destruct (view_changed a v).
  - rewrite Hfk. unfold w1.
    destruct (view_changed a v); simpl; [done|by rewrite app_nil_r].
  - rewrite Htab, Hft. unfold w1. by destruct (view_changed a v).
  - rewrite Htab. clear Hh Hd Ht. unfold w1 in *.
    destruct (view_changed a v); destruct Hpost; by split.
Qed.

End FanoutFacts.

Section DeploymentSweep.

Import Deployment Sweep.

Variable ToKubePodSchemas : nat → list Pod → error + list KubePodSchema.

Lemma distinct_sockets_inj w conns p q s :
  NoDup (omap (sock_at w) conns) → p ∈ conns → q ∈ conns →
  sock_at w p = Some s → sock_at w q = Some s → p = q.
Proof.
  induction conns as [|x conns IH]; intros Hnd Hp Hq Hsp Hsq.
  - by apply elem_of_nil in Hp.
  - simpl in Hnd. apply elem_of_cons in Hp, Hq.
    destruct (sock_at w x) as [sx|] eqn:Hsx.
    + apply NoDup_cons in Hnd as [Hfresh Hnd].
      destruct Hp as [->|Hp], Hq as [->|Hq]; [done| | |by apply IH].
      * exfalso. apply Hfresh. apply list_elem_of_omap. exists q.
        split; [done|]. congruence.
      * exfalso. apply Hfresh. apply list_elem_of_omap. exists p.
        split; [done|]. congruence.
    + destruct Hp as [->|Hp]; [congruence|].
      destruct Hq as [->|Hq]; [congruence|]. by apply IH.
Qed.

Lemma due_iff a v c :
  IsClosed c = false →
  due (view_changed a v) c = true ↔ (v ≠ podSchemas a ∨ IsNew c = true).
Proof.
  intros Hc. unfold due, view_changed. rewrite Hc. simpl.
  destruct (IsNew c); simpl.
  - split; [by right|done].
  - rewrite negb_true_iff, bool_decide_eq_false. split.
    + intros H. left. congruence.
    + intros [H|H]; [congruence|done].
Qed.

(** C1, as amended.  In a sweep of a deployment's group that builds a view,
    an open session is handed a frame exactly when the view differs from the
    manager's last one or the session is marked new; the built view becomes
    the last one; with an unchanged view and no session marked new the sweep
    writes nothing and touches no socket. *)
Theorem deployment_sweep_writes_iff_changed_or_new a w pods v :
  pollingDone a = false →
  ToKubePodSchemas (clusterID a) pods = inr v →
  sessions_distinct w (table a w) →
  ∃ evs,
    trace (send ToKubePodSchemas (inr pods) a w).2 = trace w ++ evs ∧
    podSchemas (send ToKubePodSchemas (inr pods) a w).1.2 = v ∧
    (∀ p c, p ∈ table a w → heap w !! p = Some c → IsClosed c = false →
       written_to (Conn c) v evs ↔ (v ≠ podSchemas a ∨ IsNew c = true)) ∧
    (v = podSchemas a →
     (∀ p c, p ∈ table a w → heap w !! p = Some c → IsNew c = false) →
     evs = []).
Proof.
  intros Hdone Hv [Hnd Hsocks].
  destruct (send_built ToKubePodSchemas a w pods v Hdone Hv Hnd)
    as [_ Hact _ _ _ _ _ [_ Htrace Hevents Hwritten _ _ _ _ _ _ _]].
  simpl in *.
  exists (since w (send ToKubePodSchemas (inr pods) a w).2).
  split; [done|]. split; [by rewrite Hact|]. split.
  - intros p c Hp Hc Hopen. rewrite <- (due_iff a v c Hopen). split.
    + intros [ok Hin].
      destruct (Hevents _ Hin) as (q & cq & Hq & Hcq & Hdue & [(ok' & Heq & _)|Heq]);
        [|done].
      assert (q = p) as ->.
      { apply (distinct_sockets_inj w (table a w) q p (Conn c)); try done.
        - unfold sock_at. rewrite Hcq. simpl. f_equal. congruence.
        - unfold sock_at. by rewrite Hc. }
      congruence.
    + intros Hdue. by apply (Hwritten p c).
  - intros Hsame Hnone.
    destruct (since w (send ToKubePodSchemas (inr pods) a w).2) as [|e evs] eqn:He;
      [done|].
    destruct (Hevents e) as (q & cq & Hq & Hcq & Hdue & _); [by left|].
    exfalso. unfold due, view_changed in Hdue.
    rewrite (Hnone q cq Hq Hcq), bool_decide_eq_true_2 in Hdue by done.
    simpl in Hdue. by rewrite andb_false_r in Hdue.
Qed.

End DeploymentSweep.

(** C1, a run against the claim as written: on the cluster stream two
    sweeps over the same pods both write the view to the socket. *)
Lemma cluster_sweep_repeats_unchanged_view :
  let pods := [Sample.pod "p1" "Running"] in
  let r1 := Cluster.send Sample.transform (inr pods)
              (Sample.cluster_activation 0 100 0) empty_world in
  let r2 := Cluster.send Sample.transform (inr pods) r1.1 r1.2 in
  trace r2.2 =
  trace r1.2 ++ [EvWrite 100 (success_frame [Sample.schema "p1" "Running"]) true].
Proof. vm_compute. reflexivity. Qed.

(** The sweep of the manager of two sessions after [p1] went from pending
    to running. *)
Lemma deployment_sweep_writes_iff_changed_or_new_witness :
  let a := Sample.activation 0 100 0 [Sample.schema "p1" "Pending"] in
  let w := Sample.two_sessions in
  let pods := [Sample.pod "p1" "Running"] in
  let v := [Sample.schema "p1" "Running"] in
  Deployment.pollingDone a = false ∧
  Sample.transform_in (Deployment.clusterID a) pods = inr v ∧
  Sweep.sessions_distinct w (Sweep.table a w) ∧
  ∃ evs,
    trace (Deployment.send Sample.transform_in (inr pods) a w).2 = trace w ++ evs ∧
    Deployment.podSchemas (Deployment.send Sample.transform_in (inr pods) a w).1.2 = v ∧
    (∀ p c, p ∈ Sweep.table a w → heap w !! p = Some c → IsClosed c = false →
       Sweep.written_to (Conn c) v evs ↔ (v ≠ Deployment.podSchemas a ∨ IsNew c = true)) ∧
    (v = Deployment.podSchemas a →
     (∀ p c, p ∈ Sweep.table a w → heap w !! p = Some c → IsNew c = false) →
     evs = []).
Proof.
  intros a w pods v.
  assert (H1 : Deployment.pollingDone a = false) by reflexivity.
  assert (H2 : Sample.transform_in (Deployment.clusterID a) pods = inr v)
    by reflexivity.
  assert (H3 : Sweep.sessions_distinct w (Sweep.table a w)).
  { unfold Sweep.sessions_distinct.
    by_evaluation. }
  split; [exact H1|]. split; [exact H2|]. split; [exact H3|].
  exact (deployment_sweep_writes_iff_changed_or_new
           Sample.transform_in a w pods v H1 H2 H3).
Defined.

(** ** The manager flag under interleaving *)

(** A handler that finds the flag set goes back to sleep on its ticker. *)
Lemma wait_iter_waits_on_manager (a : Deployment.activation) (w : world) :
  Deployment.pollingDone a = false →
  deploymentPodsWsHasManagers w !! Deployment.cachedKey a = Some true →
  Deployment.wait_iter a w = Deployment.WaitTick.
Proof. intros Hd Hm. unfold Deployment.wait_iter. by rewrite Hd, Hm. Qed.

(** C2, the code at a schedule it can meet.  Two sessions of deployment 7
    arrive while no manager runs; both read the flag ([Poll]) before either
    sets it ([Claim]), both leave the waiting loop, and both end up holding
    the manager role with their callbacks registered. *)
Lemma two_managers_after_racing_polls :
  let pods := [Sample.pod "p1" "Pending"] in
  let s := Group.run_all Sample.transform_in
             [Group.Arrive (Sample.request 0 100 pods);
              Group.Arrive (Sample.request 1 101 pods);
              Group.Poll 0; Group.Poll 1; Group.Claim 0; Group.Claim 1]
             Group.start in
  length (Group.managers "7" s) = 2 ∧ informer (Group.sys_world s) = [0; 1].
Proof. vm_compute. split; reflexivity. Qed.

(** ** The [IsNew] flag *)

Section IsNewFlag.

Import Deployment Sweep.

Variable ToKubePodSchemas : nat → list Pod → error + list KubePodSchema.

Lemma none_new_WriteJSON c f w : none_new w → none_new (WriteJSON c f w).2.
Proof. unfold WriteJSON. by case_decide. Qed.

Lemma none_new_writeWsError c e w : none_new w → none_new (writeWsError c e w).
Proof. destruct e; [apply none_new_WriteJSON|done]. Qed.

Lemma none_new_deferred c e w : none_new w → none_new (deferred c e w).
Proof. intros H. by apply (none_new_writeWsError c e) in H. Qed.

Lemma none_new_step vc v s i :
  none_new (fo_world s) → none_new (fo_world (fan_step vc v s i)).
Proof.
  intros Hs. destruct i as [|i]; simpl.
  - unfold loop_step. destruct (fo_conns s) as [|p conns']; [done|].
    destruct (heap (fo_world s) !! p) as [c|]; [|done].
    destruct (IsClosed c); [done|]. by destruct (negb (IsNew c) && negb vc).
  - unfold task_step. destruct (fo_eg s !! i) as [[p []]|]; try done.
    + destruct (heap (fo_world s) !! p) as [c|]; [|done].
      unfold WriteJSON. by case_decide.
    + destruct (heap (fo_world s) !! p) as [c|] eqn:Hc; [|done].
      unfold none_new. simpl. apply map_Forall_insert_2; [|done].
      by apply (Hs p c).
    + unfold none_new. simpl. intros q cq. rewrite lookup_alter.
      case_decide; [|intros Hq; exact (Hs q cq Hq)].
      destruct (heap (fo_world s) !! p); simpl; [by intros [= <-]|by intros ?].
Qed.

Lemma none_new_fanout vc v conns w :
  none_new w → none_new (fanout vc v conns w).2.
Proof.
  intros Hw. unfold fanout. simpl.
  apply (fan_run_ind (λ s, none_new (fo_world s))); [|done].
  intros s i. apply none_new_step.
Qed.

Lemma none_new_send listed a w :
  none_new w → none_new (send ToKubePodSchemas listed a w).2.
Proof.
  intros Hw. unfold send. destruct (pollingDone a); [done|].
  destruct listed as [e|pods]; [done|].
  destruct (ToKubePodSchemas (clusterID a) pods) as [e|v]; [done|].
  set (w1 := if negb (bool_decide (podSchemas a = v)) then _ else w).
  assert (Hw1 : none_new w1) by (unfold w1; by case_match).
  pose proof (none_new_fanout (negb (bool_decide (podSchemas a = v))) v
                (default [] (deploymentPodsWsConns w !! cachedKey a)) w1 Hw1).
  by destruct (fanout _ _ _ _).
Qed.

Lemma none_new_send_ listed a w :
  none_new w → none_new (send_ ToKubePodSchemas listed a w).2.
Proof.
  intros Hw. unfold send_.
  pose proof (none_new_send listed a w Hw) as H.
  destruct (send ToKubePodSchemas listed a w) as [[e a1] w1]. simpl in *.
  apply (none_new_writeWsError (conn (set_err e a1)) e) in H.
  by destruct e.
Qed.

Lemma none_new_open rq w :
  none_new w → none_new (WsPods_open ToKubePodSchemas rq w).2.
Proof.
  intros Hw. unfold WsPods_open.
  destruct (rq_Upgrade rq) as [e|c]; [done|].
  destruct (rq_GetDeployment rq) as [e|d]; [by apply none_new_deferred|].
  destruct (rq_canView rq) as [e|]; [by apply none_new_deferred|].
  unfold attach.
  set (p := fresh (dom (heap w))).
  set (w1 := set_conns _ _).
  assert (Hw1 : none_new w1).
  { unfold none_new, w1. simpl. by apply map_Forall_insert_2. }
  destruct (rq_GetCluster rq) as [e|cid]; [by apply none_new_deferred|].
  destruct (rq_GetPodInformer rq) as [e|]; [by apply none_new_deferred|].
  destruct (rq_ListPods rq) as [e|pods]; [by apply none_new_deferred|].
  destruct (ToKubePodSchemas cid pods) as [e|v]; [by apply none_new_deferred|].
  pose proof (none_new_WriteJSON c (success_frame v) w1 Hw1) as Hw2.
  destruct (WriteJSON c (success_frame v) w1) as [[e|] w2]; simpl in *.
  - by apply none_new_deferred.
  - unfold none_new. simpl. intros q cq. rewrite lookup_alter.
    case_decide; [|intros Hq; exact (Hw2 q cq Hq)].
    destruct (heap w2 !! p); simpl; [by intros [= <-]|by intros ?].
Qed.

Lemma none_new_run m s :
  none_new (Group.sys_world s) →
  none_new (Group.sys_world (Group.run ToKubePodSchemas m s)).
Proof.
  intros Hs. destruct m as [rq|i|i|i|i o listed|i|order]; simpl.
  - pose proof (none_new_open rq _ Hs).
    by destruct (WsPods_open _ _ _) as [[e|a] w'].
  - destruct (Group.sys_handlers s !! i) as [[a []]|]; try done.
    unfold wait_iter. destruct (pollingDone a); simpl.
    + by apply none_new_deferred.
    + by case_match.
  - by destruct (Group.sys_handlers s !! i) as [[a []]|].
  - destruct (Group.sys_handlers s !! i) as [[a []]|]; try done.
    unfold manager_turn, manager_iter.
    destruct (pollingDone a); [by apply none_new_deferred|].
    case_bool_decide; [by apply none_new_deferred|done].
  - destruct (Group.sys_handlers s !! i) as [[a ph]|]; [|done].
    case_bool_decide; [|done]. unfold AddFunc.
    destruct (negb (checkPod a o)); [done|].
    pose proof (none_new_send_ listed a _ Hs).
    by destruct (send_ _ _ _ _).
  - by destruct (Group.sys_handlers s !! i) as [[a ph]|].
  - done.
Qed.

(** Whatever the handlers of a process do and in whatever order, no
    session is ever marked new: [attach] creates the wrapper with [IsNew]
    false and every later assignment to the flag writes false. *)
Theorem no_session_is_ever_new (ms : list Group.move) :
  none_new (Group.sys_world (Group.run_all ToKubePodSchemas ms Group.start)).
Proof.
  unfold Group.run_all.
  assert (H0 : none_new (Group.sys_world Group.start)) by apply map_Forall_empty.
  revert H0. generalize Group.start.
  induction ms as [|m ms IH]; intros s Hs; [done|].
  simpl. apply IH. by apply none_new_run.
Qed.

End IsNewFlag.

(** C3, the code at the failing input.  A second session attaches to
    deployment 7: its wrapper is not new from the moment [attach] publishes
    it.  Its first write fails; it is left in the table, open and not new,
    and the manager's next sweep over the same pods does not write to it. *)
Lemma failed_first_write_is_not_retried :
  let pods := [Sample.pod "p1" "Pending"] in
  let w1 := (Deployment.WsPods_open Sample.transform_in
               (Sample.request 0 100 pods) empty_world).2 in
  let r2 := Deployment.WsPods_open Sample.transform_in
               (Sample.request 1 101 pods) (peer_gone 101 w1) in
  let r3 := Deployment.send Sample.transform_in (inr pods)
               (Sample.activation 0 100 0 [Sample.schema "p1" "Pending"]) r2.2 in
  heap (Deployment.attach "7" 101 (peer_gone 101 w1)).2 !! 1
    = Some {| Conn := 101; IsNew := false; IsClosed := false |} ∧
  r2.1 = Deployment.Returned (Some "ws write json failed: write: connection closed") ∧
  heap r2.2 !! 1 = Some {| Conn := 101; IsNew := false; IsClosed := false |} ∧
  deploymentPodsWsConns r3.2 !! "7" = Some [0; 1] ∧
  trace r3.2 = trace r2.2.
Proof. vm_compute. repeat split; reflexivity. Qed.

(** ** The failure counter of the deployment stream *)

Section FailureCounter.

Import Deployment Sweep.

Variable ToKubePodSchemas : nat → list Pod → error + list KubePodSchema.

Lemma Inc_small (z : Z) : (-1 ≤ z < 2 ^ 63 - 1)%Z → Inc z = (z + 1)%Z.
Proof.
  intros H. unfold Inc, int64_wrap.
  rewrite Z.mod_small; lia.
Qed.




End FailureCounter.


(** Ten failed sweeps in a row leave the manager running. *)
Lemma ten_failed_sweeps_do_not_stop_the_manager :
  let ls : list (error + list Pod) := replicate 10 (inl "lister unavailable") in
  let r := Sweep.sweeps Sample.transform_in ls
             (Sample.activation 0 100 0 []) Sample.two_sessions in
  Deployment.failedCount r.1 = 10%Z ∧ Deployment.manager_turn r.1 r.2 = None.
Proof. vm_compute. split; reflexivity. Qed.

(** ** The failure counter of the cluster stream *)

Section ClusterCounter.

Variable ToKubePodSchemas : list Pod → error + list KubePodSchema.

(** [send] of cluster.go writes to the counter through [fail] alone. *)
Lemma cluster_send_never_resets listed a w :
  let r := Cluster.send ToKubePodSchemas listed a w in
  Cluster.failedCount r.1 = Cluster.failedCount a ∨
  Cluster.failedCount r.1 = Inc (Cluster.failedCount a).
Proof.
  unfold Cluster.send. destruct listed as [e|pods]; [by right|].
  destruct (ToKubePodSchemas pods) as [e|v]; [by right|].
  unfold WriteJSON. case_decide; [by right|by left].
Qed.

End ClusterCounter.

(** deployment.go: a sweep that builds its view stores zero. *)
Lemma deployment_clean_sweep_resets_counter
    (ToKubePodSchemas : nat → list Pod → error + list KubePodSchema) a w pods v :
  Deployment.pollingDone a = false →
  ToKubePodSchemas (Deployment.clusterID a) pods = inr v →
  Deployment.failedCount (Deployment.send ToKubePodSchemas (inr pods) a w).1.2 = 0%Z.
Proof.
  intros Hd Hv. unfold Deployment.send. rewrite Hd, Hv.
  by destruct (Deployment.fanout _ _ _ _).
Qed.

(** C5, the code at the failing input.  On the cluster stream one failed
    sweep followed by a clean one, which writes the view, leaves the counter
    at 1; the deployment stream's [send] stores 0 there. *)
Lemma cluster_counter_survives_clean_sweep :
  let pods := [Sample.pod "p1" "Running"] in
  let r1 := Cluster.send Sample.transform (inl "lister unavailable")
              (Sample.cluster_activation 0 100 0) empty_world in
  let r2 := Cluster.send Sample.transform (inr pods) r1.1 r1.2 in
  trace r2.2 = [EvWrite 100 (success_frame [Sample.schema "p1" "Running"]) true] ∧
  Cluster.failedCount r2.1 = 1%Z.
Proof. vm_compute. split; reflexivity. Qed.

(** ** Failures of the handler after the upgrade *)

Section HandlerFailures.

Variable ToKubePodSchemas : nat → list Pod → error + list KubePodSchema.

(** deployment.go: a deployment that is not found, or one the caller may
    not view, yields one error frame and then the close. *)
Lemma deployment_failure_frame_then_close rq c e w :
  Deployment.rq_Upgrade rq = inr c →
  (Deployment.rq_GetDeployment rq = inl e ∨
   (∃ d, Deployment.rq_GetDeployment rq = inr d) ∧ Deployment.rq_canView rq = Some e) →
  ∃ ok, Deployment.WsPods_open ToKubePodSchemas rq w =
        (Deployment.Returned (Some e),
         log (EvClose c) (set_dead ({[c]} ∪ dead w) (log (EvWrite c (error_frame e) ok) w))).
Proof.
  intros Hu H. unfold Deployment.WsPods_open. rewrite Hu.
  destruct H as [->|[[d ->] ->]];
    unfold Deployment.deferred, writeWsError, WriteJSON, Close;
    case_decide; by eexists.
Qed.

End HandlerFailures.

(** C6, the code at the failing inputs.  On the cluster stream a cluster
    that is not found and a caller who may not view it get the socket
    closed with no frame at all: the error frame is deferred only after both
    checks.  A selector that does not parse gets the frame and the close. *)
Lemma cluster_not_found_or_denied_closes_silently :
  let rq (found allowed : option error) (sel : error + Cluster.Selector) :=
    {| Cluster.rq_id := 0; Cluster.rq_Upgrade := inr 100;
       Cluster.rq_GetCluster := found; Cluster.rq_canView := allowed;
       Cluster.rq_Parse := sel; Cluster.rq_GetPodInformer := None;
       Cluster.rq_ListPods := inr [] |} in
  let run r := trace (Cluster.WsPods_open Sample.transform r empty_world).2 in
  run (rq (Some "get cluster k1: record not found") None (inr (λ _, true)))
    = [EvClose 100] ∧
  run (rq None (Some "forbidden") (inr (λ _, true))) = [EvClose 100] ∧
  run (rq None None (inl "unable to parse requirement"))
    = [EvWrite 100 (error_frame "unable to parse requirement") true; EvClose 100].
Proof. vm_compute. repeat split; reflexivity. Qed.

(** ** One failing socket in a sweep *)

(** C7, the code at two schedules it can meet.  Two sessions of deployment
    7, the peer of the second gone, and a changed view.  Every goroutine of
    the fan-out assigns the result of its write to the one [err] of [send]
    and then tests that variable.

    First run: the goroutine of the dead socket writes, the goroutine of the
    live socket writes, and only then the first one tests [err]; it reads
    the nil of the other write, so the session on the dead socket is kept in
    the table, open, and its socket is not closed.

    Second run: the goroutine of the live socket writes, the goroutine of
    the dead socket writes, and then the first one tests [err]; it reads the
    failure of the other write, so the live session, which was handed the
    frame, is closed and dropped from the table.

    In both runs the sweep reports no error and the failure counter is at
    zero. *)
Lemma failed_write_is_read_from_shared_err :
  let a := Sample.activation 0 100 0 [Sample.schema "p1" "Pending"] in
  let pods := [Sample.pod "p1" "Running"] in
  let frame := success_frame [Sample.schema "p1" "Running"] in
  let run order :=
    let w := set_schedules [order] (peer_gone 101 Sample.two_sessions) in
    let r := Deployment.send_ Sample.transform_in (inr pods) a w in
    (Sweep.since w r.2, deploymentPodsWsConns r.2 !! "7",
     heap r.2 !! 0, heap r.2 !! 1,
     Deployment.err r.1, Deployment.failedCount r.1) in
  run [0; 0; 2; 1; 2; 1] =
    ([EvWrite 101 frame false; EvWrite 100 frame true], Some [0; 1],
     Some {| Conn := 100; IsNew := false; IsClosed := false |},
     Some {| Conn := 101; IsNew := false; IsClosed := false |},
     None, 0%Z) ∧
  run [0; 0; 1; 2; 1] =
    ([EvWrite 100 frame true; EvWrite 101 frame false; EvClose 100; EvClose 101],
     Some [],
     Some {| Conn := 100; IsNew := false; IsClosed := true |},
     Some {| Conn := 101; IsNew := false; IsClosed := true |},
     None, 0%Z).
Proof. vm_compute. split; reflexivity. Qed.

(** ** The re-sync started by a changed view *)

Section Resync.

Import Deployment Sweep.

Variable ToKubePodSchemas : nat → list Pod → error + list KubePodSchema.

Lemma fanout_tasks vc v conns w : tasks (fanout vc v conns w).2 = tasks w.
Proof. by destruct (fanout_frame vc v conns w). Qed.

(** C8, as amended.  A sweep that builds a view different from the last
    one starts one task, with a timeout of ten seconds, for the deployment
    of the stream; a sweep whose view is unchanged starts none.  The task
    fetches the deployment: when the fetch fails it writes an error frame to
    the manager's socket and counts one failure; when the fetch succeeds it
    calls the status re-sync, and the counter is left as it was whatever the
    re-sync answers. *)
Theorem changed_view_starts_resync a w pods v :
  pollingDone a = false →
  ToKubePodSchemas (clusterID a) pods = inr v →
  tasks (send ToKubePodSchemas (inr pods) a w).2 =
    tasks w ++ (if decide (v = podSchemas a) then [] else [resync_of a]) ∧
  st_timeout_seconds (resync_of a) = 10 ∧
  st_deployment (resync_of a) = ID (deployment a) ∧
  ∀ got synced b u,
    let r := run_sync_task (resync_of a) got synced b u in
    match got with
    | inl e =>
        failedCount r.1 = Inc (failedCount b) ∧
        trace r.2 = trace u ++ [EvGet (ID (deployment a));
                                EvWrite (conn a) (error_frame e)
                                  (bool_decide (conn a ∉ dead u))]
    | inr d =>
        failedCount r.1 = failedCount b ∧
        trace r.2 = trace u ++ [EvGet (ID (deployment a)); EvSyncStatus (ID d)]
    end.
Proof.
  intros Hd Hv. split; [|split; [done|split; [done|]]].
  - unfold send. rewrite Hd, Hv. fold (resync_of a).
    set (w1 := if negb (bool_decide (podSchemas a = v)) then _ else w).
    pose proof (fanout_tasks (negb (bool_decide (podSchemas a = v))) v
                  (default [] (deploymentPodsWsConns w !! cachedKey a)) w1) as Ht.
    destruct (fanout _ _ _ _) as [newConns w2]. simpl in *. rewrite Ht.
    unfold w1. case_decide as Hsame.
    + rewrite bool_decide_eq_true_2 by done. simpl. by rewrite app_nil_r.
    + rewrite bool_decide_eq_false_2 by congruence. done.
  - intros got synced b u. destruct got as [e|d]; simpl.
    + split; [done|]. unfold WriteJSON. simpl.
      case_decide.
      * rewrite bool_decide_eq_false_2 by (by intros ?). simpl.
        by rewrite <- (assoc_L (++)).
      * rewrite bool_decide_eq_true_2 by done. simpl.
        by rewrite <- (assoc_L (++)).
    + split; [done|]. by rewrite <- (assoc_L (++)).
Qed.

End Resync.

(** The sweep after [p1] went from pending to running starts the task for
    deployment 7. *)
Lemma changed_view_starts_resync_witness :
  let a := Sample.activation 0 100 0 [Sample.schema "p1" "Pending"] in
  let w := Sample.two_sessions in
  let pods := [Sample.pod "p1" "Running"] in
  let v := [Sample.schema "p1" "Running"] in
  Deployment.pollingDone a = false ∧
  Sample.transform_in (Deployment.clusterID a) pods = inr v ∧
  tasks (Deployment.send Sample.transform_in (inr pods) a w).2
    = [{| st_timeout_seconds := 10; st_deployment := 7; st_conn := 100 |}].
Proof.
  intros a w pods v.
  assert (H1 : Deployment.pollingDone a = false) by reflexivity.
  assert (H2 : Sample.transform_in (Deployment.clusterID a) pods = inr v)
    by reflexivity.
  split; [exact H1|]. split; [exact H2|].
  destruct (changed_view_starts_resync Sample.transform_in a w pods v H1 H2)
    as [Ht _].
  rewrite Ht. vm_compute. reflexivity.
Defined.

(** C8, a run against the claim as written: the fetch succeeds, the
    re-sync fails, and the counter stays at zero. *)
Lemma failed_resync_is_not_counted :
  let a := Sample.activation 0 100 0 [Sample.schema "p1" "Pending"] in
  let r := Deployment.run_sync_task (Sweep.resync_of a) (inr Sample.bento)
             (Some "sync status: context deadline exceeded") a empty_world in
  Deployment.failedCount r.1 = 0%Z ∧ trace r.2 = [EvGet 7; EvSyncStatus 7].
Proof. vm_compute. split; reflexivity. Qed.

(** ** A first write that fails *)

Section FirstWrite.

Import Deployment Sweep.

Variable ToKubePodSchemas : nat → list Pod → error + list KubePodSchema.

Lemma WriteJSON_dead c f w :
  c ∈ dead w →
  WriteJSON c f w = (Some "write: connection closed", log (EvWrite c f false) w).
Proof. intros H. unfold WriteJSON. by rewrite decide_True. Qed.

(** C9, as amended.  When the first snapshot cannot be written the handler
    returns the error at once: it tries an error frame on the same socket
    and closes it.  The wrapper keeps [IsClosed] false and stays in the
    table of its deployment.  A later sweep that does not write to it
    leaves it where it is.  A later sweep that writes to it sees the write
    fail; its goroutine then marks the session closed and drops it from the
    table, or keeps it open in the table, as the [err] it tests tells.  It
    is marked closed and dropped whenever every socket that sweep writes to
    is dead, so whenever it is the only session written to. *)
Theorem failed_first_write_is_left_to_a_sweep rq w c d cid pods v :
  rq_Upgrade rq = inr c → rq_GetDeployment rq = inr d → rq_canView rq = None →
  rq_GetCluster rq = inr cid → rq_GetPodInformer rq = None →
  rq_ListPods rq = inr pods → ToKubePodSchemas cid pods = inr v →
  c ∈ dead w →
  let p := fresh (dom (heap w)) in
  let r := WsPods_open ToKubePodSchemas rq w in
  (∃ e, r.1 = Returned (Some e) ∧
        trace r.2 = trace w ++ [EvWrite c (success_frame v) false;
                                EvWrite c (error_frame e) false; EvClose c]) ∧
  c ∈ dead r.2 ∧
  heap r.2 !! p = Some {| Conn := c; IsNew := false; IsClosed := false |} ∧
  p ∈ default [] (deploymentPodsWsConns r.2 !! pretty (ID d)) ∧
  ∀ a u pods' v' c',
    pollingDone a = false → ToKubePodSchemas (clusterID a) pods' = inr v' →
    NoDup (table a u) → p ∈ table a u →
    heap u !! p = Some c' → Conn c' = c → IsClosed c' = false → c ∈ dead u →
    let r' := send ToKubePodSchemas (inr pods') a u in
    if due (view_changed a v') c'
    then EvWrite c (success_frame v') false ∈ since u r'.2 ∧
         ((heap r'.2 !! p = Some (with_IsClosed true c') ∧ p ∉ table a r'.2) ∨
          (heap r'.2 !! p = Some (with_IsNew false c') ∧ p ∈ table a r'.2)) ∧
         ((∀ q cq, q ∈ table a u → heap u !! q = Some cq →
                   due (view_changed a v') cq = true → Conn cq ∈ dead u) →
          heap r'.2 !! p = Some (with_IsClosed true c') ∧ p ∉ table a r'.2)
    else heap r'.2 !! p = Some c' ∧ p ∈ table a r'.2.
Proof.
  intros Hu Hg Hcv Hcl Hi Hl Hv Hdead p r.
  subst p. unfold r, WsPods_open. rewrite Hu, Hg, Hcv. unfold attach.
  rewrite Hcl, Hi, Hl, Hv.
  set (w1 := set_conns _ _).
  assert (Hd1 : c ∈ dead w1) by done.
  rewrite (WriteJSON_dead c _ w1 Hd1).
  unfold deferred, writeWsError.
  rewrite (WriteJSON_dead c _ (log _ w1)) by done.
  unfold Close, w1. simpl.
  split; [eexists; split; [done|by rewrite <- !(assoc_L (++))]|].
  split; [apply elem_of_union_l; by apply elem_of_singleton|].
  split; [by rewrite lookup_insert_eq|].
  split.
  { rewrite lookup_insert_eq. simpl. apply elem_of_app. right. by left. }
  generalize (fresh (dom (heap w))). clear.
  intros p a u pods' v' c' Hd Hv' Hnd Hp Hc' Hconn Hopen Hdead'.
  destruct (send_built ToKubePodSchemas a u pods' v' Hd Hv' Hnd)
    as [_ _ _ _ _ _ _ [_ _ Hevents Hwritten _ _ _ _ Hquiet Hdue Hall]].
  simpl in *. subst c.
  destruct (due (view_changed a v') c') eqn:Hdue'.
  - split; [|split].
    + destruct (Hwritten p c' Hp Hc' Hdue') as [ok Hin].
      destruct (Hevents _ Hin) as (q & cq & _ & _ & _ & [(ok' & Heq & Hfail)|Heq]);
        [|done].
      injection Heq as Hs ->. rewrite <- Hfail; [done|]. by rewrite <- Hs.
    + destruct (Hdue p c' Hp Hc' Hdue') as [?|?]; [by right|by left].
    + intros Hdeads. by apply (Hall Hdeads p c').
  - destruct (Hquiet p c' Hc' Hdue') as [Hh Hin]. split; [done|]. by apply Hin.
Qed.

End FirstWrite.

(** A second session of deployment 7 whose peer is gone before the first
    snapshot is written. *)
Lemma failed_first_write_is_left_to_a_sweep_witness :
  let pods := [Sample.pod "p1" "Pending"] in
  let rq := Sample.request 1 101 pods in
  let v := [Sample.schema "p1" "Pending"] in
  let w := peer_gone 101
             (Deployment.WsPods_open Sample.transform_in
                (Sample.request 0 100 pods) empty_world).2 in
  Deployment.rq_Upgrade rq = inr 101 ∧
  Deployment.rq_GetDeployment rq = inr Sample.bento ∧
  Deployment.rq_canView rq = None ∧ Deployment.rq_GetCluster rq = inr 1 ∧
  Deployment.rq_GetPodInformer rq = None ∧
  Deployment.rq_ListPods rq = inr pods ∧ Sample.transform_in 1 pods = inr v ∧
  101 ∈ dead w ∧
  let r := Deployment.WsPods_open Sample.transform_in rq w in
  heap r.2 !! fresh (dom (heap w))
    = Some {| Conn := 101; IsNew := false; IsClosed := false |} ∧
  fresh (dom (heap w)) ∈ default [] (deploymentPodsWsConns r.2 !! "7").
Proof.
  intros pods rq v w.
  assert (H8 : 101 ∈ dead w)
    by by_evaluation.
  do 7 (split; [reflexivity|]). split; [exact H8|].
  destruct (failed_first_write_is_left_to_a_sweep Sample.transform_in rq w
              101 Sample.bento 1 pods v eq_refl eq_refl eq_refl eq_refl
              eq_refl eq_refl eq_refl H8)
    as (_ & _ & Hheap & Htable & _).
  split; [exact Hheap|exact Htable].
Defined.

(** C9, a run against the claim as written: after the failed first write
    the session is still in the table with [IsClosed] false, on a socket
    that is closed. *)
Lemma failed_first_write_stays_in_table :
  let pods := [Sample.pod "p1" "Pending"] in
  let w1 := (Deployment.WsPods_open Sample.transform_in
               (Sample.request 0 100 pods) empty_world).2 in
  let r := Deployment.WsPods_open Sample.transform_in
             (Sample.request 1 101 pods) (peer_gone 101 w1) in
  deploymentPodsWsConns r.2 !! "7" = Some [0; 1] ∧
  IsClosed <$> heap r.2 !! 1 = Some false ∧
  last (trace r.2) = Some (EvClose 101).
Proof. vm_compute. repeat split; reflexivity. Qed.

(** ** Informer callbacks after the handler has returned *)

Section AfterReturn.

Variable ToKubePodSchemas : nat → list Pod → error + list KubePodSchema.

(** deployment.go: the return cancels [pollingCtx], and a cancelled
    [send_] leaves before it takes the lock. *)
Lemma deployment_callback_is_idle_after_return a w o listed :
  let r := Deployment.WsPods_return_manager a w in
  (Deployment.AddFunc ToKubePodSchemas o listed r.1 r.2).2 = r.2.
Proof.
  simpl. unfold Deployment.AddFunc.
  by destruct (negb (Deployment.checkPod _ o)).
Qed.

End AfterReturn.

(** cluster.go: its callbacks do the same with [pollingCtx] cancelled or
    not. *)
Lemma cluster_callback_ignores_cancellation
    (ToKubePodSchemas : list Pod → error + list KubePodSchema) a w o listed :
  (Cluster.AddFunc ToKubePodSchemas o listed (Cluster.cancel a) w).2 =
  (Cluster.AddFunc ToKubePodSchemas o listed a w).2.
Proof.
  unfold Cluster.AddFunc, Cluster.send.
  change (Cluster.checkPod (Cluster.cancel a) o) with (Cluster.checkPod a o).
  destruct (negb (Cluster.checkPod a o)); [done|].
  destruct listed as [e|pods]; [done|].
  destruct (ToKubePodSchemas pods); [done|].
  change (Cluster.conn (Cluster.cancel a)) with (Cluster.conn a).
  by destruct (WriteJSON _ _ _) as [[?|] ?].
Qed.

(** C10, the code at the failing input.  A cluster stream is opened, its
    client goes away, the loop returns and the socket is closed.  The
    registration is still in the informer, and when a matching pod is added
    the callback runs [send] again: it builds the view, writes it to the
    closed socket and counts a failure. *)
Lemma cluster_callback_sweeps_after_return :
  let p1 := Sample.pod "p1" "Running" in
  let p2 := Sample.pod "p2" "Pending" in
  let r1 := Cluster.WsPods_open Sample.transform
              (Sample.cluster_request 0 100 [p1]) empty_world in
  let a1 := Cluster.cancel (Sample.cluster_activation 0 100 0) in
  let w1 := peer_gone 100 r1.2 in
  let r2 := Cluster.WsPods_return a1 w1 in
  let r3 := Cluster.AddFunc Sample.transform (ObjPod p2) (inr [p1; p2]) r2.1 r2.2 in
  r1.1 = Cluster.Accepted (Sample.cluster_activation 0 100 0) ∧
  Cluster.manager_turn a1 w1 = Some r2 ∧
  informer r2.2 = [0] ∧
  trace r3.2 = trace r2.2 ++
    [EvWrite 100 (success_frame [Sample.schema "p1" "Running";
                                 Sample.schema "p2" "Pending"]) false] ∧
  Cluster.failedCount r3.1 = 1%Z.
Proof. vm_compute. repeat split; reflexivity. Qed.

(** * Further properties of the two streams *)

(** ** Opening a deployment stream *)

Section DeploymentOpen.

Import Deployment Sweep.

Variable ToKubePodSchemas : nat → list Pod → error + list KubePodSchema.

Lemma deferred_trace c e w :
  trace (deferred c (Some e) w) =
  trace w ++ [EvWrite c (error_frame e) (bool_decide (c ∉ dead w)); EvClose c].
Proof.
  unfold deferred, writeWsError, WriteJSON, Close.
  case_decide; simpl.
  - rewrite bool_decide_eq_false_2 by (by intros ?). by rewrite <- (assoc_L (++)).
  - rewrite bool_decide_eq_true_2 by done. by rewrite <- (assoc_L (++)).
Qed.

Lemma WriteJSON_alive c f w :
  c ∉ dead w → WriteJSON c f w = (None, log (EvWrite c f true) w).
Proof. intros H. unfold WriteJSON. by rewrite decide_False. Qed.

Lemma deferred_dead c e w : c ∈ dead (deferred c e w).
Proof.
  unfold deferred, Close. simpl. apply elem_of_union_l. by apply elem_of_singleton.
Qed.

(** X1.  After the upgrade the handler of a deployment stream either
    returns an error, and then the last two events on its socket are one
    error frame carrying that error and the close, with no frame delivered
    before them; or it goes on, and then it has delivered exactly one frame,
    the first snapshot, and has not closed the socket.  It never returns
    without an error at this stage. *)
Theorem deployment_open_outcomes rq c w :
  rq_Upgrade rq = inr c →
  let r := WsPods_open ToKubePodSchemas rq w in
  match r.1 with
  | Returned None => False
  | Returned (Some e) =>
      c ∈ dead r.2 ∧
      ∃ pre ok, trace r.2 = trace w ++ pre ++ [EvWrite c (error_frame e) ok; EvClose c] ∧
                ∀ c' f ok', EvWrite c' f ok' ∈ pre → ok' = false
  | Accepted a =>
      conn a = c ∧ failedCount a = 0%Z ∧ pollingDone a = false ∧
      dead r.2 = dead w ∧
      trace r.2 = trace w ++ [EvWrite c (success_frame (podSchemas a)) true]
  end.
Proof.
  intros Hu r. unfold r, WsPods_open. rewrite Hu.
  assert (Hret : ∀ e u, trace u = trace w →
            c ∈ dead (deferred c (Some e) u) ∧
            ∃ pre ok, trace (deferred c (Some e) u)
                      = trace w ++ pre ++ [EvWrite c (error_frame e) ok; EvClose c] ∧
                      ∀ c' f ok', EvWrite c' f ok' ∈ pre → ok' = false).
  { intros e u Hu'. split; [apply deferred_dead|].
    exists [], (bool_decide (c ∉ dead u)). rewrite deferred_trace, Hu'.
    split; [done|]. by intros ??? ?%elem_of_nil. }
  destruct (rq_GetDeployment rq) as [e|d]; [by apply Hret|].
  destruct (rq_canView rq) as [e|]; [by apply Hret|].
  unfold attach. set (w1 := set_conns _ _).
  assert (Ht1 : trace w1 = trace w) by done.
  destruct (rq_GetCluster rq) as [e|cid]; [by apply Hret|].
  destruct (rq_GetPodInformer rq) as [e|]; [by apply Hret|].
  destruct (rq_ListPods rq) as [e|pods]; [by apply Hret|].
  destruct (ToKubePodSchemas cid pods) as [e|v]; [by apply Hret|].
  destruct (decide (c ∈ dead w1)) as [Hdead|Halive].
  - rewrite (WriteJSON_dead c _ w1 Hdead). cbn [fst snd].
    split; [apply deferred_dead|].
    exists [EvWrite c (success_frame v) false], false.
    rewrite deferred_trace. simpl.
    rewrite bool_decide_eq_false_2 by (by intros ?).
    split; [by rewrite <- (assoc_L (++))|].
    intros c' f ok' [=]%list_elem_of_singleton. by subst.
  - by rewrite (WriteJSON_alive c _ w1 Halive).
Qed.

(** Heap and tables after the opening, whatever its outcome. *)
Lemma WsPods_open_state rq c w :
  rq_Upgrade rq = inr c →
  let r := WsPods_open ToKubePodSchemas rq w in
  match rq_GetDeployment rq, rq_canView rq with
  | inr d, None =>
      let p := fresh (dom (heap w)) in
      heap w !! p = None ∧
      deploymentPodsWsConns r.2 =
        <[pretty (ID d) := default [] (deploymentPodsWsConns w !! pretty (ID d)) ++ [p]]>
          (deploymentPodsWsConns w) ∧
      heap r.2 = <[p := {| Conn := c; IsNew := false; IsClosed := false |}]> (heap w)
  | _, _ =>
      deploymentPodsWsConns r.2 = deploymentPodsWsConns w ∧ heap r.2 = heap w
  end.
Proof.
  intros Hu r. unfold r, WsPods_open. rewrite Hu.
  assert (Hdef : ∀ e u, deploymentPodsWsConns (deferred c e u) = deploymentPodsWsConns u
                        ∧ heap (deferred c e u) = heap u).
  { intros e u. unfold deferred, writeWsError, WriteJSON, Close.
    destruct e; [case_decide|]; done. }
  destruct (rq_GetDeployment rq) as [e|d]; [apply Hdef|].
  destruct (rq_canView rq) as [e|]; [apply Hdef|].
  unfold attach. set (p := fresh (dom (heap w))). set (w1 := set_conns _ _).
  assert (Hfresh : heap w !! p = None).
  { apply not_elem_of_dom. apply is_fresh. }
  split; [done|].
  destruct (rq_GetCluster rq) as [e|cid]; [apply Hdef|].
  destruct (rq_GetPodInformer rq) as [e|]; [apply Hdef|].
  destruct (rq_ListPods rq) as [e|pods]; [apply Hdef|].
  destruct (ToKubePodSchemas cid pods) as [e|v]; [apply Hdef|].
  destruct (decide (c ∈ dead w1)) as [Hdead|Halive].
  { rewrite (WriteJSON_dead c _ w1 Hdead). apply Hdef. }
  rewrite (WriteJSON_alive c _ w1 Halive). simpl.
  split; [done|]. unfold w1. simpl.
  apply map_eq. intros q. rewrite lookup_alter. case_decide; [subst q|done].
  by rewrite lookup_insert_eq.
Qed.

(** X2.  The wrapper of a handler is published in the table of its
    deployment as soon as the deployment is found and may be viewed, and
    nothing that happens later in the opening takes it out again: whether
    the cluster lookup, the informer, the listing, the transformation or the
    first write fails or all succeed, the table of the deployment has grown
    by one fresh pointer, whose wrapper is open on the handler's socket, and
    the other tables are as before.  When the deployment is not found or may
    not be viewed, heap and tables are untouched. *)
Theorem deployment_open_attaches rq c w :
  rq_Upgrade rq = inr c →
  let r := WsPods_open ToKubePodSchemas rq w in
  match rq_GetDeployment rq, rq_canView rq with
  | inr d, None =>
      ∃ p, heap w !! p = None ∧
        deploymentPodsWsConns r.2 !! pretty (ID d) =
          Some (default [] (deploymentPodsWsConns w !! pretty (ID d)) ++ [p]) ∧
        heap r.2 !! p = Some {| Conn := c; IsNew := false; IsClosed := false |} ∧
        (∀ key, key ≠ pretty (ID d) →
           deploymentPodsWsConns r.2 !! key = deploymentPodsWsConns w !! key) ∧
        (∀ q, q ≠ p → heap r.2 !! q = heap w !! q)
  | _, _ =>
      deploymentPodsWsConns r.2 = deploymentPodsWsConns w ∧ heap r.2 = heap w
  end.
Proof.
  intros Hu r. pose proof (WsPods_open_state rq c w Hu) as H. fold r in H.
  destruct (rq_GetDeployment rq) as [e|d]; [done|].
  destruct (rq_canView rq) as [e|]; [done|].
  destruct H as (Hfresh & Ht & Hh). exists (fresh (dom (heap w))).
  split; [done|]. rewrite Ht, Hh.
  split; [by rewrite lookup_insert_eq|].
  split; [by rewrite lookup_insert_eq|].
  split; intros x Hx; by rewrite lookup_insert_ne.
Qed.

End DeploymentOpen.

(** A deployment found and viewable, and one that is not found. *)
Lemma deployment_open_outcomes_witness :
  let pods := [Sample.pod "p1" "Pending"] in
  let rq := Sample.request 0 100 pods in
  Deployment.rq_Upgrade rq = inr 100 ∧
  trace (Deployment.WsPods_open Sample.transform_in rq empty_world).2
    = [EvWrite 100 (success_frame [Sample.schema "p1" "Pending"]) true].
Proof.
  intros pods rq.
  assert (H : Deployment.rq_Upgrade rq = inr 100) by reflexivity.
  split; [exact H|].
  pose proof (deployment_open_outcomes Sample.transform_in rq 100 empty_world H) as Ho.
  simpl in Ho. destruct Ho as (_ & _ & _ & _ & Ht). exact Ht.
Defined.

Lemma deployment_open_attaches_witness :
  let pods := [Sample.pod "p1" "Pending"] in
  let rq := Sample.request 0 100 pods in
  Deployment.rq_Upgrade rq = inr 100 ∧
  ∃ p, deploymentPodsWsConns
         (Deployment.WsPods_open Sample.transform_in rq empty_world).2 !! "7"
       = Some [p].
Proof.
  intros pods rq.
  assert (H : Deployment.rq_Upgrade rq = inr 100) by reflexivity.
  split; [exact H|].
  pose proof (deployment_open_attaches Sample.transform_in rq 100 empty_world H) as Ho.
  simpl in Ho. destruct Ho as (p & _ & Ht & _). exists p. exact Ht.
Defined.

(** ** Tables over whole runs *)

Section TableInvariant.

Import Deployment Sweep Tables.

Variable ToKubePodSchemas : nat → list Pod → error + list KubePodSchema.

Lemma tables_wf_ext w w' :
  deploymentPodsWsConns w' = deploymentPodsWsConns w →
  (∀ p, is_Some (heap w !! p) → is_Some (heap w' !! p)) →
  tables_wf w → tables_wf w'.
Proof.
  intros Hc Hh Hwf key l Hl. rewrite Hc in Hl.
  destruct (Hwf key l Hl) as [Hnd Hlive]. split; [done|].
  intros p Hp. by apply Hh, Hlive.
Qed.

Lemma tables_wf_deferred c e w : tables_wf w → tables_wf (deferred c e w).
Proof.
  apply tables_wf_ext; unfold deferred, writeWsError, WriteJSON, Close;
    destruct e; try case_decide; done.
Qed.

Lemma tables_wf_table a w : tables_wf w → NoDup (table a w).
Proof.
  intros Hwf. unfold table.
  destruct (deploymentPodsWsConns w !! cachedKey a) as [l|] eqn:Hl; simpl.
  - by destruct (Hwf _ _ Hl).
  - constructor.
Qed.

Lemma tables_wf_send listed a w :
  tables_wf w → tables_wf (send ToKubePodSchemas listed a w).2.
Proof.
  intros Hwf. pose proof (tables_wf_table a w Hwf) as Hnd.
  destruct (pollingDone a) eqn:Hd; [unfold send; by rewrite Hd|].
  destruct listed as [e|pods]; [unfold send; by rewrite Hd|].
  destruct (ToKubePodSchemas (clusterID a) pods) as [e|v] eqn:Hv;
    [unfold send; by rewrite Hd, Hv|].
  pose proof (send_built ToKubePodSchemas a w pods v Hd Hv Hnd)
    as [_ _ _ _ _ _ Ht [_ _ _ _ Hnd' Hsub Hout _ Hquiet Hdue _]].
  simpl in *.
  assert (Hlive : ∀ p, is_Some (heap w !! p) →
            is_Some (heap (send ToKubePodSchemas (inr pods) a w).2 !! p)).
  { intros p [c Hc]. destruct (due (view_changed a v) c) eqn:Hdue'.
    - destruct (decide (p ∈ table a w)) as [Hp|Hp].
      + destruct (Hdue p c Hp Hc Hdue') as [[-> _]|[-> _]]; by eexists.
      + rewrite Hout, Hc by done. by eexists.
    - destruct (Hquiet p c Hc Hdue') as [-> _]. by eexists. }
  intros key l Hl. rewrite Ht in Hl.
  destruct (decide (key = cachedKey a)) as [->|Hne].
  - rewrite lookup_insert_eq in Hl. injection Hl as <-. split; [done|].
    intros p Hp%Hsub. apply Hlive.
    unfold table in Hp.
    destruct (deploymentPodsWsConns w !! cachedKey a) as [l|] eqn:Hl;
      simpl in Hp; [|by apply elem_of_nil in Hp].
    by apply (Hwf _ _ Hl).
  - rewrite lookup_insert_ne in Hl by done.
    destruct (Hwf key l Hl) as [Hnd'' Hlive']. split; [done|].
    intros p Hp. by apply Hlive, Hlive'.
Qed.

Lemma tables_wf_send_ listed a w :
  tables_wf w → tables_wf (send_ ToKubePodSchemas listed a w).2.
Proof.
  intros Hwf. unfold send_.
  pose proof (tables_wf_send listed a w Hwf) as H.
  destruct (send ToKubePodSchemas listed a w) as [[e a1] w1]. simpl in *.
  assert (tables_wf (writeWsError (conn (set_err e a1)) e w1)).
  { revert H. apply tables_wf_ext; unfold writeWsError, WriteJSON;
      destruct e; try case_decide; done. }
  by destruct e.
Qed.

Lemma tables_wf_open rq w :
  tables_wf w → tables_wf (WsPods_open ToKubePodSchemas rq w).2.
Proof.
  intros Hwf. destruct (rq_Upgrade rq) as [e|c] eqn:Hu.
  { unfold WsPods_open. by rewrite Hu. }
  pose proof (WsPods_open_state ToKubePodSchemas rq c w Hu) as H.
  destruct (rq_GetDeployment rq) as [e|d].
  { destruct H as [Hc Hh]. revert Hwf. apply tables_wf_ext; [done|]. by rewrite Hh. }
  destruct (rq_canView rq) as [e|].
  { destruct H as [Hc Hh]. revert Hwf. apply tables_wf_ext; [done|]. by rewrite Hh. }
  destruct H as (Hfresh & Hc & Hh). intros key l Hl. rewrite Hc in Hl.
  assert (Hold : ∀ k l' q, deploymentPodsWsConns w !! k = Some l' → q ∈ l' →
            is_Some (heap (WsPods_open ToKubePodSchemas rq w).2 !! q)).
  { intros k l' q Hk Hq. rewrite Hh.
    destruct (Hwf k l' Hk) as [_ Hlive]. destruct (Hlive q Hq) as [cq Hcq].
    rewrite lookup_insert_ne; [by eexists|]. intros <-. congruence. }
  destruct (decide (key = pretty (ID d))) as [->|Hne].
  - rewrite lookup_insert_eq in Hl. injection Hl as <-.
    destruct (deploymentPodsWsConns w !! pretty (ID d)) as [l0|] eqn:Hl0; simpl.
    + destruct (Hwf _ _ Hl0) as [Hnd Hlive]. split.
      * apply NoDup_app. split; [done|]. split; [|apply NoDup_singleton].
        intros q Hq ->%list_elem_of_singleton.
        destruct (Hlive _ Hq) as [cq Hcq]. congruence.
      * intros q [Hq| ->%list_elem_of_singleton]%elem_of_app.
        -- by apply (Hold _ _ _ Hl0).
        -- rewrite Hh, lookup_insert_eq. by eexists.
    + split; [apply NoDup_singleton|].
      intros q ->%list_elem_of_singleton. rewrite Hh, lookup_insert_eq. by eexists.
  - rewrite lookup_insert_ne in Hl by done.
    destruct (Hwf key l Hl) as [Hnd _]. split; [done|].
    intros q Hq. by apply (Hold _ _ _ Hl).
Qed.

Lemma tables_wf_run m s :
  tables_wf (Group.sys_world s) →
  tables_wf (Group.sys_world (Group.run ToKubePodSchemas m s)).
Proof.
  intros Hs. destruct m as [rq|i|i|i|i o listed|i|order]; simpl.
  - pose proof (tables_wf_open rq _ Hs).
    by destruct (WsPods_open _ _ _) as [[e|a] w'].
  - destruct (Group.sys_handlers s !! i) as [[a []]|]; try done.
    unfold wait_iter. destruct (pollingDone a); simpl.
    + by apply tables_wf_deferred.
    + by case_match.
  - by destruct (Group.sys_handlers s !! i) as [[a []]|].
  - destruct (Group.sys_handlers s !! i) as [[a []]|]; try done.
    unfold manager_turn, manager_iter.
    destruct (pollingDone a); [by apply tables_wf_deferred|].
    case_bool_decide; [by apply tables_wf_deferred|done].
  - destruct (Group.sys_handlers s !! i) as [[a ph]|]; [|done].
    case_bool_decide; [|done]. unfold AddFunc.
    destruct (negb (checkPod a o)); [done|].
    pose proof (tables_wf_send_ listed a _ Hs).
    by destruct (send_ _ _ _ _).
  - by destruct (Group.sys_handlers s !! i) as [[a ph]|].
  - done.
Qed.

(** X3.  Whatever the handlers of a process do and in whatever order,
    every session table lists each wrapper at most once and every pointer
    in a table has its wrapper on the heap: [attach] appends a pointer that
    is new, and a sweep stores a selection of the table it read. *)
Theorem tables_stay_well_formed (ms : list Group.move) :
  tables_wf (Group.sys_world (Group.run_all ToKubePodSchemas ms Group.start)).
Proof.
  unfold Group.run_all.
  assert (H0 : tables_wf (Group.sys_world Group.start)).
  { intros key l Hl. simpl in Hl. by rewrite lookup_empty in Hl. }
  revert H0. generalize Group.start.
  induction ms as [|m ms IH]; intros s Hs; [done|].
  simpl. apply IH. by apply tables_wf_run.
Qed.

End TableInvariant.

(** ** What a sweep stores *)

Section SweepStores.

Import Deployment Sweep.

Variable ToKubePodSchemas : nat → list Pod → error + list KubePodSchema.

(** X4.  A sweep that builds a view never adds a session: the table it
    stores holds sessions of the table it read, each once.  Every session it
    stores is open and not marked new, and every session it drops is marked
    closed. *)
Theorem sweep_stores_open_sessions a w pods v :
  pollingDone a = false →
  ToKubePodSchemas (clusterID a) pods = inr v →
  NoDup (table a w) →
  let r := send ToKubePodSchemas (inr pods) a w in
  NoDup (table a r.2) ∧ (∀ p, p ∈ table a r.2 → p ∈ table a w) ∧
  (∀ p, p ∈ table a r.2 →
     ∃ c, heap r.2 !! p = Some c ∧ IsClosed c = false ∧ IsNew c = false) ∧
  (∀ p c, p ∈ table a w → p ∉ table a r.2 → heap r.2 !! p = Some c →
     IsClosed c = true).
Proof.
  intros Hd Hv Hnd r.
  destruct (send_built ToKubePodSchemas a w pods v Hd Hv Hnd)
    as [_ _ _ _ _ _ _ [_ _ _ _ Hnd' Hsub _ Habsent Hquiet Hdue _]].
  fold r in Hnd', Hsub, Habsent, Hquiet, Hdue. simpl in *.
  split; [done|]. split; [done|]. split.
  - intros p Hin. pose proof (Hsub p Hin) as Hp.
    destruct (heap w !! p) as [c|] eqn:Hc; [|by destruct (Habsent p Hc)].
    destruct (due (view_changed a v) c) eqn:Hdue'.
    + destruct (Hdue p c Hp Hc Hdue') as [[Hh _]|[_ Hout]]; [|done].
      exists (with_IsNew false c). split; [done|]. split; [|done]. simpl.
      unfold due in Hdue'. by destruct (IsClosed c).
    + destruct (Hquiet p c Hc Hdue') as [Hh Hiff].
      exists c. split; [done|]. apply Hiff in Hin as [_ Hopen]. split; [done|].
      unfold due in Hdue'. rewrite Hopen in Hdue'. simpl in Hdue'.
      by destruct (IsNew c).
  - intros p c' Hp Hout Hc'.
    destruct (heap w !! p) as [c|] eqn:Hc.
    2: { destruct (Habsent p Hc) as [Hnone _]. congruence. }
    destruct (due (view_changed a v) c) eqn:Hdue'.
    + destruct (Hdue p c Hp Hc Hdue') as [[_ Hin]|[Hh _]]; [done|].
      rewrite Hh in Hc'. by injection Hc' as <-.
    + destruct (Hquiet p c Hc Hdue') as [Hh Hiff].
      rewrite Hh in Hc'. injection Hc' as <-.
      destruct (IsClosed c) eqn:Hclosed; [done|].
      exfalso. apply Hout, Hiff. by split.
Qed.

(** X5.  A sweep that cannot build its view, because the listing or the
    transformation fails, writes one error frame to the socket of the
    managing handler and counts one failure; it writes to no other session
    and leaves heap, tables, last view and pending tasks as they were. *)
Theorem failed_sweep_reports_to_manager listed a w :
  pollingDone a = false → built ToKubePodSchemas a listed = None →
  let r := send_ ToKubePodSchemas listed a w in
  (∃ e, err r.1 = Some e ∧
        trace r.2 = trace w ++ [EvWrite (conn a) (error_frame e)
                                  (bool_decide (conn a ∉ dead w))]) ∧
  failedCount r.1 = Inc (failedCount a) ∧ podSchemas r.1 = podSchemas a ∧
  heap r.2 = heap w ∧ deploymentPodsWsConns r.2 = deploymentPodsWsConns w ∧
  tasks r.2 = tasks w ∧ dead r.2 = dead w.
Proof.
  intros Hd Hb r.
  assert (Hw : ∀ e, trace (writeWsError (conn a) (Some e) w)
                    = trace w ++ [EvWrite (conn a) (error_frame e)
                                    (bool_decide (conn a ∉ dead w))]
                  ∧ heap (writeWsError (conn a) (Some e) w) = heap w
                  ∧ deploymentPodsWsConns (writeWsError (conn a) (Some e) w)
                    = deploymentPodsWsConns w
                  ∧ tasks (writeWsError (conn a) (Some e) w) = tasks w
                  ∧ dead (writeWsError (conn a) (Some e) w) = dead w).
  { intros e. unfold writeWsError, WriteJSON. case_decide; simpl.
    - by rewrite bool_decide_eq_false_2 by (by intros ?).
    - by rewrite bool_decide_eq_true_2. }
  unfold r, send_, send, built in *. rewrite Hd.
  destruct listed as [e|pods].
  - destruct (Hw (Wrap e "list pods by deployment")) as (? & ? & ? & ? & ?).
    simpl. split; [by eexists|done].
  - destruct (ToKubePodSchemas (clusterID a) pods) as [e|v]; [|discriminate].
    destruct (Hw (Wrap e "to kube pod schemas")) as (? & ? & ? & ? & ?).
    simpl. split; [by eexists|done].
Qed.

End SweepStores.

Lemma sweep_stores_open_sessions_witness :
  let a := Sample.activation 0 100 0 [Sample.schema "p1" "Pending"] in
  let w := peer_gone 101 Sample.two_sessions in
  let pods := [Sample.pod "p1" "Running"] in
  let v := [Sample.schema "p1" "Running"] in
  Deployment.pollingDone a = false ∧
  Sample.transform_in (Deployment.clusterID a) pods = inr v ∧
  NoDup (Sweep.table a w) ∧
  NoDup (Sweep.table a (Deployment.send Sample.transform_in (inr pods) a w).2).
Proof.
  intros a w pods v.
  assert (H1 : Deployment.pollingDone a = false) by reflexivity.
  assert (H2 : Sample.transform_in (Deployment.clusterID a) pods = inr v)
    by reflexivity.
  assert (H3 : NoDup (Sweep.table a w)) by by_evaluation.
  split; [exact H1|]. split; [exact H2|]. split; [exact H3|].
  exact (proj1 (sweep_stores_open_sessions Sample.transform_in a w pods v H1 H2 H3)).
Defined.

Lemma failed_sweep_reports_to_manager_witness :
  let a := Sample.activation 0 100 0 [Sample.schema "p1" "Pending"] in
  let w := Sample.two_sessions in
  let listed : error + list Pod := inl "lister unavailable" in
  Deployment.pollingDone a = false ∧
  Sweep.built Sample.transform_in a listed = None ∧
  Deployment.failedCount (Deployment.send_ Sample.transform_in listed a w).1
    = Inc (Deployment.failedCount a).
Proof.
  intros a w listed.
  assert (H1 : Deployment.pollingDone a = false) by reflexivity.
  assert (H2 : Sweep.built Sample.transform_in a listed = None) by reflexivity.
  split; [exact H1|]. split; [exact H2|].
  exact (proj1 (proj2 (failed_sweep_reports_to_manager
                         Sample.transform_in listed a w H1 H2))).
Defined.

(** ** Handlers that have returned *)

Section ReturnedHandlers.

Import Deployment Sweep Tables.

Variable ToKubePodSchemas : nat → list Pod → error + list KubePodSchema.

Lemma send__keeps_pollingDone listed a w :
  pollingDone (send_ ToKubePodSchemas listed a w).1 = pollingDone a.
Proof.
  unfold send_, send. destruct (pollingDone a) eqn:Hd; [done|].
  destruct listed as [e|pods]; [done|].
  destruct (ToKubePodSchemas (clusterID a) pods) as [e|v]; [done|].
  by destruct (fanout _ _ _ _).
Qed.

Lemma gone_cancelled_put i a ph w s :
  (ph = Group.Gone → pollingDone a = true) →
  gone_cancelled s → gone_cancelled (Group.put i a ph w s).
Proof.
  intros Ha Hs j h Hj Hgone. simpl in Hj.
  apply list_lookup_insert_Some in Hj as [(-> & <- & _)|[_ Hj]].
  - by apply Ha.
  - by apply (Hs j h).
Qed.

Lemma gone_cancelled_run m s :
  gone_cancelled s → gone_cancelled (Group.run ToKubePodSchemas m s).
Proof.
  intros Hs. destruct m as [rq|i|i|i|i o listed|i|order]; simpl.
  - destruct (WsPods_open _ _ _) as [[e|a] w']; [done|].
    intros j h Hj Hgone. simpl in Hj.
    apply lookup_app_Some in Hj as [Hj|[_ Hj]]; [by apply (Hs j h)|].
    apply list_lookup_singleton_Some in Hj as [_ <-]. done.
  - destruct (Group.sys_handlers s !! i) as [[a []]|]; try done.
    destruct (wait_iter a _); [|done|]; by apply gone_cancelled_put.
  - destruct (Group.sys_handlers s !! i) as [[a []]|]; try done.
    by apply gone_cancelled_put.
  - destruct (Group.sys_handlers s !! i) as [[a []]|]; try done.
    unfold manager_turn. destruct (manager_iter a); [|done].
    by apply gone_cancelled_put.
  - destruct (Group.sys_handlers s !! i) as [[a ph]|] eqn:Hi; [|done].
    case_bool_decide; [|done].
    destruct (AddFunc _ _ _ _ _) as [a' w'] eqn:Hadd.
    apply gone_cancelled_put; [|done]. intros ->.
    assert (pollingDone a' = pollingDone a) as ->.
    { unfold AddFunc in Hadd. destruct (negb (checkPod a o)); [by simplify_eq|].
      pose proof (send__keeps_pollingDone listed a (Group.sys_world s)) as Hk.
      by rewrite Hadd in Hk. }
    by apply (Hs i _ Hi).
  - destruct (Group.sys_handlers s !! i) as [[a ph]|]; [|done].
    by apply gone_cancelled_put.
  - done.
Qed.

Lemma gone_cancelled_run_all ms : ∀ s,
  gone_cancelled s → gone_cancelled (Group.run_all ToKubePodSchemas ms s).
Proof.
  unfold Group.run_all. induction ms as [|m ms IH]; intros s Hs; [done|].
  simpl. apply IH. by apply gone_cancelled_run.
Qed.

(** X6.  In every state a process can reach, a handler of a deployment
    stream that has returned has cancelled its [pollingCtx], and its
    callback, still registered with the informer, changes nothing when a
    pod event arrives: no write, no close, no change of heap, tables or
    flags. *)
Theorem returned_handler_is_idle ms i h o listed :
  let s := Group.run_all ToKubePodSchemas ms Group.start in
  Group.sys_handlers s !! i = Some h → Group.h_phase h = Group.Gone →
  pollingDone (Group.h_act h) = true ∧
  Group.sys_world (Group.run ToKubePodSchemas (Group.PodEvent i o listed) s)
    = Group.sys_world s.
Proof.
  intros s Hi Hgone.
  assert (Hinv : gone_cancelled s).
  { apply gone_cancelled_run_all. by intros j h' Hj. }
  pose proof (Hinv i h Hi Hgone) as Hd. split; [done|].
  simpl. rewrite Hi. destruct h as [a ph]. simpl in *.
  case_bool_decide; [|done].
  unfold AddFunc, send_, send. rewrite Hd.
  by destruct (negb (checkPod a o)).
Qed.

End ReturnedHandlers.

(** A manager whose client goes away and a pod event after its return. *)
Lemma returned_handler_is_idle_witness :
  let pods := [Sample.pod "p1" "Pending"] in
  let ms := [Group.Arrive (Sample.request 0 100 pods); Group.Poll 0;
             Group.Claim 0; Group.Disconnect 0; Group.Turn 0] in
  let s := Group.run_all Sample.transform_in ms Group.start in
  let h := {| Group.h_act := Deployment.cancel
                (Sample.activation 0 100 0 [Sample.schema "p1" "Pending"]);
              Group.h_phase := Group.Gone |} in
  let o := ObjPod (Sample.pod "p2" "Pending") in
  Group.sys_handlers s !! 0 = Some h ∧ Group.h_phase h = Group.Gone ∧
  informer (Group.sys_world s) = [0] ∧
  Group.sys_world (Group.run Sample.transform_in (Group.PodEvent 0 o (inr pods)) s)
    = Group.sys_world s.
Proof.
  intros pods ms s h o.
  assert (H1 : Group.sys_handlers s !! 0 = Some h) by (vm_compute; reflexivity).
  assert (H2 : Group.h_phase h = Group.Gone) by reflexivity.
  split; [exact H1|]. split; [exact H2|]. split; [vm_compute; reflexivity|].
  exact (proj2 (returned_handler_is_idle Sample.transform_in ms 0 h o (inr pods) H1 H2)).
Defined.

(** ** The cluster stream *)

Section ClusterStream.

Variable ToKubePodSchemas : list Pod → error + list KubePodSchema.

Lemma cluster_send_effect l a w :
  let r := Cluster.send ToKubePodSchemas l a w in
  Cluster.failedCount r.1 =
    (if ClusterRuns.fails ToKubePodSchemas a w l
     then Inc (Cluster.failedCount a) else Cluster.failedCount a) ∧
  Cluster.conn r.1 = Cluster.conn a ∧
  Cluster.pollingDone r.1 = Cluster.pollingDone a ∧
  Cluster.a_id r.1 = Cluster.a_id a ∧
  dead r.2 = dead w ∧ informer r.2 = informer w.
Proof.
  unfold Cluster.send, ClusterRuns.fails. destruct l as [e|pods]; [done|].
  destruct (ToKubePodSchemas pods) as [e|v]; [done|].
  unfold WriteJSON. case_decide; simpl.
  - by rewrite bool_decide_eq_true_2.
  - by rewrite bool_decide_eq_false_2.
Qed.

Lemma cluster_fails_ext a a' w w' l :
  Cluster.conn a' = Cluster.conn a → dead w' = dead w →
  ClusterRuns.fails ToKubePodSchemas a' w' l = ClusterRuns.fails ToKubePodSchemas a w l.
Proof. intros Hc Hd. unfold ClusterRuns.fails. by rewrite Hc, Hd. Qed.

(** X7.  On the cluster stream the counter is the number of sweeps that
    have failed since the handler started, however many clean sweeps lie
    between them: a sweep fails when the listing, the transformation or the
    write to the socket fails.  The loop of the handler is left as soon as
    a turn finds the context cancelled or more than ten failures counted. *)
Theorem cluster_counter_is_cumulative ls : ∀ a w,
  (0 ≤ Cluster.failedCount a)%Z →
  (Cluster.failedCount a + Z.of_nat (length ls) < 2 ^ 63)%Z →
  let r := ClusterRuns.sweeps ToKubePodSchemas ls a w in
  let n := length (filter (λ l, ClusterRuns.fails ToKubePodSchemas a w l) ls) in
  Cluster.failedCount r.1 = (Cluster.failedCount a + Z.of_nat n)%Z ∧
  (Cluster.manager_iter r.1 = true ↔
   Cluster.pollingDone a = true ∨ (10 < Cluster.failedCount a + Z.of_nat n)%Z).
Proof.
  assert (Hmain : ∀ a w,
    (0 ≤ Cluster.failedCount a)%Z →
    (Cluster.failedCount a + Z.of_nat (length ls) < 2 ^ 63)%Z →
    let r := ClusterRuns.sweeps ToKubePodSchemas ls a w in
    Cluster.failedCount r.1 =
      (Cluster.failedCount a +
       Z.of_nat (length (filter (λ l, ClusterRuns.fails ToKubePodSchemas a w l) ls)))%Z ∧
    Cluster.pollingDone r.1 = Cluster.pollingDone a).
  { induction ls as [|l ls IH]; intros a w H0 Hlt.
    - simpl. split; [lia|done].
    - cbn [length] in Hlt. rewrite Nat2Z.inj_succ in Hlt.
      destruct (cluster_send_effect l a w) as (Hc & Hconn & Hpd & _ & Hdead & _).
      unfold ClusterRuns.sweeps in *. cbn [foldl fst snd].
      destruct (Cluster.send ToKubePodSchemas l a w) as [a1 w1]. cbn [fst snd] in *.
      rewrite filter_cons.
      rewrite (filter_ext_elem (λ x, ClusterRuns.fails ToKubePodSchemas a w x)
                 (λ x, ClusterRuns.fails ToKubePodSchemas a1 w1 x));
        [|intros; symmetry; by apply cluster_fails_ext].
      destruct (ClusterRuns.fails ToKubePodSchemas a w l) eqn:Hf.
      + rewrite Inc_small in Hc by lia.
        destruct (IH a1 w1) as [Hc2 Hpd2]; [lia..|].
        rewrite decide_True by done. cbn [length]. rewrite Nat2Z.inj_succ.
        split; [lia|congruence].
      + destruct (IH a1 w1) as [Hc2 Hpd2]; [lia..|].
        rewrite decide_False by (by intros ?).
        split; [lia|congruence]. }
  intros a w H0 Hlt r n. destruct (Hmain a w H0 Hlt) as [Hc Hpd].
  fold r in Hc, Hpd. fold n in Hc. split; [done|].
  unfold Cluster.manager_iter, maxFailed. rewrite Hpd, Hc.
  destruct (Cluster.pollingDone a).
  - split; [by left|done].
  - rewrite bool_decide_eq_true. split; [intros ?; right; lia|].
    intros [?|?]; [done|lia].
Qed.

(** X8.  After the upgrade the handler of a cluster stream goes on exactly
    when the cluster is found, may be viewed, the selector parses and the
    informer is there.  It then has run its first sweep and registered its
    callbacks, and a first sweep that fails does not end it: the failure is
    counted and the socket stays open.  In every other case the socket is
    closed as the last event and nothing is registered. *)
Theorem cluster_open_outcomes rq c w :
  Cluster.rq_Upgrade rq = inr c →
  let r := Cluster.WsPods_open ToKubePodSchemas rq w in
  match r.1 with
  | Cluster.Returned e =>
      is_Some e ∧
      ¬ (Cluster.rq_GetCluster rq = None ∧ Cluster.rq_canView rq = None ∧
         (∃ sel, Cluster.rq_Parse rq = inr sel) ∧ Cluster.rq_GetPodInformer rq = None) ∧
      last (trace r.2) = Some (EvClose c) ∧ c ∈ dead r.2 ∧
      informer r.2 = informer w
  | Cluster.Accepted a =>
      Cluster.rq_GetCluster rq = None ∧ Cluster.rq_canView rq = None ∧
      Cluster.rq_Parse rq = inr (Cluster.selector a) ∧
      Cluster.rq_GetPodInformer rq = None ∧
      Cluster.conn a = c ∧ Cluster.pollingDone a = false ∧
      Cluster.failedCount a =
        (if ClusterRuns.fails ToKubePodSchemas a w (Cluster.rq_ListPods rq)
         then 1 else 0)%Z ∧
      dead r.2 = dead w ∧ informer r.2 = informer w ++ [Cluster.rq_id rq]
  end.
Proof.
  intros Hu r. unfold r, Cluster.WsPods_open. rewrite Hu.
  assert (Hclose : ∀ u, last (trace (Close c u)) = Some (EvClose c)
                        ∧ c ∈ dead (Close c u) ∧ informer (Close c u) = informer u).
  { intros u. unfold Close. simpl. rewrite last_snoc.
    split; [done|]. split; [|done].
    apply elem_of_union_l. by apply elem_of_singleton. }
  assert (Hdefer : ∀ e u, informer (Cluster.error_defer c e u) = informer u).
  { intros e u. unfold Cluster.error_defer, WriteJSON.
    destruct e; [case_decide|]; done. }
  destruct (Cluster.rq_GetCluster rq) as [e|].
  { destruct (Hclose w) as (? & ? & ?). cbn [fst snd].
    split; [by eexists|]. split; [by intros [[=] _]|done]. }
  destruct (Cluster.rq_canView rq) as [e|].
  { destruct (Hclose w) as (? & ? & ?). cbn [fst snd].
    split; [by eexists|]. split; [by intros (_ & [=] & _)|done]. }
  destruct (Cluster.rq_Parse rq) as [e|sel].
  { destruct (Hclose (Cluster.error_defer c (Some e) w)) as (? & ? & Hi).
    cbn [fst snd]. rewrite Hi, Hdefer.
    split; [by eexists|]. split; [by intros (_ & _ & [? [=]] & _)|done]. }
  destruct (Cluster.rq_GetPodInformer rq) as [e|].
  { destruct (Hclose (Cluster.error_defer c (Some e) w)) as (? & ? & Hi).
    cbn [fst snd]. rewrite Hi, Hdefer.
    split; [by eexists|]. split; [by intros (_ & _ & _ & [=])|done]. }
  set (a0 := {| Cluster.a_id := Cluster.rq_id rq; Cluster.conn := c;
                Cluster.selector := sel; Cluster.failedCount := 0;
                Cluster.pollingDone := false |}).
  destruct (cluster_send_effect (Cluster.rq_ListPods rq) a0 w)
    as (Hc & Hconn & Hpd & Hid & Hdead & Hinf).
  assert (Hsel : Cluster.selector
            (Cluster.send ToKubePodSchemas (Cluster.rq_ListPods rq) a0 w).1 = sel).
  { unfold Cluster.send. destruct (Cluster.rq_ListPods rq) as [e|pods]; [done|].
    destruct (ToKubePodSchemas pods); [done|].
    by destruct (WriteJSON _ _ _) as [[?|] ?]. }
  destruct (Cluster.send ToKubePodSchemas (Cluster.rq_ListPods rq) a0 w) as [a1 w1].
  cbn [fst snd] in *. subst sel.
  rewrite (cluster_fails_ext a0 a1 w w) by done.
  do 4 (split; [done|]). split; [by rewrite Hconn|]. split; [by rewrite Hpd|].
  split; [rewrite Hc; by destruct (ClusterRuns.fails _ _ _ _)|].
  split; [done|]. simpl. by rewrite Hinf, Hid.
Qed.

End ClusterStream.

(** Three failed sweeps among five. *)
Lemma cluster_counter_is_cumulative_witness :
  let a := Sample.cluster_activation 0 100 0 in
  let pods := [Sample.pod "p1" "Running"] in
  let ls : list (error + list Pod) :=
    [inl "down"; inr pods; inl "down"; inr pods; inl "down"] in
  (0 ≤ Cluster.failedCount a)%Z ∧
  (Cluster.failedCount a + Z.of_nat (length ls) < 2 ^ 63)%Z ∧
  Cluster.failedCount (ClusterRuns.sweeps Sample.transform ls a empty_world).1 = 3%Z.
Proof.
  intros a pods ls.
  assert (H1 : (0 ≤ Cluster.failedCount a)%Z) by (vm_compute; discriminate).
  assert (H2 : (Cluster.failedCount a + Z.of_nat (length ls) < 2 ^ 63)%Z)
    by (vm_compute; reflexivity).
  split; [exact H1|]. split; [exact H2|].
  rewrite (proj1 (cluster_counter_is_cumulative Sample.transform ls a empty_world H1 H2)).
  vm_compute. reflexivity.
Defined.

(** A stream whose lister is down when it is opened. *)
Lemma cluster_open_outcomes_witness :
  let rq := Sample.cluster_request 0 100 [] in
  Cluster.rq_Upgrade rq = inr 100 ∧
  informer (Cluster.WsPods_open Sample.transform rq empty_world).2 = [0].
Proof.
  intros rq.
  assert (H : Cluster.rq_Upgrade rq = inr 100) by reflexivity.
  split; [exact H|].
  pose proof (cluster_open_outcomes Sample.transform rq 100 empty_world H) as Ho.
  simpl in Ho. exact (proj2 (proj2 (proj2 (proj2 (proj2 (proj2 (proj2 (proj2 Ho)))))))).
Defined.

(** ** The filter of a deployment listing *)

Section ListQueryFacts.

Import ListQuery.

Variable KeyQIn KeyQKeywords : string.
Variable Partition LastPartition : string → string → string * string * string.
Variable range_tags : gmap string (list string) → list (string * list string).
Variable GetByName : string → error + nat.
Variable ListBentos : nat → option (list string) → error + list nat.
Variable ListClusters : list string → error + list nat.
Variable processUserNamesFromQ : list string → error + list string.
Variable ListByNames : list string → error + list nat.

Abbreviation entry :=
  (fill_entry KeyQIn KeyQKeywords Partition LastPartition range_tags GetByName
     ListBentos ListClusters processUserNamesFromQ ListByNames).
Abbreviation fill :=
  (fillListDeploymentOption KeyQIn KeyQKeywords Partition LastPartition range_tags
     GetByName ListBentos ListClusters processUserNamesFromQ ListByNames).
Abbreviation changes := (changes_only KeyQIn KeyQKeywords).

Lemma bind_Ok {A B} (m : outcome A) (f : A → outcome B) y :
  bind m f = Ok y → ∃ x, m = Ok x ∧ f x = Ok y.
Proof. destruct m; [by eexists|done|done]. Qed.

Lemma sort_order_whitelist v s :
  sort_order LastPartition v = Ok (Some s) → s ∈ orders.
Proof.
  unfold sort_order. destruct v as [|first rest]; [done|].
  destruct (LastPartition first "-") as [[fieldName m] order].
  case_bool_decide as Hf; [|done]. case_bool_decide as Ho; [|done]. simpl.
  intros [= <-].
  apply elem_of_cons in Hf as [->|Hf];
    [|apply list_elem_of_singleton in Hf as ->];
    (apply elem_of_cons in Ho as [->|Ho];
     [|apply list_elem_of_singleton in Ho as ->]);
    vm_compute; repeat (first [by left | right]).
Qed.

Lemma changes_refl has o : changes has o o.
Proof. unfold changes_only. repeat split; by left. Qed.

Lemma changes_trans has o1 o2 o3 :
  changes has o1 o2 → changes has o2 o3 → changes has o1 o3.
Proof.
  unfold changes_only.
  intros (Hb & A1 & A2 & A3 & A4 & A5 & A6 & A7 & A8)
         (Gb & B1 & B2 & B3 & B4 & B5 & B6 & B7 & B8).
  split; [destruct Hb as (?&?&?&?&?), Gb as (?&?&?&?&?); repeat split; congruence|].
  split.
  { destruct B1 as [G|G]; [destruct A1 as [H|H]; [left; congruence|]|by right].
    right. destruct H as [Hk (l & Hl & Hall)]. split; [done|].
    exists l. split; [congruence|done]. }
  split.
  { destruct B2 as [G|G]; [destruct A2 as [H|H]; [left; congruence|]|by right].
    right. destruct H as [Hk Hs]. split; [done|congruence]. }
  split.
  { destruct B3 as [G|G]; [destruct A3 as [H|H]; [left; congruence|]|by right].
    right. destruct H as [Hk Hs]. split; [done|congruence]. }
  split.
  { destruct B4 as [G|G]; [destruct A4 as [H|H]; [left; congruence|]|by right].
    right. destruct H as [Hk Hs]. split; [done|congruence]. }
  split.
  { destruct B5 as [G|G]; [destruct A5 as [H|H]; [left; congruence|]|by right].
    right. destruct H as [Hk Hs]. split; [done|congruence]. }
  split.
  { destruct B6 as [G|G]; [destruct A6 as [H|H]; [left; congruence|]|by right].
    right. destruct H as [Hk Hs]. split; [done|congruence]. }
  split.
  { destruct B7 as [G|G]; [destruct A7 as [H|H]; [left; congruence|]|by right].
    right. destruct H as [Hk Hs]. split; [done|congruence]. }
  destruct B8 as [G|G]; [destruct A8 as [H|H]; [left; congruence|]|by right].
  right. destruct H as [Hk (x & Hx & Hin)]. split; [done|].
  exists x. split; [congruence|done].
Qed.

Lemma changes_mono (has has' : string → Prop) o o' :
  (∀ k, has k → has' k) → changes has o o' → changes has' o o'.
Proof.
  unfold changes_only.
  intros Hm (Hb & A1 & A2 & A3 & A4 & A5 & A6 & A7 & A8).
  split; [done|].
  split; [destruct A1 as [?|[? ?]]; [by left|right; split; [by apply Hm|done]]|].
  split; [destruct A2 as [?|[? ?]]; [by left|right; split; [by apply Hm|done]]|].
  split.
  { destruct A3 as [?|[Hk ?]]; [by left|right; split; [|done]].
    destruct Hk; [left|right]; by apply Hm. }
  split; [destruct A4 as [?|[? ?]]; [by left|right; split; [by apply Hm|done]]|].
  split; [destruct A5 as [?|[? ?]]; [by left|right; split; [by apply Hm|done]]|].
  split; [destruct A6 as [?|[? ?]]; [by left|right; split; [by apply Hm|done]]|].
  split; [destruct A7 as [?|[? ?]]; [by left|right; split; [by apply Hm|done]]|].
  destruct A8 as [?|[? ?]]; [by left|right; split; [by apply Hm|done]].
Qed.

Ltac changes_by_setter :=
  unfold changes_only; simpl; split; [done|];
  repeat split; first [by left | right; split; [eauto|eauto]].

(** One entry of the query, cut after the third and the fourth test. *)
Lemma entry_chain k v o o' :
  entry k v o = Ok o' →
  ∃ o3 o4, changes (λ x, x = k) o o3 ∧ changes (λ x, x = k) o3 o4 ∧
           changes (λ x, x = k) o4 o' ∧
           (k = "bento_repository" → is_Some (BentoIds o3)) ∧
           (k = "bento" → is_Some (BentoIds o4)).
Proof.
  intros H. unfold fill_entry in H.
  apply bind_Ok in H as (o1 & H1 & H). apply bind_Ok in H as (o2 & H2 & H).
  apply bind_Ok in H as (o3 & H3 & H). apply bind_Ok in H as (o4 & H4 & H).
  apply bind_Ok in H as (o5 & H5 & H). apply bind_Ok in H as (o6 & H6 & H).
  apply bind_Ok in H as (o7 & H7 & H). apply bind_Ok in H as (o8 & H8 & H).
  assert (C1 : changes (λ x, x = k) o o1).
  { destruct (decide (k = KeyQIn)) as [Hk|_]; injection H1 as <-;
      [|apply changes_refl].
    unfold changes_only; simpl; split; [done|].
    repeat split; try by left. right. split; [done|]. eexists. split; [done|].
    apply Forall_forall. by intros f [? _]%list_elem_of_filter. }
  assert (C2 : changes (λ x, x = k) o1 o2).
  { destruct (decide (k = KeyQKeywords)) as [Hk|_]; injection H2 as <-;
      [changes_by_setter|apply changes_refl]. }
  assert (C3 : changes (λ x, x = k) o2 o3).
  { destruct (decide (k = "bento_repository")) as [Hk|_];
      [|injection H3 as <-; apply changes_refl].
    destruct (gather _ v); [done|]. injection H3 as <-. changes_by_setter. }
  assert (C4 : changes (λ x, x = k) o3 o4).
  { destruct (decide (k = "bento")) as [Hk|_];
      [|injection H4 as <-; apply changes_refl].
    destruct (gather _ (range_tags _)); [done|].
    injection H4 as <-. changes_by_setter. }
  assert (C5 : changes (λ x, x = k) o4 o5).
  { destruct (decide (k = "cluster")) as [Hk|_];
      [|injection H5 as <-; apply changes_refl].
    destruct (ListClusters v); [done|]. injection H5 as <-. changes_by_setter. }
  assert (C6 : changes (λ x, x = k) o5 o6).
  { destruct (decide (k = "creator")) as [Hk|_];
      [|injection H6 as <-; apply changes_refl].
    destruct (user_ids _ _ v); [done|]. injection H6 as <-. changes_by_setter. }
  assert (C7 : changes (λ x, x = k) o6 o7).
  { destruct (decide (k = "last_updater")) as [Hk|_];
      [|injection H7 as <-; apply changes_refl].
    destruct (user_ids _ _ v); [done|]. injection H7 as <-. changes_by_setter. }
  assert (C8 : changes (λ x, x = k) o7 o8).
  { destruct (decide (k = "status")) as [Hk|_]; injection H8 as <-;
      [changes_by_setter|apply changes_refl]. }
  assert (C9 : changes (λ x, x = k) o8 o').
  { destruct (decide (k = "sort")) as [Hk|_];
      [|injection H as <-; apply changes_refl].
    destruct (sort_order LastPartition v) as [[order|]| |] eqn:Hs; try done;
      injection H as <-; [|apply changes_refl].
    apply sort_order_whitelist in Hs.
    unfold changes_only; simpl; split; [done|].
    repeat split; try by left. right. split; [done|]. by eexists. }
  exists o3, o4.
  split; [eapply changes_trans; [exact C1|]; by eapply changes_trans|].
  split; [done|].
  split.
  { eapply changes_trans; [exact C5|]. eapply changes_trans; [exact C6|].
    eapply changes_trans; [exact C7|]. by eapply changes_trans. }
  split.
  - intros Hk. destruct (decide (k = "bento_repository")); [|done].
    destruct (gather _ v); [done|]. injection H3 as <-. by eexists.
  - intros Hk. destruct (decide (k = "bento")); [|done].
    destruct (gather _ (range_tags _)); [done|]. injection H4 as <-. by eexists.
Qed.

(** One entry of the query changes only what its key stands for. *)
Lemma entry_changes k v o o' :
  entry k v o = Ok o' → changes (λ x, x = k) o o'.
Proof.
  intros (o3 & o4 & C1 & C2 & C3 & _)%entry_chain.
  eapply changes_trans; [exact C1|]. by eapply changes_trans.
Qed.


(** The whole query changes only what its keys stand for. *)
Lemma fill_changes q : ∀ o o',
  fill q o = Ok o' → changes (λ k, k ∈ q.*1) o o'.
Proof.
  induction q as [|[k v] q IH]; intros o o' H.
  - injection H as <-. apply changes_refl.
  - simpl in H. apply bind_Ok in H as (o1 & H1 & H).
    eapply changes_trans.
    + eapply changes_mono; [|by apply (entry_changes k v)].
      intros x ->. by left.
    + eapply changes_mono; [|by apply IH]. intros x Hx. by right.
Qed.

(** X9.  Whatever the query holds and in whatever order its entries are
    visited, a filter that is filled without error has the paging, the
    search text and the cluster and organization of the caller as they were,
    and each of its other fields is as it was unless the query has the key
    that sets it. *)
Theorem listing_fields_follow_keys q o o' :
  fillListDeploymentOption KeyQIn KeyQKeywords Partition LastPartition range_tags
    GetByName ListBentos ListClusters processUserNamesFromQ ListByNames q o = Ok o' →
  changes_only KeyQIn KeyQKeywords (λ k, k ∈ q.*1) o o'.
Proof. apply fill_changes. Qed.

(** X10.  The [ORDER BY] clause of a listing is never built from text of
    the caller's choosing: after any query it is what it was before or one of
    four fixed clauses. *)
Theorem listing_order_is_whitelisted q o o' :
  fillListDeploymentOption KeyQIn KeyQKeywords Partition LastPartition range_tags
    GetByName ListBentos ListClusters processUserNamesFromQ ListByNames q o = Ok o' →
  Order o' = Order o ∨ ∃ s, Order o' = Some s ∧ s ∈ orders.
Proof.
  intros H. destruct (fill_changes q o o' H) as (_ & _ & _ & _ & _ & _ & _ & _ & Ho).
  destruct Ho as [?|[_ ?]]; [by left|by right].
Qed.

(** X11.  The fields a keyword search runs over are never taken from the
    query as they come: after any query they are what they were before or a
    list holding nothing but [name] and [description]. *)
Theorem listing_keyword_fields_are_known q o o' :
  fillListDeploymentOption KeyQIn KeyQKeywords Partition LastPartition range_tags
    GetByName ListBentos ListClusters processUserNamesFromQ ListByNames q o = Ok o' →
  KeywordFieldNames o' = KeywordFieldNames o ∨
  ∃ l, KeywordFieldNames o' = Some l ∧ Forall (λ f, f ∈ ["name"; "description"]) l.
Proof.
  intros H. destruct (fill_changes q o o' H) as (_ & Hk & _).
  destruct Hk as [?|[_ ?]]; [by left|by right].
Qed.

(** *** The order in which the entries are visited *)

Lemma none_union {A} (x : option A) : None ∪ x = x.
Proof. by destruct x. Qed.

Lemma over_blank o : over blank o = o.
Proof. destruct o. unfold over. simpl. by rewrite !none_union. Qed.

Lemma over_assoc u2 u1 o : over (over u2 u1) o = over u2 (over u1 o).
Proof.
  unfold over. simpl. f_equal;
    match goal with |- ?x ∪ ?y ∪ ?z = _ => by destruct x, y, z end.
Qed.

Lemma uniform_bind b1 b2 :
  uniform b1 → uniform b2 → uniform (λ o, bind (b1 o) b2).
Proof.
  intros U1 U2 o. rewrite (U1 o).
  destruct (b1 blank) as [u1| |]; simpl; [|done|done].
  rewrite (U2 (over u1 o)), (U2 u1).
  destruct (b2 blank) as [u2| |]; simpl; [|done|done].
  by rewrite over_assoc.
Qed.

Lemma uniform_set (c : Prop) `{Decision c} {X}
    (r : outcome X) (set : X → ListDeploymentOption → ListDeploymentOption) :
  (∀ x o, set x o = over (set x blank) o) →
  uniform (λ o, if decide c then bind r (λ x, Ok (set x o)) else Ok o).
Proof.
  intros Hset o. case_decide; simpl; [|by rewrite over_blank].
  destruct r as [x| |]; simpl; [|done|done]. by rewrite <- Hset.
Qed.

Lemma some_union {A} (x : A) (y : option A) : Some x ∪ y = Some x.
Proof. by destruct y. Qed.

Ltac setter_over :=
  intros x o; destruct o; unfold over; simpl;
  by rewrite ?none_union, ?some_union.

Lemma uniform_entry k v : uniform (entry k v).
Proof.
  unfold fill_entry.
  apply uniform_bind.
  { apply (uniform_set (k = KeyQIn) (Ok _) set_KeywordFieldNames). setter_over. }
  apply uniform_bind.
  { apply (uniform_set (k = KeyQKeywords) (Ok _) set_Keywords). setter_over. }
  apply uniform_bind.
  { apply (uniform_set (k = "bento_repository") (of_sum _) set_BentoIds). setter_over. }
  apply uniform_bind.
  { apply (uniform_set (k = "bento") (of_sum _) set_BentoIds). setter_over. }
  apply uniform_bind.
  { apply (uniform_set (k = "cluster") (of_sum _) set_ClusterIds). setter_over. }
  apply uniform_bind.
  { apply (uniform_set (k = "creator") (of_sum _) set_CreatorIds). setter_over. }
  apply uniform_bind.
  { apply (uniform_set (k = "last_updater") (of_sum _) set_LastUpdaterIds). setter_over. }
  apply uniform_bind.
  { apply (uniform_set (k = "status") (Ok _) set_Statuses). setter_over. }
  intros o. case_decide; simpl; [|by rewrite over_blank].
  destruct (sort_order LastPartition v) as [[order|]| |]; simpl; try done.
  - f_equal. destruct o. unfold over. simpl.
    by rewrite ?none_union, ?some_union.
  - by rewrite over_blank.
Qed.

Lemma union_swap {A} (x1 x2 y : option A) :
  x1 = None ∨ x2 = None → x1 ∪ (x2 ∪ y) = x2 ∪ (x1 ∪ y).
Proof. intros [->| ->]; by rewrite !none_union. Qed.

(** Two entries with different keys, not the two that both set the bento
    IDs, can be visited in either order. *)
Lemma entries_commute k1 v1 k2 v2 o o' :
  k1 ≠ k2 →
  ¬ (k1 = "bento" ∧ k2 = "bento_repository") →
  ¬ (k1 = "bento_repository" ∧ k2 = "bento") →
  bind (entry k1 v1 o) (entry k2 v2) = Ok o' →
  bind (entry k2 v2 o) (entry k1 v1) = Ok o'.
Proof.
  intros Hne Hc1 Hc2 H. apply bind_Ok in H as (o1 & H1 & H2).
  rewrite (uniform_entry k1 v1 o) in H1.
  destruct (entry k1 v1 blank) as [u1| |] eqn:E1; [|done|done].
  injection H1 as <-.
  rewrite (uniform_entry k2 v2 _) in H2.
  destruct (entry k2 v2 blank) as [u2| |] eqn:E2; [|done|done].
  injection H2 as <-.
  rewrite (uniform_entry k2 v2 o), E2. simpl.
  rewrite (uniform_entry k1 v1 _), E1. simpl. f_equal.
  apply entry_changes in E1 as ((S1&S2&S3&S4&S5) & A1 & A2 & A3 & A4 & A5 & A6 & A7 & A8).
  apply entry_changes in E2 as ((T1&T2&T3&T4&T5) & B1 & B2 & B3 & B4 & B5 & B6 & B7 & B8).
  simpl in *.
  unfold over. f_equal; apply union_swap; try (by left).
  - destruct A1 as [?|[? _]]; [by left|]. destruct B1 as [?|[? _]]; [by right|]. congruence.
  - destruct A2 as [?|[? _]]; [by left|]. destruct B2 as [?|[? _]]; [by right|]. congruence.
  - destruct A3 as [?|[Ha _]]; [by left|]. destruct B3 as [?|[Hb _]]; [by right|].
    exfalso. destruct Ha as [Ha|Ha], Hb as [Hb|Hb]; try congruence.
    + by apply Hc2.
    + by apply Hc1.
  - destruct A4 as [?|[? _]]; [by left|]. destruct B4 as [?|[? _]]; [by right|]. congruence.
  - destruct A5 as [?|[? _]]; [by left|]. destruct B5 as [?|[? _]]; [by right|]. congruence.
  - destruct A6 as [?|[? _]]; [by left|]. destruct B6 as [?|[? _]]; [by right|]. congruence.
  - destruct A7 as [?|[? _]]; [by left|]. destruct B7 as [?|[? _]]; [by right|]. congruence.
  - destruct A8 as [?|[? _]]; [by left|]. destruct B8 as [?|[? _]]; [by right|]. congruence.
Qed.

(** X12.  The entries of the query map may be visited in any order: as
    long as the query does not hold both [bento] and [bento_repository], a
    filter that is filled without error in one order is filled without error
    and to the same result in every other. *)
Theorem listing_independent_of_map_order q1 q2 :
  q1 ≡ₚ q2 → NoDup q1.*1 →
  ¬ ("bento" ∈ q1.*1 ∧ "bento_repository" ∈ q1.*1) →
  ∀ o o',
    fillListDeploymentOption KeyQIn KeyQKeywords Partition LastPartition range_tags
      GetByName ListBentos ListClusters processUserNamesFromQ ListByNames q1 o = Ok o' →
    fillListDeploymentOption KeyQIn KeyQKeywords Partition LastPartition range_tags
      GetByName ListBentos ListClusters processUserNamesFromQ ListByNames q2 o = Ok o'.
Proof.
  intros Hp.
  induction Hp as [|[k v] l1 l2 Hp IH|[k1 v1] [k2 v2] l|l1 l2 l3 Hp1 IH1 Hp2 IH2];
    intros Hnd Hc o o' H.
  - done.
  - simpl in *. apply bind_Ok in H as (o1 & H1 & H). rewrite H1. simpl.
    apply NoDup_cons in Hnd as [_ Hnd]. apply IH; [done| |done].
    intros [? ?]. apply Hc. split; by right.
  - simpl in *.
    apply NoDup_cons in Hnd as [Hk2 Hnd]. apply not_elem_of_cons in Hk2 as [Hne _].
    destruct (entry k2 v2 o) as [o2| |] eqn:E2; [|done|done]. simpl in H.
    destruct (entry k1 v1 o2) as [o21| |] eqn:E21; [|done|done]. simpl in H.
    assert (Hsw : bind (entry k1 v1 o) (entry k2 v2) = Ok o21).
    { apply entries_commute.
      - done.
      - intros [-> ->]. apply Hc. split; [by left|right; by left].
      - intros [-> ->]. apply Hc. split; [right; by left|by left].
      - by rewrite E2. }
    apply bind_Ok in Hsw as (o1 & E1 & E12). rewrite E1. simpl. by rewrite E12.
  - assert (Hperm : l1.*1 ≡ₚ l2.*1) by (by apply fmap_Permutation).
    apply IH2.
    + by rewrite <- Hperm.
    + by rewrite <- Hperm.
    + by apply IH1.
Qed.

Lemma fill_app q1 q2 o :
  fill (q1 ++ q2) o = bind (fill q1 o) (fill q2).
Proof.
  revert o. induction q1 as [|[k v] q1 IH]; intros o; [done|]. simpl.
  destruct (entry k v o); simpl; [apply IH|done|done].
Qed.

(** X13.  Both [bento] and [bento_repository] write the bento IDs of the
    filter, and the one visited later replaces what the other has written:
    after a query that ends with one of the two keys the IDs are those that
    this entry gives on its own. *)
Theorem last_bento_key_wins q k v o o' :
  k = "bento" ∨ k = "bento_repository" →
  fill (q ++ [(k, v)]) o = Ok o' →
  ∃ u, entry k v blank = Ok u ∧ is_Some (BentoIds u) ∧ BentoIds o' = BentoIds u.
Proof.
  intros Hk H. rewrite fill_app in H. apply bind_Ok in H as (o1 & _ & H).
  simpl in H. destruct (entry k v o1) as [o2| |] eqn:E; [|done|done].
  injection H as <-. rewrite (uniform_entry k v o1) in E.
  destruct (entry k v blank) as [u| |] eqn:Eu; [|done|done].
  injection E as <-. exists u. split; [done|].
  assert (Hs : is_Some (BentoIds u)).
  { apply entry_chain in Eu as (o3 & o4 & _ & C2 & C3 & Hr & Hb).
    assert (H4 : is_Some (BentoIds o4)).
    { destruct Hk as [->| ->]; [by apply Hb|].
      destruct C2 as (_ & _ & _ & [Heq|[_ ?]] & _); [|done].
      rewrite Heq. by apply Hr. }
    destruct C3 as (_ & _ & _ & [Heq|[_ ?]] & _); [|done]. by rewrite Heq. }
  split; [done|]. simpl. destruct Hs as [ids ->]. by rewrite some_union.
Qed.

End ListQueryFacts.

(** The sample query against the sample database. *)
Lemma listing_fields_follow_keys_witness :
  ∃ o', ListQuery.sample_fill ListQuery.sample_query ListQuery.sample_option
        = ListQuery.Ok o' ∧
        ListQuery.ClusterId o' = Some 3 ∧ ListQuery.Start o' = Some 0.
Proof.
  eexists. split; [vm_compute; reflexivity|].
  assert (H : ListQuery.sample_fill ListQuery.sample_query ListQuery.sample_option
              = ListQuery.Ok
                  (ListQuery.over
                     {| ListQuery.Start := None; ListQuery.Count := None;
                        ListQuery.Search := None; ListQuery.ClusterId := None;
                        ListQuery.OrganizationId := None;
                        ListQuery.KeywordFieldNames := Some ["name"];
                        ListQuery.Keywords := None;
                        ListQuery.BentoIds := Some [22; 11];
                        ListQuery.ClusterIds := None; ListQuery.CreatorIds := None;
                        ListQuery.LastUpdaterIds := None;
                        ListQuery.Statuses := Some ["running"];
                        ListQuery.Order := Some "deployment_revision.created_at DESC" |}
                     ListQuery.sample_option))
    by (vm_compute; reflexivity).
  destruct (listing_fields_follow_keys _ _ _ _ _ _ _ _ _ _ _ _ _ H)
    as ((Hs & _ & _ & Hc & _) & _).
  split; [exact Hc|exact Hs].
Defined.

Lemma listing_order_is_whitelisted_witness :
  ∃ o', ListQuery.sample_fill ListQuery.sample_query ListQuery.sample_option
        = ListQuery.Ok o' ∧
        (ListQuery.Order o' = ListQuery.Order ListQuery.sample_option ∨
         ∃ s, ListQuery.Order o' = Some s ∧ s ∈ ListQuery.orders).
Proof.
  eexists. split; [vm_compute; reflexivity|].
  apply (listing_order_is_whitelisted "in" "keywords" ListQuery.sample_Partition
           ListQuery.sample_LastPartition map_to_list ListQuery.sample_GetByName
           ListQuery.sample_ListBentos ListQuery.sample_ids inr ListQuery.sample_ids
           ListQuery.sample_query).
  vm_compute. reflexivity.
Defined.

Lemma listing_keyword_fields_are_known_witness :
  ∃ o', ListQuery.sample_fill ListQuery.sample_query ListQuery.sample_option
        = ListQuery.Ok o' ∧
        (ListQuery.KeywordFieldNames o'
           = ListQuery.KeywordFieldNames ListQuery.sample_option ∨
         ∃ l, ListQuery.KeywordFieldNames o' = Some l ∧
              Forall (λ f, f ∈ ["name"; "description"]) l).
Proof.
  eexists. split; [vm_compute; reflexivity|].
  apply (listing_keyword_fields_are_known "in" "keywords" ListQuery.sample_Partition
           ListQuery.sample_LastPartition map_to_list ListQuery.sample_GetByName
           ListQuery.sample_ListBentos ListQuery.sample_ids inr ListQuery.sample_ids
           ListQuery.sample_query).
  vm_compute. reflexivity.
Defined.

(** The sample query visited from its last entry to its first. *)
Lemma listing_independent_of_map_order_witness :
  let q := ListQuery.sample_query in
  q ≡ₚ reverse q ∧ NoDup q.*1 ∧
  ¬ ("bento" ∈ q.*1 ∧ "bento_repository" ∈ q.*1) ∧
  ∃ o', ListQuery.sample_fill q ListQuery.sample_option = ListQuery.Ok o' ∧
        ListQuery.sample_fill (reverse q) ListQuery.sample_option = ListQuery.Ok o'.
Proof.
  intros q.
  assert (H1 : q ≡ₚ reverse q) by (symmetry; apply reverse_Permutation).
  assert (H2 : NoDup q.*1) by by_evaluation.
  assert (H3 : ¬ ("bento" ∈ q.*1 ∧ "bento_repository" ∈ q.*1)) by by_evaluation.
  split; [exact H1|]. split; [exact H2|]. split; [exact H3|].
  eexists. split; [vm_compute; reflexivity|].
  apply (listing_independent_of_map_order "in" "keywords" ListQuery.sample_Partition
           ListQuery.sample_LastPartition map_to_list ListQuery.sample_GetByName
           ListQuery.sample_ListBentos ListQuery.sample_ids inr ListQuery.sample_ids
           q (reverse q) H1 H2 H3).
  vm_compute. reflexivity.
Defined.

(** A query with both keys, [bento] visited last. *)
Lemma last_bento_key_wins_witness :
  let q := [("bento_repository", ["mnist"])] in
  ("bento" = "bento" ∨ "bento" = "bento_repository") ∧
  ∃ o', ListQuery.sample_fill (q ++ [("bento", ["iris:1.0"])]) ListQuery.blank
        = ListQuery.Ok o' ∧
        ∃ u, ListQuery.sample_entry "bento" ["iris:1.0"] ListQuery.blank = ListQuery.Ok u ∧
             is_Some (ListQuery.BentoIds u) ∧
             ListQuery.BentoIds o' = ListQuery.BentoIds u.
Proof.
  intros q.
  assert (H1 : "bento" = "bento" ∨ "bento" = "bento_repository") by (by left).
  split; [exact H1|].
  eexists. split; [vm_compute; reflexivity|].
  apply (last_bento_key_wins "in" "keywords" ListQuery.sample_Partition
           ListQuery.sample_LastPartition map_to_list ListQuery.sample_GetByName
           ListQuery.sample_ListBentos ListQuery.sample_ids inr ListQuery.sample_ids
           q "bento" ["iris:1.0"] ListQuery.blank _ H1).
  vm_compute. reflexivity.
Defined.

(** * The handlers that create and update deployments *)

Section TargetGroups.

Import Handlers.

Lemma group_targets_snoc targets t :
  group_targets (targets ++ [t]) =
    let '(names, seen, mapping) := group_targets targets in
    let name := Target_BentoRepository t in
    let '(names, seen) :=
      if decide (name ∈ seen) then (names, seen)
      else (names ++ [name], {[name]} ∪ seen) in
    (names, seen, <[name := default [] (mapping !! name) ++ [Target_Bento t]]> mapping).
Proof. unfold group_targets. by rewrite foldl_app. Qed.

Lemma group_targets_inv targets :
  NoDup (group_targets targets).1.1 ∧
  (∀ r, r ∈ (group_targets targets).1.2 ↔ r ∈ (group_targets targets).1.1) ∧
  (∀ r, r ∈ (group_targets targets).1.1 ↔ r ∈ Target_BentoRepository <$> targets) ∧
  (∀ r, (group_targets targets).2 !! r =
          if decide (r ∈ (group_targets targets).1.1)
          then Some (Target_Bento <$>
                       filter (λ t, Target_BentoRepository t = r) targets)
          else None).
Proof.
  induction targets as [|t targets IH] using rev_ind.
  { unfold group_targets. simpl. split; [constructor|].
    split; [set_solver|]. split; [set_solver|].
    intros r. rewrite lookup_empty. destruct (decide (r ∈ [])) as [H|]; [|done].
    by apply elem_of_nil in H. }
  rewrite group_targets_snoc.
  destruct (group_targets targets) as [[names seen] mapping].
  simpl in IH. destruct IH as (Hnd & Hseen & Hnames & Hmap).
  set (name := Target_BentoRepository t).
  assert (Hfilter : ∀ r,
    Target_Bento <$> filter (λ t, Target_BentoRepository t = r) (targets ++ [t]) =
    (Target_Bento <$> filter (λ t, Target_BentoRepository t = r) targets) ++
    (if decide (name = r) then [Target_Bento t] else [])).
  { intros r. rewrite filter_app, fmap_app. f_equal.
    rewrite filter_cons, filter_nil. unfold name.
    by destruct (decide (Target_BentoRepository t = r)). }
  cbv zeta. destruct (decide (name ∈ seen)) as [Hin|Hin]; simpl.
  - split; [done|]. split; [done|]. split.
    + intros r. rewrite fmap_app, elem_of_app, <- Hnames. simpl.
      rewrite list_elem_of_singleton. split; [tauto|].
      intros [?| ->]; [done|]. by apply Hseen.
    + intros r. rewrite Hfilter. destruct (decide (name = r)) as [<-|Hne].
      * rewrite lookup_insert_eq, Hmap.
        apply Hseen in Hin. by rewrite !decide_True by done.
      * rewrite lookup_insert_ne by done. rewrite Hmap.
        destruct (decide (r ∈ names)); [|done]. by rewrite app_nil_r.
  - assert (Hnot : name ∉ names) by (by rewrite <- Hseen).
    split. { apply NoDup_app. split; [done|]. split; [|apply NoDup_singleton].
             intros x Hx ->%list_elem_of_singleton. done. }
    split. { intros r. rewrite elem_of_union, elem_of_singleton, elem_of_app,
               list_elem_of_singleton, Hseen. tauto. }
    split. { intros r. rewrite fmap_app, !elem_of_app, <- Hnames. simpl.
             rewrite !list_elem_of_singleton. done. }
    intros r. rewrite Hfilter. destruct (decide (name = r)) as [<-|Hne].
    + rewrite lookup_insert_eq, Hmap. rewrite decide_False by done.
      rewrite decide_True by (apply elem_of_app; right; by apply list_elem_of_singleton).
      simpl. do 2 f_equal.
      destruct (filter _ targets) as [|t' ?] eqn:E; [done|].
      exfalso. apply Hnot, Hnames, list_elem_of_fmap. exists t'.
      assert (Ht' : t' ∈ filter (λ t, Target_BentoRepository t = name) targets)
        by (rewrite E; left).
      apply list_elem_of_filter in Ht'. by destruct Ht'.
    + rewrite lookup_insert_ne by done. rewrite Hmap, app_nil_r.
      destruct (decide (r ∈ names)) as [Hr|Hr].
      * rewrite decide_True; [done|]. apply elem_of_app. by left.
      * rewrite decide_False; [done|]. rewrite elem_of_app, list_elem_of_singleton.
        intros [?|?]; [done|]. by apply Hne.
Qed.

(** X14.  The loop that opens [doUpdate] groups the targets of the
    request by repository: the list of names it hands to the repository
    listing has no duplicates and holds exactly the repositories the targets
    name, and for each of them the map holds the bentos of its targets, in
    the order of the request and with repetitions; it holds nothing for
    other names. *)
Theorem targets_are_grouped_by_repository targets :
  NoDup (group_targets targets).1.1 ∧
  (∀ r, r ∈ (group_targets targets).1.1 ↔ r ∈ Target_BentoRepository <$> targets) ∧
  (∀ r, r ∈ (group_targets targets).1.1 →
        (group_targets targets).2 !! r =
          Some (Target_Bento <$> filter (λ t, Target_BentoRepository t = r) targets)) ∧
  (∀ r, r ∉ (group_targets targets).1.1 → (group_targets targets).2 !! r = None).
Proof.
  destruct (group_targets_inv targets) as (H1 & _ & H3 & H4).
  split; [done|]. split; [done|]. split.
  - intros r Hr. by rewrite H4, decide_True.
  - intros r Hr. by rewrite H4, decide_False.
Qed.

End TargetGroups.

Section HandlerFacts.

Import Handlers.

Context {db : Type}.
Variable serve : ∀ c : request, db → (error + answer c) * db.
Variable TrimSpace : string → string.
Variable GetDeploymentKubeNamespace : Cluster → string.

Lemma emits_ret {A} P (x : A) : emits (db := db) P (ret x).
Proof. intros d. constructor. Qed.

Lemma emits_throw {A} P e : emits (db := db) (A := A) P (throw e).
Proof. intros d. constructor. Qed.

Lemma emits_ask P c : (∀ ok, P (Did c ok)) → emits P (ask serve c).
Proof.
  intros H d. unfold ask. destruct (serve c d) as [r d']. simpl.
  constructor; [apply H|constructor].
Qed.

Lemma emits_bind {A B} P (m : M A) (k : A → M B) :
  emits P m → (∀ x, emits P (k x)) → emits (db := db) P (bind m k).
Proof.
  intros Hm Hk d. unfold bind. specialize (Hm d).
  destruct (m d) as [[[e|x] d1] l1]; simpl in *; [done|].
  specialize (Hk x d1). destruct (k x d1) as [[r d2] l2]. simpl in *.
  by apply Forall_app.
Qed.

Lemma emits_wrapped {A} P msg (m : M A) :
  emits P m → emits (db := db) P (wrapped msg m).
Proof.
  intros Hm d. unfold wrapped. specialize (Hm d).
  by destruct (m d) as [[[e|x] d1] l1].
Qed.

Lemma bind_inr {A B} (m : M A) (k : A → M B) (d : db) r d' l :
  bind m k d = (inr r, d', l) →
  ∃ x d1 l1 l2, m d = (inr x, d1, l1) ∧ k x d1 = (inr r, d', l2) ∧ l = l1 ++ l2.
Proof.
  unfold bind. destruct (m d) as [[[e|x] d1] l1]; [done|].
  destruct (k x d1) as [[r2 d2] l2] eqn:Ek. intros [= -> -> <-].
  by exists x, d1, l1, l2.
Qed.

Lemma wrapped_inr {A} msg (m : M A) (d : db) x d' l :
  wrapped msg m d = (inr x, d', l) → m d = (inr x, d', l).
Proof. unfold wrapped. by destruct (m d) as [[[e|y] d1] l1]. Qed.

Lemma ask_inr c (d : db) x d' l :
  ask serve c d = (inr x, d', l) → l = [Did c true].
Proof.
  unfold ask. destruct (serve c d) as [[e|y] d1]; [done|]. by intros [= _ _ <-].
Qed.

Lemma quiet_filter l :
  Forall (λ e, is_write e = false) l → filter is_write l = [].
Proof.
  induction 1 as [|e l He _ IH]; [done|].
  rewrite filter_cons, IH. destruct (decide (is_write e)) as [H|]; [|done].
  rewrite He in H. done.
Qed.

Lemma filter_read e l :
  is_write e = false → filter is_write (e :: l) = filter is_write l.
Proof. intros H. rewrite filter_cons_False; [done|]. rewrite H. simpl. tauto. Qed.

Lemma tell_log c d : ∃ ok, (tell serve c d).2 = [Did c ok].
Proof. unfold tell. destruct (serve c d) as [r d']. by eexists. Qed.

End HandlerFacts.

#[local] Ltac emits_call :=
  match goal with
  | |- Handlers.emits ?P (Handlers.ask ?s ?c) => apply (emits_ask s P c); intros ?
  end.

#[local] Ltac emits_step :=
  first
    [ apply emits_ret
    | apply emits_throw
    | apply emits_wrapped
    | emits_call; reflexivity
    | apply emits_bind; [|intros ?]
    | assumption ].

Section ModeFacts.

Import Handlers.

Context {db : Type}.
Variable serve : ∀ c : request, db → (error + answer c) * db.
Variable TrimSpace : string → string.
Variable GetDeploymentKubeNamespace : Cluster → string.

Lemma find_bento_emits P m t : emits (db := db) P (find_bento m t).
Proof. unfold find_bento. destruct (m !! _); emits_step. Qed.

Lemma list_bentos_emits P versions repositories m :
  (∀ r v ok, P (Did (BentoService_List r v) ok)) →
  emits P (list_bentos serve versions repositories m).
Proof.
  intros HP. revert m. induction repositories as [|r rest IH]; intros m; simpl.
  - emits_step.
  - emits_step; [emits_call; apply HP|]. apply IH.
Qed.

Lemma adopt_target_emits deployment m t targets :
  emits (λ e, doUpdate_calls true e = true) (adopt_target serve deployment m t targets).
Proof.
  revert t. induction targets as [|s rest IH]; intros t; simpl.
  - emits_step.
  - emits_step; [apply find_bento_emits|].
    destruct (negb _); [apply IH|].
    destruct (Target_Config s) as [asked|]; [|apply IH].
    destruct (bool_decide (KubeResourceVersion asked = "")); [apply IH|].
    destruct (_ && _); [apply IH|].
    repeat emits_step.
Qed.

Lemma adopt_targets_emits deployment m ts targets :
  emits (λ e, doUpdate_calls true e = true) (adopt_targets serve deployment m ts targets).
Proof.
  induction ts as [|t rest IH]; simpl.
  - emits_step.
  - emits_step; [apply adopt_target_emits|].
    destruct x; [emits_step|apply IH].
Qed.

Lemma adopt_revisions_emits deployment m revisions targets :
  emits (λ e, doUpdate_calls true e = true)
        (adopt_revisions serve deployment m revisions targets).
Proof.
  induction revisions as [|r rest IH]; simpl.
  - emits_step.
  - emits_step; [repeat emits_step|].
    emits_step; [apply adopt_targets_emits|].
    destruct x0; [emits_step|apply IH].
Qed.

Lemma create_targets_emits b user deployment revision m targets :
  emits (λ e, new_revision_calls b e = true)
        (create_targets serve user deployment revision m targets).
Proof.
  induction targets as [|s rest IH]; simpl.
  - emits_step.
  - emits_step; [apply find_bento_emits|].
    emits_step; [repeat emits_step|].
    emits_step; [apply IH|]. emits_step.
Qed.

Lemma deactivate_emits revision revisions :
  emits (λ e, new_revision_calls true e = true) (deactivate serve revision revisions).
Proof.
  induction revisions as [|r rest IH]; simpl.
  - emits_step.
  - destruct (bool_decide _); [apply IH|].
    emits_step; [repeat emits_step|]. apply IH.
Qed.

Lemma new_revision_emits b user deployment m revisions targets :
  emits (λ e, new_revision_calls b e = true)
        (new_revision serve b user deployment m revisions targets).
Proof.
  unfold new_revision.
  emits_step; [destruct b; repeat emits_step|].
  emits_step; [apply create_targets_emits|].
  destruct b; simpl.
  - emits_step; [apply deactivate_emits|]. emits_step.
  - emits_step; [repeat emits_step|]. emits_step.
Qed.

Lemma emits_impl {A} (P Q : entry → Prop) (m : M A) :
  (∀ e, P e → Q e) → emits P m → emits (db := db) Q m.
Proof. intros H Hm d. eapply Forall_impl; [apply Hm|done]. Qed.

Lemma new_revision_calls_doUpdate b e :
  new_revision_calls b e = true → doUpdate_calls b e = true.
Proof. destruct e as [c ok]. by destruct c. Qed.

Lemma doUpdate_emits schema org deployment :
  emits (λ e, doUpdate_calls (DoNotDeploy schema) e = true)
        (doUpdate serve schema org deployment).
Proof.
  unfold doUpdate.
  emits_step; [destruct (DoNotDeploy schema); emits_step|].
  destruct (group_targets (Targets schema)) as [[names seen] versions].
  emits_step; [destruct (DoNotDeploy schema); emits_step|].
  emits_step; [apply list_bentos_emits; by destruct (DoNotDeploy schema)|].
  emits_step; [destruct (DoNotDeploy schema); repeat emits_step|].
  destruct (DoNotDeploy schema).
  - emits_step; [apply adopt_revisions_emits|].
    destruct x3 as [r|]; [emits_step|].
    eapply emits_impl; [apply new_revision_calls_doUpdate|apply new_revision_emits].
  - eapply emits_impl; [apply new_revision_calls_doUpdate|apply new_revision_emits].
Qed.

Lemma GetCluster_emits P s :
  (∀ e, lookup_calls e = true → P e) → emits P (GetCluster serve s).
Proof.
  intros HP. unfold GetCluster.
  apply emits_bind; [|intros org]; apply emits_wrapped; emits_call; by apply HP.
Qed.

Lemma Cluster_canUpdate_emits P cluster :
  (∀ e, lookup_calls e = true → P e) → emits P (Cluster_canUpdate serve cluster).
Proof.
  intros HP. unfold Cluster_canUpdate.
  apply emits_bind; [|intros user];
    emits_call; by apply HP.
Qed.

Lemma GetDeployment_emits P s :
  (∀ e, lookup_calls e = true → P e) → emits P (GetDeployment serve s).
Proof.
  intros HP. unfold GetDeployment.
  apply emits_bind; [|intros cluster].
  - by apply emits_wrapped, GetCluster_emits.
  - apply emits_wrapped.
    emits_call; by apply HP.
Qed.

Lemma canUpdate_emits P deployment :
  (∀ e, lookup_calls e = true → P e) → emits P (canUpdate serve deployment).
Proof.
  intros HP. unfold canUpdate.
  apply emits_bind; [|intros cluster].
  - apply emits_wrapped.
    emits_call; by apply HP.
  - by apply Cluster_canUpdate_emits.
Qed.

Lemma doUpdate_emits_any P schema org deployment :
  (∀ e, doUpdate_calls (DoNotDeploy schema) e = true → P e) →
  emits P (doUpdate serve schema org deployment).
Proof.
  intros HP d. eapply Forall_impl; [apply doUpdate_emits|]. done.
Qed.

Lemma Create_emits P schema :
  (∀ e, frame_calls e = true → P e) →
  (∀ e, doUpdate_calls (DoNotDeploy (Create_Update schema)) e = true → P e) →
  emits P (Create serve TrimSpace GetDeploymentKubeNamespace schema).
Proof.
  intros HP HQ. unfold Create.
  apply emits_bind; [|intros user].
  { emits_call; by apply HP. }
  assert (HL : ∀ e, lookup_calls e = true → P e).
  { intros e He. apply HP. unfold frame_calls. by rewrite He. }
  apply emits_bind; [by apply GetCluster_emits|intros cluster].
  apply emits_bind; [by apply Cluster_canUpdate_emits|intros _].
  apply emits_bind; [|intros org].
  { emits_call; by apply HP. }
  apply emits_bind; [|intros _].
  { emits_call; by apply HP. }
  intros d0. unfold Create_transaction, ask, tell.
  destruct (serve (DeploymentService_Create _) d0) as [[err|deployment] d1].
  - destruct (serve (df _) d1) as [r2 d2]. simpl.
    repeat constructor; by apply HP.
  - pose proof (doUpdate_emits_any P (Create_Update schema) org deployment HQ d1) as Hd.
    destruct (doUpdate _ _ _ _ d1) as [[r d2] l2].
    destruct (serve (TrackDeploymentEvent _ _) d2) as [r3 d3].
    destruct (serve (EventService_Create _) d3) as [r4 d4].
    destruct (serve (df _) d4) as [r5 d5]. simpl in *.
    constructor; [by apply HP|].
    apply Forall_app. split; [done|].
    repeat constructor; by apply HP.
Qed.

Lemma Update_emits P schema :
  (∀ e, frame_calls e = true → P e) →
  (∀ e, doUpdate_calls (DoNotDeploy (Update_Update schema)) e = true → P e) →
  emits P (Update serve schema).
Proof.
  intros HP HQ. unfold Update.
  assert (HL : ∀ e, lookup_calls e = true → P e).
  { intros e He. apply HP. unfold frame_calls. by rewrite He. }
  apply emits_bind; [by apply GetDeployment_emits|intros deployment].
  apply emits_bind; [by apply canUpdate_emits|intros _].
  apply emits_bind; [|intros org].
  { emits_call; by apply HP. }
  apply emits_bind; [|intros _].
  { emits_call; by apply HP. }
  intros d0. unfold Update_transaction, ask, tell.
  destruct (serve (DeploymentService_Update _ _ _) d0) as [[err|deployment'] d1].
  - destruct (serve (df _) d1) as [r2 d2]. simpl.
    repeat constructor; by apply HP.
  - pose proof (doUpdate_emits_any P (Update_Update schema) org deployment' HQ d1) as Hd.
    destruct (doUpdate _ _ _ _ d1) as [[r d2] l2].
    destruct (serve (TrackDeploymentEvent _ _) d2) as [r3 d3].
    destruct (serve (df _) d3) as [r5 d5]. simpl in *.
    constructor; [by apply HP|].
    apply Forall_app. split; [done|].
    repeat constructor; by apply HP.
Qed.

(** X15.  A request with [DoNotDeploy] set never asks for a deployment to
    the cluster, and one without it never lists or changes the targets of
    the revisions that are already there and never retires a revision:
    this holds of every call [doUpdate], [Create] and [Update] make,
    whatever the services answer. *)
Theorem do_not_deploy_separates_the_calls :
  (∀ schema org deployment d,
     Forall (λ e, if DoNotDeploy schema then deploys e = false
                  else touches_old e = false)
            (doUpdate serve schema org deployment d).2) ∧
  (∀ schema d,
     Forall (λ e, if DoNotDeploy (Create_Update schema) then deploys e = false
                  else touches_old e = false)
            (Create serve TrimSpace GetDeploymentKubeNamespace schema d).2) ∧
  (∀ schema d,
     Forall (λ e, if DoNotDeploy (Update_Update schema) then deploys e = false
                  else touches_old e = false)
            (Update serve schema d).2).
Proof.
  assert (Hf : ∀ (b : bool) e, frame_calls e = true →
                 if b then deploys e = false else touches_old e = false).
  { intros b [c ok] H. destruct b, c; try done. }
  assert (Hd : ∀ (b : bool) e, doUpdate_calls b e = true →
                 if b then deploys e = false else touches_old e = false).
  { intros b [c ok] H. destruct b, c; try done. }
  split; [|split].
  - intros schema org deployment.
    apply (doUpdate_emits_any
             (λ e, if DoNotDeploy schema then deploys e = false
                   else touches_old e = false)).
    apply Hd.
  - intros schema.
    apply (Create_emits
             (λ e, if DoNotDeploy (Create_Update schema) then deploys e = false
                   else touches_old e = false)); [apply Hf|apply Hd].
  - intros schema.
    apply (Update_emits
             (λ e, if DoNotDeploy (Update_Update schema) then deploys e = false
                   else touches_old e = false)); [apply Hf|apply Hd].
Qed.

End ModeFacts.

#[local] Ltac ask_inr_in H :=
  first [ apply wrapped_inr in H | idtac ];
  match type of H with
  | Handlers.ask ?s ?c ?d = _ => apply (ask_inr s c d) in H as ->
  end.

Section DeployFacts.

Import Handlers.

Context {db : Type}.
Variable serve : ∀ c : request, db → (error + answer c) * db.

Lemma create_targets_inr user deployment revision m targets d created d' l :
  create_targets serve user deployment revision m targets d = (inr created, d', l) →
  ∃ opts,
    l = (λ o, Did (DeploymentTargetService_Create o) true) <$> opts ∧
    length created = length targets ∧
    Forall2 (λ t o,
               New_CreatorId o = UserID user ∧
               New_DeploymentId o = ID deployment ∧
               New_DeploymentRevisionId o = RevisionID revision ∧
               New_Type o = Target_Type t ∧
               New_CanaryRules o = Target_CanaryRules t ∧
               New_Config o = Target_Config t)
            targets opts.
Proof.
  revert d created d' l.
  induction targets as [|t rest IH]; intros d created d' l; simpl.
  - intros [= <- _ <-]. exists []. by repeat split.
  - intros (bento & d1 & l1 & l2 & Hb & H & ->)%bind_inr.
    unfold find_bento in Hb. destruct (m !! _) as [bento'|]; [|done].
    injection Hb as <- <- <-.
    apply bind_inr in H as (target & d2 & l2' & l3 & Hc & H & ->).
    ask_inr_in Hc.
    apply bind_inr in H as (targets' & d3 & l4 & l5 & Hr & H & ->).
    injection H as <- _ <-.
    apply IH in Hr as (opts & -> & Hlen & HF).
    eexists (_ :: opts). simpl. split; [by rewrite app_nil_r|].
    split; [by rewrite Hlen|]. constructor; [|done]. by repeat split.
Qed.

(** X16.  When [doUpdate] succeeds on a request without [DoNotDeploy],
    what it has written is, in this order: one new revision of the
    deployment; one target per target of the request, in the order of the
    request, each for that revision, with the type and the canary rules of
    the request and with the configuration of the request whose
    [KubeResourceUid] and [KubeResourceVersion] are emptied; and one
    deployment of that revision, with as many targets as the request has. *)
Theorem deploy_creates_one_revision schema org deployment d r d' l :
  DoNotDeploy schema = false →
  doUpdate serve schema org deployment d = (inr r, d', l) →
  ∃ creator revision opts created,
    filter is_write l =
      Did (DeploymentRevisionService_Create creator (ID deployment)) true
      :: ((λ o, Did (DeploymentTargetService_Create o) true) <$> opts)
      ++ [Did (DeploymentRevisionService_Deploy revision created) true] ∧
    length created = length (Targets schema) ∧
    Forall2 (λ t o,
               New_CreatorId o = creator ∧
               New_DeploymentId o = ID deployment ∧
               New_DeploymentRevisionId o = RevisionID revision ∧
               New_Type o = Target_Type t ∧
               New_CanaryRules o = Target_CanaryRules t ∧
               New_Config o =
                 (λ c, {| KubeResourceUid := ""; KubeResourceVersion := "";
                          Resources := Resources c |}) <$> Target_Config t)
            (Targets schema) opts.
Proof.
  intros Hmode. unfold doUpdate. rewrite Hmode.
  intros (user & d1 & l1 & l2 & Hu & H & ->)%bind_inr.
  ask_inr_in Hu.
  destruct (group_targets (Targets schema)) as [[names seen] versions].
  apply bind_inr in H as (repositories & d2 & l2' & l3 & Hr & H & ->).
  ask_inr_in Hr.
  apply bind_inr in H as (bentos & d3 & l3' & l4 & Hb & H & ->).
  apply bind_inr in H as (revisions & d4 & l4' & l5 & Hl & H & ->).
  ask_inr_in Hl.
  unfold new_revision in H.
  apply bind_inr in H as (revision & d5 & l5' & l6 & Hn & H & ->).
  ask_inr_in Hn.
  apply bind_inr in H as (created & d6 & l6' & l7 & Hc & H & ->).
  apply create_targets_inr in Hc as (opts & -> & Hlen & HF).
  apply bind_inr in H as ([] & d7 & l7' & l8 & Hd & H & ->).
  simpl in Hd. ask_inr_in Hd.
  ask_inr_in H.
  exists (UserID user), revision, opts, created.
  split; [|split].
  - pose proof (list_bentos_emits serve (λ e, is_write e = false) versions
                  repositories ∅ (λ _ _ _, eq_refl) d2) as Hq.
    rewrite Hb in Hq. simpl in Hq. apply quiet_filter in Hq.
    rewrite !filter_app, Hq. simpl.
    assert (Hw : ∀ os : list CreateDeploymentTargetOption,
              filter is_write ((λ o, Did (DeploymentTargetService_Create o) true) <$> os)
              = (λ o, Did (DeploymentTargetService_Create o) true) <$> os).
    { induction os as [|o os IHo]; [done|]. rewrite fmap_cons, filter_cons.
      simpl. by rewrite IHo. }
    rewrite Hw. done.
  - by rewrite Hlen, length_fmap.
  - apply Forall2_fmap_l in HF. eapply Forall2_impl; [exact HF|].
    intros t o (? & ? & ? & ? & ? & ?). by repeat split.
Qed.

End DeployFacts.

Section AdoptFacts.

Import Handlers.

Context {db : Type}.
Variable serve : ∀ c : request, db → (error + answer c) * db.

Lemma bind_ret {A B} (x : A) (k : A → M B) (d : db) : bind (ret x) k d = k x d.
Proof. unfold bind, ret. by destruct (k x d) as [[r d'] l]. Qed.

Lemma adopts_later m t s rest t' c :
  adopts m (with_Config (default empty_config (Config t)) t) rest t' c ∨
  adopts m t rest t' c →
  adopts m t (s :: rest) t' c.
Proof.
  intros [H|H]; destruct H as (H1 & H2 & H3 & H4 & H5 & H6 & s' & asked & bento &
                               Hs & H7); simpl in *;
    (repeat split; try done);
    exists s', asked, bento; (split; [by right|done]).
Qed.

Lemma adopt_target_shape deployment m targets t d :
  filter is_write (adopt_target serve deployment m t targets d).2 = [] ∨
  ((adopt_target serve deployment m t targets d).1.1 ≠ inr None ∧
   ∃ t' c ok,
     filter is_write (adopt_target serve deployment m t targets d).2
       = [Did (DeploymentTargetService_Update t' c) ok] ∧
     adopts m t targets t' c).
Proof.
  revert t d. induction targets as [|s rest IH]; intros t d; simpl; [by left|].
  unfold find_bento.
  destruct (m !! bento_key (Target_BentoRepository s) (Target_Bento s))
    as [bento|] eqn:Eb; [|by left].
  rewrite bind_ret.
  assert (Hrec : ∀ t0,
    t0 = t ∨ t0 = with_Config (default empty_config (Config t)) t →
    filter is_write (adopt_target serve deployment m t0 rest d).2 = [] ∨
    ((adopt_target serve deployment m t0 rest d).1.1 ≠ inr None ∧
     ∃ t' c ok,
       filter is_write (adopt_target serve deployment m t0 rest d).2
         = [Did (DeploymentTargetService_Update t' c) ok] ∧
       adopts m t (s :: rest) t' c)).
  { intros t0 Ht0. destruct (IH t0 d) as [H|(Hne & t' & c & ok & Hw & Ha)];
      [by left|right]. split; [done|]. exists t', c, ok. split; [done|].
    apply adopts_later. destruct Ht0 as [-> | ->]; [by right|by left]. }
  case_bool_decide as Hid; simpl; [|apply Hrec; by left].
  destruct (Target_Config s) as [asked|] eqn:Es; [|apply Hrec; by right].
  case_bool_decide as Hv; [apply Hrec; by right|].
  destruct (negb (bool_decide (KubeResourceVersion (default empty_config (Config t)) = ""))
            && negb (bool_decide (KubeResourceVersion (default empty_config (Config t))
                                  = KubeResourceVersion asked))) eqn:Ec;
    [apply Hrec; by right|].
  right.
  assert (Hold : KubeResourceVersion (default empty_config (Config t)) = "" ∨
                 KubeResourceVersion (default empty_config (Config t))
                   = KubeResourceVersion asked).
  { apply andb_false_iff in Ec as [Ec|Ec]; apply negb_false_iff in Ec;
      apply bool_decide_eq_true in Ec; [by left|by right]. }
  set (c := {| KubeResourceUid := KubeResourceUid asked;
               KubeResourceVersion := KubeResourceVersion asked;
               Resources := Resources (default empty_config (Config t)) |}).
  set (t' := with_Config c (with_Config (default empty_config (Config t)) t)).
  assert (Ha : adopts m t (s :: rest) t' c).
  { repeat split; try done. exists s, asked, bento.
    split; [by left|]. by repeat split. }
  unfold bind, wrapped, ask.
  destruct (serve (DeploymentTargetService_Update t' c) d) as [[e|x] d1]; simpl.
  - split; [done|]. by exists t', c, false.
  - destruct (serve (ToDeploymentSchema deployment) d1) as [[e|r] d2]; simpl;
      (split; [done|]); by exists t', c, true.
Qed.

Lemma adopt_targets_shape deployment m targets ts d :
  filter is_write (adopt_targets serve deployment m ts targets d).2 = [] ∨
  ((adopt_targets serve deployment m ts targets d).1.1 ≠ inr None ∧
   ∃ t t' c ok,
     filter is_write (adopt_targets serve deployment m ts targets d).2
       = [Did (DeploymentTargetService_Update t' c) ok] ∧
     adopts m t targets t' c).
Proof.
  revert d. induction ts as [|t rest IH]; intros d; simpl; [by left|].
  pose proof (adopt_target_shape deployment m targets t d) as H.
  unfold bind.
  destruct (adopt_target serve deployment m t targets d) as [[[e|[r|]] d1] l1];
    simpl in *.
  - destruct H as [H|(Hne & t' & c & ok & Hw & Ha)]; [by left|right].
    split; [done|]. by exists t, t', c, ok.
  - rewrite app_nil_r.
    destruct H as [H|(Hne & t' & c & ok & Hw & Ha)]; [by left|right].
    split; [done|]. by exists t, t', c, ok.
  - destruct H as [H|(Hne & _)]; [|done].
    specialize (IH d1).
    destruct (adopt_targets serve deployment m rest targets d1) as [[r2 d2] l2].
    simpl in *. rewrite filter_app, H. simpl. exact IH.
Qed.

Lemma adopt_revisions_shape deployment m targets revisions d :
  filter is_write (adopt_revisions serve deployment m revisions targets d).2 = [] ∨
  ((adopt_revisions serve deployment m revisions targets d).1.1 ≠ inr None ∧
   ∃ t t' c ok,
     filter is_write (adopt_revisions serve deployment m revisions targets d).2
       = [Did (DeploymentTargetService_Update t' c) ok] ∧
     adopts m t targets t' c).
Proof.
  revert d. induction revisions as [|rev rest IH]; intros d; simpl; [by left|].
  unfold bind, wrapped, ask.
  destruct (serve (DeploymentTargetService_List (RevisionID rev)) d) as [[e|ts] d0];
    simpl; [by left|].
  pose proof (adopt_targets_shape deployment m targets ts d0) as H.
  destruct (adopt_targets serve deployment m ts targets d0) as [[[e|[r|]] d1] l1];
    simpl in *.
  - exact H.
  - rewrite app_nil_r. exact H.
  - destruct H as [H|(Hne & _)]; [|done].
    specialize (IH d1).
    destruct (adopt_revisions serve deployment m rest targets d1) as [[r2 d2] l2].
    simpl in *. rewrite !filter_read by done. rewrite filter_app, H. exact IH.
Qed.

(** X17.  The loop that matches a target of an active revision against
    the request updates it only in this way: the target keeps its ID and its
    bento, which is the bento of a target of the request that brings a
    resource version; that version is not empty and becomes the target's,
    together with the UID; a target that had a version had the empty one or
    this very one, and the rest of its configuration is kept.  The target is
    handed to the update with the new configuration already in it. *)
Theorem adoption_never_replaces_a_version deployment m t targets d t' c ok :
  Did (DeploymentTargetService_Update t' c) ok
    ∈ (adopt_target serve deployment m t targets d).2 →
  Config t' = Some c ∧ TargetID t' = TargetID t ∧ BentoId t' = BentoId t ∧
  KubeResourceVersion c ≠ "" ∧
  (∀ old, Config t = Some old →
     (KubeResourceVersion old = "" ∨
      KubeResourceVersion old = KubeResourceVersion c) ∧
     Resources c = Resources old) ∧
  ∃ s asked bento,
    s ∈ targets ∧ Target_Config s = Some asked ∧
    KubeResourceUid c = KubeResourceUid asked ∧
    KubeResourceVersion c = KubeResourceVersion asked ∧
    m !! bento_key (Target_BentoRepository s) (Target_Bento s) = Some bento ∧
    BentoID bento = BentoId t.
Proof.
  intros Hin.
  assert (Hf : Did (DeploymentTargetService_Update t' c) ok
               ∈ filter is_write (adopt_target serve deployment m t targets d).2)
    by (by apply list_elem_of_filter).
  destruct (adopt_target_shape deployment m targets t d)
    as [H|(_ & t0 & c0 & ok0 & Hw & Ha)].
  { rewrite H in Hf. by apply elem_of_nil in Hf. }
  rewrite Hw in Hf. apply list_elem_of_singleton in Hf. injection Hf as -> -> ->.
  destruct Ha as (H1 & H2 & H3 & H4 & H5 & H6 & H7).
  repeat (split; [done|]). split; [|done].
  intros old Hold. rewrite Hold in H5, H6. simpl in *. done.
Qed.

(** X18.  If [doUpdate] updates a target of an active revision, the
    request had [DoNotDeploy] set and this update is the only thing it
    writes, whether it succeeds or not: no revision and no target is
    created, none is retired.  The configuration comes with a resource
    version that is not empty, taken with its UID from a target of the
    request. *)
Theorem adoption_is_the_only_write schema org deployment d t' c ok :
  Did (DeploymentTargetService_Update t' c) ok
    ∈ (doUpdate serve schema org deployment d).2 →
  DoNotDeploy schema = true ∧
  filter is_write (doUpdate serve schema org deployment d).2
    = [Did (DeploymentTargetService_Update t' c) ok] ∧
  Config t' = Some c ∧ KubeResourceVersion c ≠ "" ∧
  ∃ s asked,
    s ∈ Targets schema ∧ Target_Config s = Some asked ∧
    KubeResourceUid c = KubeResourceUid asked ∧
    KubeResourceVersion c = KubeResourceVersion asked.
Proof.
  intros Hin.
  assert (Hmode : DoNotDeploy schema = true).
  { pose proof (doUpdate_emits serve schema org deployment d) as H.
    rewrite Forall_forall in H. specialize (H _ Hin). by simpl in H. }
  split; [done|].
  assert (Hf : Did (DeploymentTargetService_Update t' c) ok
               ∈ filter is_write (doUpdate serve schema org deployment d).2)
    by (by apply list_elem_of_filter).
  clear Hin. revert Hf. unfold doUpdate. rewrite Hmode.
  unfold bind, wrapped, ask.
  destruct (serve GetCurrentUser d) as [[e|user] d1]; simpl.
  { rewrite filter_read by done. by intros ?%elem_of_nil. }
  destruct (group_targets (Targets schema)) as [[names seen] versions].
  destruct (serve (BentoRepositoryService_List _ _) d1) as [[e|repositories] d2];
    simpl.
  { rewrite !filter_read by done. by intros ?%elem_of_nil. }
  pose proof (list_bentos_emits serve (λ e, is_write e = false) versions
                repositories ∅ (λ _ _ _, eq_refl) d2) as Hq.
  destruct (list_bentos serve versions repositories ∅ d2) as [[[e|m] d3] l3];
    simpl in Hq; apply quiet_filter in Hq; simpl.
  { rewrite !filter_read by done. rewrite Hq. by intros ?%elem_of_nil. }
  destruct (serve (DeploymentRevisionService_List _) d3) as [[e|revisions] d4];
    simpl.
  { rewrite !filter_read by done. rewrite filter_app, Hq. simpl.
    rewrite filter_read by done. by intros ?%elem_of_nil. }
  pose proof (adopt_revisions_shape deployment m (Targets schema) revisions d4) as Ha.
  destruct (adopt_revisions serve deployment m revisions (Targets schema) d4)
    as [[[e|[r|]] d5] l5]; simpl in Ha; simpl.
  - rewrite !filter_read by done. rewrite filter_app, Hq. simpl.
    rewrite !filter_read by done.
    destruct Ha as [Ha|(_ & t & t0 & c0 & ok0 & Hw & H1 & _ & _ & H4 & _ & _ &
                        s & asked & bento & Hs & Hc & Hu & Hv & _)].
    { rewrite Ha. by intros ?%elem_of_nil. }
    rewrite Hw. intros [= -> -> ->]%list_elem_of_singleton.
    repeat (split; [done|]). by exists s, asked.
  - rewrite !filter_read by done. rewrite filter_app, Hq. simpl.
    rewrite !filter_read by done. rewrite app_nil_r.
    destruct Ha as [Ha|(_ & t & t0 & c0 & ok0 & Hw & H1 & _ & _ & H4 & _ & _ &
                        s & asked & bento & Hs & Hc & Hu & Hv & _)].
    { rewrite Ha. by intros ?%elem_of_nil. }
    rewrite Hw. intros [= -> -> ->]%list_elem_of_singleton.
    repeat (split; [done|]). by exists s, asked.
  - destruct Ha as [Ha|(Hne & _)]; [|done].
    pose proof (new_revision_emits serve true user deployment m revisions
                  (Targets schema) d5) as Hn.
    destruct (new_revision serve true user deployment m revisions (Targets schema) d5)
      as [[r6 d6] l6]; simpl in *.
    rewrite !filter_read by done. rewrite filter_app, Hq. simpl.
    rewrite !filter_read by done. rewrite filter_app, Ha. simpl.
    intros [_ Hin]%list_elem_of_filter.
    rewrite Forall_forall in Hn. by specialize (Hn _ Hin).
Qed.

End AdoptFacts.

Section TransactionFacts.

Import Handlers.

Context {db : Type}.
Variable serve : ∀ c : request, db → (error + answer c) * db.
Variable TrimSpace : string → string.
Variable GetDeploymentKubeNamespace : Cluster → string.

Lemma bind_prefix {A B} (Q : entry → Prop) (S : error + B → list entry → Prop)
    (m : M A) (k : A → M B) :
  emits Q m →
  (∀ e l, Forall Q l → S (inl e) l) →
  (∀ r l1 l2, Forall Q l1 → S r l2 → S r (l1 ++ l2)) →
  (∀ x d, S (k x d).1.1 (k x d).2) →
  ∀ d : db, S (bind m k d).1.1 (bind m k d).2.
Proof.
  intros Hm Hfail Hpre Hk d. unfold bind. specialize (Hm d).
  destruct (m d) as [[[e|x] d1] l1]; simpl in *; [by apply Hfail|].
  specialize (Hk x d1). destruct (k x d1) as [[r d2] l2]. simpl in *.
  by apply Hpre.
Qed.

Lemma doUpdate_calls_inside b e : doUpdate_calls b e = true → bracket e = false.
Proof. destruct e as [c ok]. by destruct c. Qed.

Lemma Create_transaction_run schema user org opt d0 :
  let run := Create_transaction serve schema user org opt d0 in
  (∃ err ok,
     run.1.1 = inl (Wrap err "create deployment") ∧
     run.2 = [Did (DeploymentService_Create opt) false; Did (df (Some err)) ok]) ∨
  (∃ deployment l2 ok3 ok4 ok5,
     Forall (λ e, doUpdate_calls (DoNotDeploy (Create_Update schema)) e = true) l2 ∧
     run.2 = Did (DeploymentService_Create opt) true :: l2 ++
             [Did (TrackDeploymentEvent (schema_of run.1.1) YataiDeploymentCreate) ok3;
              Did (EventService_Create
                     (created_event user org deployment (err_of run.1.1))) ok4;
              Did (df (err_of run.1.1)) ok5]).
Proof.
  unfold Create_transaction, ask, tell.
  destruct (serve (DeploymentService_Create opt) d0) as [[err|deployment] d1].
  - destruct (serve (df _) d1) as [r2 d2]. simpl. left. by eexists _, _.
  - pose proof (doUpdate_emits serve (Create_Update schema) org deployment d1) as Hd.
    destruct (doUpdate _ _ _ _ d1) as [[r d2] l2].
    destruct (serve (TrackDeploymentEvent _ _) d2) as [r3 d3].
    destruct (serve (EventService_Create _) d3) as [r4 d4].
    destruct (serve (df _) d4) as [r5 d5]. simpl in *.
    right. by eexists deployment, l2, _, _, _.
Qed.

Lemma Update_transaction_run schema org deployment d0 :
  let run := Update_transaction serve schema org deployment d0 in
  (∃ err ok,
     run.1.1 = inl err ∧
     run.2 = [Did (DeploymentService_Update deployment
                     (Description (Update_Update schema))
                     (Labels (Update_Update schema))) false;
              Did (df (Some err)) ok]) ∨
  (∃ l2 ok3 ok5,
     Forall (λ e, doUpdate_calls (DoNotDeploy (Update_Update schema)) e = true) l2 ∧
     run.2 = Did (DeploymentService_Update deployment
                    (Description (Update_Update schema))
                    (Labels (Update_Update schema))) true :: l2 ++
             [Did (TrackDeploymentEvent (schema_of run.1.1) YataiDeploymentUpdate) ok3;
              Did (df (err_of run.1.1)) ok5]).
Proof.
  unfold Update_transaction, ask, tell.
  destruct (serve (DeploymentService_Update _ _ _) d0) as [[err|deployment'] d1].
  - destruct (serve (df _) d1) as [r2 d2]. simpl. left. by eexists _, _.
  - pose proof (doUpdate_emits serve (Update_Update schema) org deployment' d1) as Hd.
    destruct (doUpdate _ _ _ _ d1) as [[r d2] l2].
    destruct (serve (TrackDeploymentEvent _ _) d2) as [r3 d3].
    destruct (serve (df _) d3) as [r5 d5]. simpl in *.
    right. by eexists l2, _, _.
Qed.

Lemma transacted_fail {A} e l :
  Forall (λ e, before_transaction e = true) l → transacted (A := A) (inl e) l.
Proof. intros H. by left. Qed.

Lemma transacted_prefix {A} (r : error + A) l1 l2 :
  Forall (λ e, before_transaction e = true) l1 →
  transacted r l2 → transacted r (l1 ++ l2).
Proof.
  intros H1 [[Hr H2]|(pre & body & err & ok & -> & Hp & Hb & He)].
  - left. split; [done|]. by apply Forall_app.
  - right. exists (l1 ++ pre), body, err, ok. rewrite <- app_assoc.
    split; [done|]. split; [by apply Forall_app|]. done.
Qed.

Lemma lookup_before e : lookup_calls e = true → before_transaction e = true.
Proof. destruct e as [c ok]. by destruct c. Qed.

Lemma start_transacted {A} (k : M A) :
  (∀ d, ∃ body err ok,
     (k d).2 = body ++ [Did (df err) ok] ∧
     Forall (λ e, bracket e = false) body ∧
     (err = None ↔ is_ok (k d).1.1 = true)) →
  ∀ d : db,
    transacted (bind (ask serve StartTransaction) (λ _, k) d).1.1
               (bind (ask serve StartTransaction) (λ _, k) d).2.
Proof.
  intros Hk d. unfold bind, ask.
  destruct (serve StartTransaction d) as [[e|[]] d1]; simpl.
  { left. split; [done|]. by repeat constructor. }
  destruct (Hk d1) as (body & err & ok & Hl & Hb & He).
  destruct (k d1) as [[r d2] l2]. simpl in *. subst l2.
  right. by exists [], body, err, ok.
Qed.

#[local] Tactic Notation "transacted_prefix" ident(x) :=
  apply (bind_prefix (λ e, before_transaction e = true));
    [|apply @transacted_fail|apply @transacted_prefix|intros x].

(** X19.  [Create] and [Update] write inside one transaction: a request
    that fails before the transaction is open has written nothing and has not
    called [df]; otherwise nothing is written before [StartTransaction]
    succeeds, [df] is called once, as the last call of the request, and it is
    told of an error exactly when the request fails. *)
Theorem create_and_update_run_in_one_transaction :
  (∀ schema d,
     transacted (Create serve TrimSpace GetDeploymentKubeNamespace schema d).1.1
                (Create serve TrimSpace GetDeploymentKubeNamespace schema d).2) ∧
  (∀ schema d,
     transacted (Update serve schema d).1.1 (Update serve schema d).2).
Proof.
  split.
  - intros schema. unfold Create.
    transacted_prefix user; [emits_step|].
    transacted_prefix cluster; [apply GetCluster_emits, lookup_before|].
    transacted_prefix checked; [apply Cluster_canUpdate_emits, lookup_before|].
    transacted_prefix org; [emits_step|].
    apply start_transacted. intros d0.
    match goal with
    | |- context [Create_transaction _ _ _ _ ?opt d0] =>
        destruct (Create_transaction_run schema user org opt d0)
          as [(err & ok & Hr & Hl)|(deployment & l2 & ok3 & ok4 & ok5 & Hd & Hl)]
    end; rewrite Hl.
    + eexists [_], (Some err), ok.
      split; [done|]. split; [by repeat constructor|]. by rewrite Hr.
    + eexists (Did (DeploymentService_Create _) true :: l2 ++ [_; _]), _, ok5.
      split; [simpl; by rewrite <- app_assoc|]. split.
      * constructor; [done|]. apply Forall_app. split; [|by repeat constructor].
        eapply Forall_impl; [exact Hd|]. intros e. apply doUpdate_calls_inside.
      * by destruct (Create_transaction _ _ _ _ _ d0).1.1.
  - intros schema. unfold Update.
    transacted_prefix deployment; [apply GetDeployment_emits, lookup_before|].
    transacted_prefix checked; [apply canUpdate_emits, lookup_before|].
    transacted_prefix org; [emits_step|].
    apply start_transacted. intros d0.
    destruct (Update_transaction_run schema org deployment d0)
      as [(err & ok & Hr & Hl)|(l2 & ok3 & ok5 & Hd & Hl)];
      rewrite Hl.
    + eexists [_], (Some err), ok.
      split; [done|]. split; [by repeat constructor|]. by rewrite Hr.
    + eexists (Did (DeploymentService_Update _ _ _) true :: l2 ++ [_]), _, ok5.
      split; [simpl; by rewrite <- app_assoc|]. split.
      * constructor; [done|]. apply Forall_app. split; [|by repeat constructor].
        eapply Forall_impl; [exact Hd|]. intros e. apply doUpdate_calls_inside.
      * by destruct (Update_transaction _ _ _ _ d0).1.1.
Qed.

Lemma doUpdate_calls_no_event b e :
  doUpdate_calls b e = true →
  records_event e = false ∧ ∀ opt ok, e ≠ Did (DeploymentService_Create opt) ok.
Proof. destruct e as [c ok]. by destruct c. Qed.

Lemma quiet_no_event e :
  is_write e = false →
  records_event e = false ∧ ∀ opt ok, e ≠ Did (DeploymentService_Create opt) ok.
Proof. destruct e as [c ok]. by destruct c. Qed.

(** X20.  [Create] records an event exactly when the deployment itself was
    created.  The event is the last call but one of the request: only [df]
    comes after it, and no other event is recorded before it.  Its operation
    is [created] and its status is [failed] exactly when the request
    fails. *)
Theorem create_event_tells_the_outcome schema d :
  let run := Create serve TrimSpace GetDeploymentKubeNamespace schema d in
  ((∃ opt, Did (DeploymentService_Create opt) true ∈ run.2) ↔
   (∃ ev ok, Did (EventService_Create ev) ok ∈ run.2)) ∧
  (∀ ev ok, Did (EventService_Create ev) ok ∈ run.2 →
     Event_OperationName ev = "created" ∧
     (Event_Status ev = EventStatusFailed ↔ is_ok run.1.1 = false) ∧
     ∃ body err ok',
       run.2 = body ++ [Did (EventService_Create ev) ok; Did (df err) ok'] ∧
       Forall (λ e, records_event e = false) body).
Proof.
  set (S := λ (r : error + DeploymentSchema) (l : list entry),
    ((∃ opt, Did (DeploymentService_Create opt) true ∈ l) ↔
     (∃ ev ok, Did (EventService_Create ev) ok ∈ l)) ∧
    (∀ ev ok, Did (EventService_Create ev) ok ∈ l →
       Event_OperationName ev = "created" ∧
       (Event_Status ev = EventStatusFailed ↔ is_ok r = false) ∧
       ∃ body err ok',
         l = body ++ [Did (EventService_Create ev) ok; Did (df err) ok'] ∧
         Forall (λ e, records_event e = false) body)).
  change (S (Create serve TrimSpace GetDeploymentKubeNamespace schema d).1.1
            (Create serve TrimSpace GetDeploymentKubeNamespace schema d).2).
  assert (Hnot : ∀ l c, Forall (λ e, is_write e = false) l → is_write (Did c true) = true →
                   ∀ ok, Did c ok ∉ l).
  { intros l c Hl Hc ok Hin. rewrite Forall_forall in Hl. specialize (Hl _ Hin).
    destruct c; done. }
  assert (Hfail : ∀ e l, Forall (λ e, is_write e = false) l → S (inl e) l).
  { intros e l Hl. split.
    - split; [intros [opt H]|intros (ev & ok & H)]; by eapply Hnot in H.
    - intros ev ok H. by eapply Hnot in H. }
  assert (Hpre : ∀ r l1 l2, Forall (λ e, is_write e = false) l1 → S r l2 → S r (l1 ++ l2)).
  { intros r l1 l2 Hl [Hiff Hev]. split.
    - split.
      + intros [opt [H|H]%elem_of_app]; [by eapply Hnot in H|].
        destruct Hiff as [Hiff _]. destruct Hiff as (ev & ok & H'); [by exists opt|].
        exists ev, ok. apply elem_of_app. by right.
      + intros (ev & ok & [H|H]%elem_of_app); [by eapply Hnot in H|].
        destruct Hiff as [_ Hiff]. destruct Hiff as (opt & H'); [by exists ev, ok|].
        exists opt. apply elem_of_app. by right.
    - intros ev ok [H|H]%elem_of_app; [by eapply Hnot in H|].
      destruct (Hev ev ok H) as (H1 & H2 & body & err & ok' & -> & Hb).
      split; [done|]. split; [done|].
      exists (l1 ++ body), err, ok'. rewrite <- app_assoc. split; [done|].
      apply Forall_app. split; [|done].
      eapply Forall_impl; [exact Hl|]. intros e He. by apply quiet_no_event. }
  revert d. unfold Create.
  apply (bind_prefix (λ e, is_write e = false)); [emits_step|done|done|intros user].
  apply (bind_prefix (λ e, is_write e = false)); [|done|done|intros cluster].
  { apply GetCluster_emits. intros [c ok] H. by destruct c. }
  apply (bind_prefix (λ e, is_write e = false)); [|done|done|intros checked].
  { apply Cluster_canUpdate_emits. intros [c ok] H. by destruct c. }
  apply (bind_prefix (λ e, is_write e = false)); [emits_step|done|done|intros org].
  apply (bind_prefix (λ e, is_write e = false)); [emits_step|done|done|intros started].
  intros d0.
  match goal with
  | |- context [Create_transaction _ _ _ _ ?opt d0] =>
      destruct (Create_transaction_run schema user org opt d0)
        as [(err & ok & Hr & Hl)|(deployment & l2 & ok3 & ok4 & ok5 & Hd & Hl)]
  end; rewrite Hl.
  - split.
    + split; [intros [opt H]|intros (ev & ok0 & H)];
        repeat (apply elem_of_cons in H as [H|H]; [done|]); by apply elem_of_nil in H.
    + intros ev ok0 H.
      repeat (apply elem_of_cons in H as [H|H]; [done|]); by apply elem_of_nil in H.
  - split.
    + split; intros _.
      * eexists _, ok4. apply elem_of_cons. right. apply elem_of_app. right.
        apply elem_of_cons. right. by left.
      * eexists. by left.
    + intros ev ok0 H.
      apply elem_of_cons in H as [H|H]; [done|].
      apply elem_of_app in H as [H|H].
      { rewrite Forall_forall in Hd. apply Hd, doUpdate_calls_no_event in H.
        by destruct H. }
      apply elem_of_cons in H as [H|H]; [done|].
      apply elem_of_cons in H as [H|H];
        [|apply elem_of_cons in H as [H|H]; [done|by apply elem_of_nil in H]].
      injection H as -> ->. split; [done|]. split.
      { simpl. by destruct (Create_transaction _ _ _ _ _ d0).1.1. }
      eexists (Did (DeploymentService_Create _) true :: l2 ++ [_]), _, ok5.
      split; [simpl; by rewrite <- app_assoc|].
      constructor; [done|]. apply Forall_app. split; [|by repeat constructor].
      eapply Forall_impl; [exact Hd|]. intros e He.
      by apply doUpdate_calls_no_event in He as [? _].
Qed.

End TransactionFacts.

Section PermissionFacts.

Import Handlers.

Context {db : Type}.
Variable serve : ∀ c : request, db → (error + answer c) * db.
Variable TrimSpace : string → string.
Variable GetDeploymentKubeNamespace : Cluster → string.

Lemma write_after_reads l0 l l1 e l2 :
  Forall (λ e, is_write e = false) l0 → is_write e = true →
  l0 ++ l = l1 ++ e :: l2 →
  ∃ l1', l1 = l0 ++ l1' ∧ l = l1' ++ e :: l2.
Proof.
  intros H0 He. revert l1. induction H0 as [|x l0 Hx H0 IH]; intros l1 Heq.
  - by exists l1.
  - destruct l1 as [|y l1]; simpl in Heq.
    + injection Heq as -> _. congruence.
    + injection Heq as -> Heq. destruct (IH _ Heq) as (l1' & -> & ->).
      by exists l1'.
Qed.

Lemma guarded_quiet check l : Forall (λ e, is_write e = false) l → guarded check l.
Proof.
  intros H l1 e l2 -> He. apply Forall_app in H as [_ H].
  apply Forall_cons in H as [H _]. congruence.
Qed.

Lemma guarded_prefix check l1 l2 :
  Forall (λ e, is_write e = false) l1 → guarded check l2 → guarded check (l1 ++ l2).
Proof.
  intros H1 H2 l e l' Heq He.
  destruct (write_after_reads _ _ _ _ _ H1 He Heq) as (l1' & -> & ->).
  destruct (H2 _ _ _ eq_refl He) as (u & c & Hin).
  exists u, c. apply elem_of_app. by right.
Qed.

Lemma guarded_after check l1 l2 u c :
  Forall (λ e, is_write e = false) l1 → Did (check u c) true ∈ l1 →
  guarded check (l1 ++ l2).
Proof.
  intros H1 Hin l e l' Heq He.
  destruct (write_after_reads _ _ _ _ _ H1 He Heq) as (l1' & -> & ->).
  exists u, c. apply elem_of_app. by left.
Qed.

Lemma bind_checked {A B} check (m : M A) (k : A → M B) :
  emits (λ e, is_write e = false) m →
  (∀ d, is_ok (m d).1.1 = true → ∃ u c, Did (check u c) true ∈ (m d).2) →
  ∀ d : db, guarded check (bind m k d).2.
Proof.
  intros Hm Hc d. unfold bind. specialize (Hm d). specialize (Hc d).
  destruct (m d) as [[[e|x] d1] l1]; simpl in *; [by apply guarded_quiet|].
  destruct (k x d1) as [[r d2] l2]. simpl.
  destruct Hc as (u & c & Hin); [done|]. by eapply guarded_after.
Qed.

Lemma lookup_quiet e : lookup_calls e = true → is_write e = false.
Proof. destruct e as [c ok]. by destruct c. Qed.

Lemma Cluster_canUpdate_checks cluster d :
  is_ok (Cluster_canUpdate serve cluster d).1.1 = true →
  ∃ u c, Did (MemberService_CanUpdate u c) true ∈ (Cluster_canUpdate serve cluster d).2.
Proof.
  unfold Cluster_canUpdate, bind, ask.
  destruct (serve GetCurrentUser d) as [[e|user] d1]; simpl; [done|].
  destruct (serve (MemberService_CanUpdate _ _) d1) as [[e|[]] d2]; simpl; [done|].
  intros _. eexists _, _. right. left.
Qed.

Lemma canUpdate_checks deployment d :
  is_ok (canUpdate serve deployment d).1.1 = true →
  ∃ u c, Did (MemberService_CanUpdate u c) true ∈ (canUpdate serve deployment d).2.
Proof.
  unfold canUpdate, Cluster_canUpdate, bind, wrapped, ask.
  destruct (serve (ClusterService_GetAssociatedCluster _) d) as [[e|cluster] d0];
    simpl; [done|].
  destruct (serve GetCurrentUser d0) as [[e|user] d1]; simpl; [done|].
  destruct (serve (MemberService_CanUpdate _ _) d1) as [[e|[]] d2]; simpl; [done|].
  intros _. eexists _, _. right. right. left.
Qed.

Lemma canOperate_emits P deployment :
  (∀ e, lookup_calls e = true → P e) → emits P (canOperate serve deployment).
Proof.
  intros HP. unfold canOperate, Cluster_canOperate.
  apply emits_bind; [|intros cluster].
  - apply emits_wrapped. emits_call; by apply HP.
  - apply emits_bind; [|intros user]; emits_call; by apply HP.
Qed.

Lemma canOperate_checks deployment d :
  is_ok (canOperate serve deployment d).1.1 = true →
  ∃ u c, Did (MemberService_CanOperate u c) true ∈ (canOperate serve deployment d).2.
Proof.
  unfold canOperate, Cluster_canOperate, bind, wrapped, ask.
  destruct (serve (ClusterService_GetAssociatedCluster _) d) as [[e|cluster] d0];
    simpl; [done|].
  destruct (serve GetCurrentUser d0) as [[e|user] d1]; simpl; [done|].
  destruct (serve (MemberService_CanOperate _ _) d1) as [[e|[]] d2]; simpl; [done|].
  intros _. eexists _, _. right. right. left.
Qed.

#[local] Tactic Notation "guarded_prefix" ident(x) :=
  apply (bind_prefix (λ e, is_write e = false) (λ _ l, guarded _ l));
    [|intros ? ?; apply guarded_quiet|intros ? ? ?; apply guarded_prefix|intros x].

(** X21.  The handlers that change a deployment write only after the
    membership service has granted the check they ask for: [Create] and
    [Update] after a [CanUpdate] that succeeded, [Terminate] and [Delete]
    after a [CanOperate] that succeeded. *)
Theorem writes_come_after_the_membership_check :
  (∀ schema d,
     guarded MemberService_CanUpdate
       (Create serve TrimSpace GetDeploymentKubeNamespace schema d).2) ∧
  (∀ schema d, guarded MemberService_CanUpdate (Update serve schema d).2) ∧
  (∀ schema d, guarded MemberService_CanOperate (Terminate serve schema d).2) ∧
  (∀ schema d, guarded MemberService_CanOperate (Delete serve schema d).2).
Proof.
  split; [|split; [|split]]; intros schema.
  - unfold Create.
    guarded_prefix user; [emits_step|].
    guarded_prefix cluster; [apply GetCluster_emits, lookup_quiet|].
    apply bind_checked.
    + apply Cluster_canUpdate_emits, lookup_quiet.
    + apply Cluster_canUpdate_checks.
  - unfold Update.
    guarded_prefix deployment; [apply GetDeployment_emits, lookup_quiet|].
    apply bind_checked.
    + apply canUpdate_emits, lookup_quiet.
    + apply canUpdate_checks.
  - unfold Terminate.
    guarded_prefix deployment; [apply GetDeployment_emits, lookup_quiet|].
    apply bind_checked.
    + apply canOperate_emits, lookup_quiet.
    + apply canOperate_checks.
  - unfold Delete.
    guarded_prefix deployment; [apply GetDeployment_emits, lookup_quiet|].
    apply bind_checked.
    + apply canOperate_emits, lookup_quiet.
    + apply canOperate_checks.
Qed.

End PermissionFacts.

(** A deployment of [iris:1.0] over the sample database. *)
Lemma deploy_creates_one_revision_witness :
  let schema := Handlers.sample_update false "1.0" "41" in
  let deployment := {| ID := 7; Name := "fraud" |} in
  Handlers.DoNotDeploy schema = false ∧
  ∃ r d' l,
    Handlers.doUpdate Handlers.sample_serve schema {| Handlers.OrganizationID := 1 |}
      deployment Handlers.sample_start = (inr r, d', l) ∧
    ∃ creator revision opts created,
      filter Handlers.is_write l =
        Handlers.Did (Handlers.DeploymentRevisionService_Create creator (ID deployment))
          true
        :: ((λ o, Handlers.Did (Handlers.DeploymentTargetService_Create o) true) <$> opts)
        ++ [Handlers.Did (Handlers.DeploymentRevisionService_Deploy revision created)
              true] ∧
      length created = length (Handlers.Targets schema) ∧
      Forall2 (λ t o,
                 Handlers.New_CreatorId o = creator ∧
                 Handlers.New_DeploymentId o = ID deployment ∧
                 Handlers.New_DeploymentRevisionId o = Handlers.RevisionID revision ∧
                 Handlers.New_Type o = Handlers.Target_Type t ∧
                 Handlers.New_CanaryRules o = Handlers.Target_CanaryRules t ∧
                 Handlers.New_Config o =
                   (λ c, {| Handlers.KubeResourceUid := "";
                            Handlers.KubeResourceVersion := "";
                            Handlers.Resources := Handlers.Resources c |})
                     <$> Handlers.Target_Config t)
              (Handlers.Targets schema) opts.
Proof.
  intros schema deployment.
  assert (H1 : Handlers.DoNotDeploy schema = false) by reflexivity.
  split; [exact H1|].
  eexists _, _, _. split; [vm_compute; reflexivity|].
  refine (deploy_creates_one_revision Handlers.sample_serve schema
            {| Handlers.OrganizationID := 1 |} deployment Handlers.sample_start
            _ _ _ H1 _).
  vm_compute. reflexivity.
Defined.

(** The target of the active revision runs [iris:1.0] and has no
    configuration yet; the request brings the resource version 41. *)
Lemma adoption_is_the_only_write_witness :
  let schema := Handlers.sample_update true "1.0" "41" in
  let c := {| Handlers.KubeResourceUid := "uid-41";
              Handlers.KubeResourceVersion := "41"; Handlers.Resources := "" |} in
  let t' := {| Handlers.TargetID := 60; Handlers.BentoId := 11;
               Handlers.Config := Some c |} in
  let run := Handlers.doUpdate Handlers.sample_serve schema
               {| Handlers.OrganizationID := 1 |} {| ID := 7; Name := "fraud" |}
               Handlers.sample_start in
  Handlers.Did (Handlers.DeploymentTargetService_Update t' c) true ∈ run.2 ∧
  Handlers.DoNotDeploy schema = true ∧
  filter Handlers.is_write run.2
    = [Handlers.Did (Handlers.DeploymentTargetService_Update t' c) true] ∧
  Handlers.Config t' = Some c ∧ Handlers.KubeResourceVersion c ≠ "" ∧
  ∃ s asked,
    s ∈ Handlers.Targets schema ∧ Handlers.Target_Config s = Some asked ∧
    Handlers.KubeResourceUid c = Handlers.KubeResourceUid asked ∧
    Handlers.KubeResourceVersion c = Handlers.KubeResourceVersion asked.
Proof.
  intros schema c t' run.
  assert (H1 : Handlers.Did (Handlers.DeploymentTargetService_Update t' c) true ∈ run.2).
  { vm_compute. repeat constructor. }
  split; [exact H1|].
  exact (adoption_is_the_only_write Handlers.sample_serve schema
           {| Handlers.OrganizationID := 1 |} {| ID := 7; Name := "fraud" |}
           Handlers.sample_start t' c true H1).
Defined.

Lemma adoption_never_replaces_a_version_witness :
  let m : gmap string Handlers.Bento :=
    {[ "iris:1.0" := {| Handlers.BentoID := 11; Handlers.Version := "1.0" |} ]} in
  let old := {| Handlers.KubeResourceUid := "uid-41";
                Handlers.KubeResourceVersion := "41";
                Handlers.Resources := "cpu: 2" |} in
  let t := {| Handlers.TargetID := 60; Handlers.BentoId := 11;
              Handlers.Config := Some old |} in
  let targets := [Handlers.sample_target "1.0" "40"; Handlers.sample_target "1.0" "41"] in
  let c := {| Handlers.KubeResourceUid := "uid-41";
              Handlers.KubeResourceVersion := "41";
              Handlers.Resources := "cpu: 2" |} in
  let run := Handlers.adopt_target Handlers.sample_serve {| ID := 7; Name := "fraud" |}
               m t targets Handlers.sample_start in
  Handlers.Did (Handlers.DeploymentTargetService_Update t c) true ∈ run.2 ∧
  Handlers.Config t = Some c ∧ Handlers.TargetID t = Handlers.TargetID t ∧
  Handlers.BentoId t = Handlers.BentoId t ∧
  Handlers.KubeResourceVersion c ≠ "" ∧
  (∀ old, Handlers.Config t = Some old →
     (Handlers.KubeResourceVersion old = "" ∨
      Handlers.KubeResourceVersion old = Handlers.KubeResourceVersion c) ∧
     Handlers.Resources c = Handlers.Resources old) ∧
  ∃ s asked bento,
    s ∈ targets ∧ Handlers.Target_Config s = Some asked ∧
    Handlers.KubeResourceUid c = Handlers.KubeResourceUid asked ∧
    Handlers.KubeResourceVersion c = Handlers.KubeResourceVersion asked ∧
    m !! Handlers.bento_key (Handlers.Target_BentoRepository s) (Handlers.Target_Bento s)
      = Some bento ∧
    Handlers.BentoID bento = Handlers.BentoId t.
Proof.
  intros m old t targets c run.
  assert (H1 : Handlers.Did (Handlers.DeploymentTargetService_Update t c) true ∈ run.2).
  { vm_compute. repeat constructor. }
  split; [exact H1|].
  exact (adoption_never_replaces_a_version Handlers.sample_serve
           {| ID := 7; Name := "fraud" |} m t targets Handlers.sample_start t c true H1).
Defined.

(** * The scope of a listing *)

Section ListingFacts.

Import ListQuery Listing.

Variable KeyQIn KeyQKeywords : string.
Variable Partition LastPartition : string → string → string * string * string.
Variable range_tags : gmap string (list string) → list (string * list string).
Variable GetByName : nat → string → error + nat.
Variable ListBentos : nat → option (list string) → error + list nat.
Variable ListClusters : list string → error + list nat.
Variable processUserNamesFromQ : list string → error + list string.
Variable ListByNames : list string → error + list nat.
Variable GetCluster : error + nat.
Variable GetOrganization : error + nat.
Variable Cluster_canView : nat → option error.
Variable Organization_canView : nat → option error.
Variable DeploymentService_List : ListDeploymentOption → error + list nat * nat.
Variable ToDeploymentSchemas : list nat → list string * option error.

Lemma check_Ok e : check e = Ok tt → e = None.
Proof. by destruct e. Qed.

(** X26.  A listing of deployments that succeeds has asked the deployment
    service with a filter scoped by the path of the request, whatever its
    query holds: [ListClusterDeployments] with the cluster of the path, which
    the user may view, and no organization; [ListOrganizationDeployments]
    with the organization of the path, which the user may view, and no
    cluster; both with the paging and the search text of the request.  The
    total and the items it answers are those of that call. *)
Theorem listings_keep_their_scope schema r :
  (ListClusterDeployments KeyQIn KeyQKeywords Partition LastPartition range_tags
     GetByName ListBentos ListClusters processUserNamesFromQ ListByNames
     GetCluster GetOrganization Cluster_canView DeploymentService_List
     ToDeploymentSchemas schema = Ok r →
   ∃ cluster listOpt deployments,
     GetCluster = inr cluster ∧ Cluster_canView cluster = None ∧
     DeploymentService_List listOpt = inr (deployments, Total r) ∧
     Items r = (ToDeploymentSchemas deployments).1 ∧
     ClusterId listOpt = Some cluster ∧ OrganizationId listOpt = None ∧
     Start listOpt = Some (Schema_Start schema) ∧
     Count listOpt = Some (Schema_Count schema) ∧
     Search listOpt = Schema_Search schema) ∧
  (ListOrganizationDeployments KeyQIn KeyQKeywords Partition LastPartition range_tags
     GetByName ListBentos ListClusters processUserNamesFromQ ListByNames
     GetOrganization Organization_canView DeploymentService_List
     ToDeploymentSchemas schema = Ok r →
   ∃ organization listOpt deployments,
     GetOrganization = inr organization ∧ Organization_canView organization = None ∧
     DeploymentService_List listOpt = inr (deployments, Total r) ∧
     Items r = (ToDeploymentSchemas deployments).1 ∧
     OrganizationId listOpt = Some organization ∧ ClusterId listOpt = None ∧
     Start listOpt = Some (Schema_Start schema) ∧
     Count listOpt = Some (Schema_Count schema) ∧
     Search listOpt = Schema_Search schema).
Proof.
  split.
  - unfold ListClusterDeployments.
    destruct GetCluster as [e|cluster]; [done|]. simpl.
    destruct GetOrganization as [e|org]; [done|]. simpl.
    destruct (Cluster_canView cluster) as [e|] eqn:Ev; [done|]. simpl.
    destruct (fillListDeploymentOption _ _ _ _ _ _ _ _ _ _ _ _) as [listOpt|e|] eqn:Ef;
      [|done|done].
    simpl. unfold list_with.
    destruct (DeploymentService_List listOpt) as [e|[deployments total]] eqn:El; [done|].
    intros [= <-]. simpl.
    apply fill_changes in Ef as ((H1 & H2 & H3 & H4 & H5) & _).
    exists cluster, listOpt, deployments. by repeat split.
  - unfold ListOrganizationDeployments.
    destruct GetOrganization as [e|org]; [done|]. simpl.
    destruct (Organization_canView org) as [e|] eqn:Ev; [done|]. simpl.
    destruct (fillListDeploymentOption _ _ _ _ _ _ _ _ _ _ _ _) as [listOpt|e|] eqn:Ef;
      [|done|done].
    simpl. unfold list_with.
    destruct (DeploymentService_List listOpt) as [e|[deployments total]] eqn:El; [done|].
    intros [= <-]. simpl.
    apply fill_changes in Ef as ((H1 & H2 & H3 & H4 & H5) & _).
    exists org, listOpt, deployments. by repeat split.
Qed.

End ListingFacts.

(** The sample query on cluster 3 of organization 1. *)
Lemma listings_keep_their_scope_witness :
  let schema := {| Listing.Schema_Start := 0; Listing.Schema_Count := 20;
                   Listing.Schema_Search := None;
                   Listing.Schema_Q := ListQuery.sample_query |} in
  let listing : ListQuery.ListDeploymentOption → error + list nat * nat :=
    λ _, inr ([7; 8], 2) in
  let render : list nat → list string * option error :=
    λ l, (pretty <$> l, None) in
  ∃ r,
    Listing.ListClusterDeployments "in" "keywords" ListQuery.sample_Partition
      ListQuery.sample_LastPartition map_to_list (λ _, ListQuery.sample_GetByName)
      ListQuery.sample_ListBentos ListQuery.sample_ids inr ListQuery.sample_ids
      (inr 3) (inr 1) (λ _, None) listing render schema = ListQuery.Ok r ∧
    ∃ cluster listOpt deployments,
      (inr 3 : error + nat) = inr cluster ∧ (λ _ : nat, @None error) cluster = None ∧
      listing listOpt = inr (deployments, Listing.Total r) ∧
      Listing.Items r = (render deployments).1 ∧
      ListQuery.ClusterId listOpt = Some cluster ∧
      ListQuery.OrganizationId listOpt = None ∧
      ListQuery.Start listOpt = Some (Listing.Schema_Start schema) ∧
      ListQuery.Count listOpt = Some (Listing.Schema_Count schema) ∧
      ListQuery.Search listOpt = Listing.Schema_Search schema.
Proof.
  intros schema listing render. eexists. split; [vm_compute; reflexivity|].
  refine (proj1 (listings_keep_their_scope "in" "keywords" ListQuery.sample_Partition
                   ListQuery.sample_LastPartition map_to_list
                   (λ _, ListQuery.sample_GetByName) ListQuery.sample_ListBentos
                   ListQuery.sample_ids inr ListQuery.sample_ids (inr 3) (inr 1)
                   (λ _, None) (λ _, None) listing render schema _) _).
  vm_compute. reflexivity.
Defined.

(** * The event log of the dashboard *)

Section EventLog.

Import KubePodEvents.

Variable podName : option string.
Variable t : string → string.
Variable getEventTime : IKubeEventSchema → option string.
Variable formatMoment : string → string.

Local Abbreviation step := (step podName t getEventTime formatMoment).
Local Abbreviation run := (run podName t getEventTime formatMoment).
Local Abbreviation line := (line podName getEventTime formatMoment).

Lemma run_snoc s es e : run s (es ++ [e]) = step (run s es) e.
Proof. unfold KubePodEvents.run. by rewrite foldl_app. Qed.

Lemma line_starts event : ∃ c rest, line event = String c rest.
Proof. unfold KubePodEvents.line. destruct (truthy podName); by eexists _, _. Qed.

Lemma concat_nonempty x rest l :
  String.concat newline (String x rest :: l) ≠ "".
Proof. destruct l; simpl; done. Qed.

(** X22.  The text handed to the log view is never the empty string,
    whatever frames arrive, as long as the translation of [no event] is not
    empty: before the first list it is one blank, afterwards it starts with
    the first line of the list. *)
Theorem text_is_never_empty s es :
  t "no event" ≠ "" →
  (items s = [] ∨ ∃ x l, items s = x :: l ∧ x ≠ "") →
  text (items (run s es)) ≠ "".
Proof.
  intros Ht Hs.
  assert (Hinv : items (run s es) = [] ∨ ∃ x l, items (run s es) = x :: l ∧ x ≠ "").
  { induction es as [|e es IH] using rev_ind; [done|].
    rewrite run_snoc. destruct e as [[|type msg [events|]]| | | |]; simpl; try done.
    - destruct (negb _); simpl; [done|]. right.
      destruct events as [|ev events]; [by eexists _, _|].
      destruct (line_starts ev) as (c & rest & Hl). simpl. rewrite Hl. by eexists _, _.
    - by destruct (negb _).
    - unfold timeout. by destruct (timers _). }
  destruct Hinv as [->|(x & l & -> & Hx)]; [done|].
  unfold text. destruct x as [|c x]; [done|]. apply concat_nonempty.
Qed.

Lemma step_items s e :
  items (step s e) =
    match payload_of e with
    | Some events => shown podName t getEventTime formatMoment events
    | None => items s
    end.
Proof.
  destruct e as [[|type msg [events|]]| | | |]; simpl; try done.
  - by destruct (bool_decide (type = "success")).
  - by destruct (bool_decide (type = "success")).
  - unfold timeout. by destruct (timers s).
Qed.

(** X23.  The list on display is that of the last frame that could be read,
    was of type [success] and had a payload; nothing of earlier frames is
    kept, and frames of another type, frames without payload and frames
    that cannot be parsed leave the list as it is, as do the opening and the
    closing of sockets. *)
Theorem display_shows_the_last_list s es :
  items (run s es) =
    match last_list es with
    | Some events => shown podName t getEventTime formatMoment events
    | None => items s
    end.
Proof.
  induction es as [|e es IH] using rev_ind; [done|].
  rewrite run_snoc, step_items. unfold last_list. rewrite omap_app. simpl.
  destruct (payload_of e) as [events|]; simpl.
  - by rewrite last_snoc.
  - rewrite app_nil_r. exact IH.
Qed.

Lemma torn_down_stays s e :
  selfClose s = true → timers s = [] →
  selfClose (step s e) = true ∧ timers (step s e) = [] ∧
  created (step s e) = created s.
Proof.
  intros Hs Ht. destruct e as [[|type msg [events|]]| | | |]; simpl; try done.
  - by destruct (negb _).
  - by destruct (negb _).
  - by rewrite Hs.
  - unfold timeout. by rewrite Ht.
Qed.

(** X24.  When the effect is cleaned up while no reconnection is scheduled,
    it never creates a socket again, whatever the sockets it has left do. *)
Theorem teardown_without_timer_is_final s es :
  timers s = [] → created (run (cleanup s) es) = created s.
Proof.
  intros Ht.
  assert (H : selfClose (run (cleanup s) es) = true ∧
              timers (run (cleanup s) es) = [] ∧
              created (run (cleanup s) es) = created s).
  { induction es as [|e es IH] using rev_ind; [done|].
    rewrite run_snoc. destruct IH as (H1 & H2 & H3).
    destruct (torn_down_stays (run (cleanup s) es) e H1 H2) as (? & ? & ?).
    repeat split; congruence. }
  by destruct H as (_ & _ & H).
Qed.

(** X25.  A reconnection that is scheduled when the effect is cleaned up is
    not cancelled: when it comes due it creates a socket and turns
    reconnection on again, so that every close of a socket schedules the
    next one.  After the clean-up there are runs that create any number of
    sockets. *)
Theorem pending_timer_survives_teardown s n :
  timers s ≠ [] →
  let s' := run (cleanup s) (mjoin (replicate n [Timeout; OnClose])) in
  created s' = created s + n ∧ (0 < n → selfClose s' = false) ∧ timers s' ≠ [].
Proof.
  intros Ht. simpl.
  induction n as [|n IH].
  { simpl. split; [lia|]. split; [lia|done]. }
  rewrite replicate_S_end, join_app. simpl. rewrite ?app_nil_r.
  unfold KubePodEvents.run in *. rewrite foldl_app.
  destruct IH as (Hc & _ & Hn). simpl.
  set (s1 := foldl step (cleanup s) (mjoin (replicate n [Timeout; OnClose]))) in *.
  unfold timeout. destruct (timers s1) as [|x rest] eqn:E; [done|]. simpl.
  split; [lia|]. split; [done|]. by destruct rest.
Qed.

End EventLog.

(** Two frames, the first with one event and the second empty. *)
Lemma text_is_never_empty_witness :
  let es := [KubePodEvents.OnOpen;
             KubePodEvents.OnMessage
               (KubePodEvents.Resp "success" ""
                  (Some [KubePodEvents.sample_event "Pulled" "image pulled"]));
             KubePodEvents.OnMessage (KubePodEvents.Resp "success" "" (Some []))] in
  id "no event" ≠ "" ∧
  (KubePodEvents.items KubePodEvents.mounted = [] ∨
   ∃ x l, KubePodEvents.items KubePodEvents.mounted = x :: l ∧ x ≠ "") ∧
  KubePodEvents.text
    (KubePodEvents.items
       (KubePodEvents.run None id KubePodEvents.sample_time id
          KubePodEvents.mounted es)) ≠ "".
Proof.
  intros es.
  assert (H1 : id "no event" ≠ "") by done.
  assert (H2 : KubePodEvents.items KubePodEvents.mounted = [] ∨
               ∃ x l, KubePodEvents.items KubePodEvents.mounted = x :: l ∧ x ≠ "")
    by (by left).
  split; [exact H1|]. split; [exact H2|].
  exact (text_is_never_empty None id KubePodEvents.sample_time id
           KubePodEvents.mounted es H1 H2).
Defined.

(** The socket closes by itself, then the component is unmounted, then the
    reconnection comes due three times. *)
Lemma pending_timer_survives_teardown_witness :
  let s := KubePodEvents.run None id KubePodEvents.sample_time id
             KubePodEvents.mounted [KubePodEvents.OnOpen; KubePodEvents.OnClose] in
  let s' := KubePodEvents.run None id KubePodEvents.sample_time id
              (KubePodEvents.cleanup s)
              (mjoin (replicate 3 [KubePodEvents.Timeout; KubePodEvents.OnClose])) in
  KubePodEvents.timers s ≠ [] ∧
  KubePodEvents.created s' = KubePodEvents.created s + 3 ∧
  (0 < 3 → KubePodEvents.selfClose s' = false) ∧
  KubePodEvents.timers s' ≠ [].
Proof.
  intros s s'.
  assert (H1 : KubePodEvents.timers s ≠ []) by done.
  split; [exact H1|].
  exact (pending_timer_survives_teardown None id KubePodEvents.sample_time id s 3 H1).
Defined.

(** The component is unmounted while its socket is open. *)
Lemma teardown_without_timer_is_final_witness :
  let s := KubePodEvents.run None id KubePodEvents.sample_time id
             KubePodEvents.mounted [KubePodEvents.OnOpen] in
  let es := [KubePodEvents.OnClose; KubePodEvents.Timeout; KubePodEvents.OnClose] in
  KubePodEvents.timers s = [] ∧
  KubePodEvents.created
    (KubePodEvents.run None id KubePodEvents.sample_time id (KubePodEvents.cleanup s) es)
  = KubePodEvents.created s.
Proof.
  intros s es.
  assert (H1 : KubePodEvents.timers s = []) by reflexivity.
  split; [exact H1|].
  exact (teardown_without_timer_is_final None id KubePodEvents.sample_time id s es H1).
Defined.
